(** * The resource item model of the deCONZ REST plugin (resource.cpp)

    A shallow embedding of [resource.cpp]: the catalog of item descriptors,
    the value container [ResourceItem] and the item collection [Resource],
    followed by the properties of the specification that were checked
    against them. *)

From Stdlib Require Import ZArith NArith String Ascii List Bool Lia Permutation.
From Stdlib Require Import Floats.SpecFloat.
Import ListNotations.

Local Open Scope Z_scope.

(** ** C strings

    The suffix of a descriptor is a [const char *].  The code compares
    suffixes with [==], that is by address, and reads the characters only
    in [getResourceItemDescriptor].  A [CString] therefore carries both the
    address and the characters.  The literals of [resource.cpp] are pairwise
    different texts, so they live at pairwise different addresses; as
    address of a literal the model takes the line of [resource.cpp] that
    defines it. *)

Record CString : Type := StrLit { ptr : N; chars : string }.

(** [p == q] on two [const char *]. *)
Definition ptr_eqb (p q : CString) : bool := N.eqb (ptr p) (ptr q).

Definition RSensors : CString := StrLit 16 "/sensors".
Definition RLights : CString := StrLit 17 "/lights".
Definition RGroups : CString := StrLit 18 "/groups".
Definition RConfig : CString := StrLit 19 "/config".
Definition REventAdded : CString := StrLit 21 "event/added".
Definition REventDeleted : CString := StrLit 22 "event/deleted".
Definition REventValidGroup : CString := StrLit 23 "event/validgroup".
Definition REventCheckGroupAnyOn : CString := StrLit 24 "event/checkgroupanyon".
Definition RInvalidSuffix : CString := StrLit 26 "invalid/suffix".
Definition RAttrName : CString := StrLit 28 "attr/name".
Definition RAttrManufacturerName : CString := StrLit 29 "attr/manufacturername".
Definition RAttrModelId : CString := StrLit 30 "attr/modelid".
Definition RAttrType : CString := StrLit 31 "attr/type".
Definition RAttrClass : CString := StrLit 32 "attr/class".
Definition RAttrUniqueId : CString := StrLit 33 "attr/uniqueid".
Definition RAttrSwVersion : CString := StrLit 34 "attr/swversion".
Definition RActionScene : CString := StrLit 36 "action/scene".
Definition RStateAlarm : CString := StrLit 38 "state/alarm".
Definition RStateAlert : CString := StrLit 39 "state/alert".
Definition RStateAllOn : CString := StrLit 40 "state/all_on".
Definition RStateAnyOn : CString := StrLit 41 "state/any_on".
Definition RStateBri : CString := StrLit 42 "state/bri".
Definition RStateButtonEvent : CString := StrLit 43 "state/buttonevent".
Definition RStateCarbonMonoxide : CString := StrLit 44 "state/carbonmonoxide".
Definition RStateColorMode : CString := StrLit 45 "state/colormode".
Definition RStateConsumption : CString := StrLit 46 "state/consumption".
Definition RStateCurrent : CString := StrLit 47 "state/current".
Definition RStateCt : CString := StrLit 48 "state/ct".
Definition RStateDark : CString := StrLit 49 "state/dark".
Definition RStateDaylight : CString := StrLit 50 "state/daylight".
Definition RStateEffect : CString := StrLit 51 "state/effect".
Definition RStateFire : CString := StrLit 52 "state/fire".
Definition RStateFlag : CString := StrLit 53 "state/flag".
Definition RStateHue : CString := StrLit 54 "state/hue".
Definition RStateHumidity : CString := StrLit 55 "state/humidity".
Definition RStateLastUpdated : CString := StrLit 56 "state/lastupdated".
Definition RStateLightLevel : CString := StrLit 57 "state/lightlevel".
Definition RStateLowBattery : CString := StrLit 58 "state/lowbattery".
Definition RStateLux : CString := StrLit 59 "state/lux".
Definition RStateOn : CString := StrLit 60 "state/on".
Definition RStateOpen : CString := StrLit 61 "state/open".
Definition RStateOrientationX : CString := StrLit 62 "state/orientation_x".
Definition RStateOrientationY : CString := StrLit 63 "state/orientation_y".
Definition RStateOrientationZ : CString := StrLit 64 "state/orientation_z".
Definition RStatePresence : CString := StrLit 65 "state/presence".
Definition RStatePressure : CString := StrLit 66 "state/pressure".
Definition RStatePower : CString := StrLit 67 "state/power".
Definition RStateReachable : CString := StrLit 68 "state/reachable".
Definition RStateSat : CString := StrLit 69 "state/sat".
Definition RStateSpeed : CString := StrLit 70 "state/speed".
Definition RStateStatus : CString := StrLit 71 "state/status".
Definition RStateTampered : CString := StrLit 72 "state/tampered".
Definition RStateTemperature : CString := StrLit 73 "state/temperature".
Definition RStateTiltAngle : CString := StrLit 74 "state/tiltangle".
Definition RStateValve : CString := StrLit 75 "state/valve".
Definition RStateVibration : CString := StrLit 76 "state/vibration".
Definition RStateVibrationStrength : CString := StrLit 77 "state/vibrationstrength".
Definition RStateVoltage : CString := StrLit 78 "state/voltage".
Definition RStateWater : CString := StrLit 79 "state/water".
Definition RStateX : CString := StrLit 80 "state/x".
Definition RStateY : CString := StrLit 81 "state/y".
Definition RConfigAlert : CString := StrLit 83 "config/alert".
Definition RConfigBattery : CString := StrLit 84 "config/battery".
Definition RConfigColorCapabilities : CString := StrLit 85 "config/colorcapabilities".
Definition RConfigCtMin : CString := StrLit 86 "config/ctmin".
Definition RConfigCtMax : CString := StrLit 87 "config/ctmax".
Definition RConfigConfigured : CString := StrLit 88 "config/configured".
Definition RConfigDelay : CString := StrLit 89 "config/delay".
Definition RConfigDisplayFlipped : CString := StrLit 90 "config/displayflipped".
Definition RConfigDuration : CString := StrLit 91 "config/duration".
Definition RConfigGroup : CString := StrLit 92 "config/group".
Definition RConfigHeatSetpoint : CString := StrLit 93 "config/heatsetpoint".
Definition RConfigHostFlags : CString := StrLit 94 "config/hostflags".
Definition RConfigId : CString := StrLit 95 "config/id".
Definition RConfigLat : CString := StrLit 96 "config/lat".
Definition RConfigLedIndication : CString := StrLit 97 "config/ledindication".
Definition RConfigLocalTime : CString := StrLit 98 "config/localtime".
Definition RConfigLocked : CString := StrLit 99 "config/locked".
Definition RConfigLong : CString := StrLit 100 "config/long".
Definition RConfigLevelMin : CString := StrLit 101 "config/levelmin".
Definition RConfigMode : CString := StrLit 102 "config/mode".
Definition RConfigOffset : CString := StrLit 103 "config/offset".
Definition RConfigOn : CString := StrLit 104 "config/on".
Definition RConfigPending : CString := StrLit 105 "config/pending".
Definition RConfigPowerup : CString := StrLit 106 "config/powerup".
Definition RConfigPowerOnCt : CString := StrLit 107 "config/poweronct".
Definition RConfigPowerOnLevel : CString := StrLit 108 "config/poweronlevel".
Definition RConfigReachable : CString := StrLit 109 "config/reachable".
Definition RConfigScheduler : CString := StrLit 110 "config/scheduler".
Definition RConfigSchedulerOn : CString := StrLit 111 "config/scheduleron".
Definition RConfigSensitivity : CString := StrLit 112 "config/sensitivity".
Definition RConfigSensitivityMax : CString := StrLit 113 "config/sensitivitymax".
Definition RConfigSunriseOffset : CString := StrLit 114 "config/sunriseoffset".
Definition RConfigSunsetOffset : CString := StrLit 115 "config/sunsetoffset".
Definition RConfigTemperature : CString := StrLit 116 "config/temperature".
Definition RConfigTholdDark : CString := StrLit 117 "config/tholddark".
Definition RConfigTholdOffset : CString := StrLit 118 "config/tholdoffset".
Definition RConfigUrl : CString := StrLit 119 "config/url".
Definition RConfigUsertest : CString := StrLit 120 "config/usertest".
Definition RConfigWindowCoveringType : CString := StrLit 121 "config/windowcoveringtype".
Definition RConfigUbisysJ1Mode : CString := StrLit 122 "config/ubisys_j1_mode".
Definition RConfigUbisysJ1WindowCoveringType : CString := StrLit 123 "config/ubisys_j1_windowcoveringtype".
Definition RConfigUbisysJ1ConfigurationAndStatus : CString := StrLit 124 "config/ubisys_j1_configurationandstatus".
Definition RConfigUbisysJ1InstalledOpenLimitLift : CString := StrLit 125 "config/ubisys_j1_installedopenlimitlift".
Definition RConfigUbisysJ1InstalledClosedLimitLift : CString := StrLit 126 "config/ubisys_j1_installedclosedlimitlift".
Definition RConfigUbisysJ1InstalledOpenLimitTilt : CString := StrLit 127 "config/ubisys_j1_installedopenlimittilt".
Definition RConfigUbisysJ1InstalledClosedLimitTilt : CString := StrLit 128 "config/ubisys_j1_installedclosedlimittilt".
Definition RConfigUbisysJ1TurnaroundGuardTime : CString := StrLit 129 "config/ubisys_j1_turnaroundguardtime".
Definition RConfigUbisysJ1LiftToTiltTransitionSteps : CString := StrLit 130 "config/ubisys_j1_lifttotilttransitionsteps".
Definition RConfigUbisysJ1TotalSteps : CString := StrLit 131 "config/ubisys_j1_totalsteps".
Definition RConfigUbisysJ1LiftToTiltTransitionSteps2 : CString := StrLit 132 "config/ubisys_j1_lifttotilttransitionsteps2".
Definition RConfigUbisysJ1TotalSteps2 : CString := StrLit 133 "config/ubisys_j1_totalsteps2".
Definition RConfigUbisysJ1AdditionalSteps : CString := StrLit 134 "config/ubisys_j1_additionalsteps".
Definition RConfigUbisysJ1InactivePowerThreshold : CString := StrLit 135 "config/ubisys_j1_inactivepowerthreshold".
Definition RConfigUbisysJ1StartupSteps : CString := StrLit 136 "config/ubisys_j1_startupsteps".

(** ** Descriptors *)

(** Modelled from the spec: [ApiDataType] is declared in [resource.h], which
    is not among the sources.  These are the data types the specification
    lists, which are also all the enumerators [resource.cpp] mentions. *)
Inductive ApiDataType : Type :=
| DataTypeBool
| DataTypeUInt8
| DataTypeUInt16
| DataTypeUInt32
| DataTypeUInt64
| DataTypeInt8
| DataTypeInt16
| DataTypeInt32
| DataTypeString
| DataTypeTime
| DataTypeTimePattern.

Definition ApiDataType_eqb (a b : ApiDataType) : bool :=
  match a, b with
  | DataTypeBool, DataTypeBool
  | DataTypeUInt8, DataTypeUInt8
  | DataTypeUInt16, DataTypeUInt16
  | DataTypeUInt32, DataTypeUInt32
  | DataTypeUInt64, DataTypeUInt64
  | DataTypeInt8, DataTypeInt8
  | DataTypeInt16, DataTypeInt16
  | DataTypeInt32, DataTypeInt32
  | DataTypeString, DataTypeString
  | DataTypeTime, DataTypeTime
  | DataTypeTimePattern, DataTypeTimePattern => true
  | _, _ => false
  end.

(** Modelled from the spec: the class [ResourceItemDescriptor] is declared in
    [resource.h].  Its fields are the ones [resource.cpp] reads ([type],
    [suffix], [validMin], [validMax]); the bounds are inclusive and compared
    with 64 bit values, so they are integers here. *)
Record ResourceItemDescriptor : Type := {
  type : ApiDataType;
  suffix : CString;
  validMin : Z;
  validMax : Z
}.

(** Modelled from the spec: the constructor is defined in [resource.h].
    [initResourceDescriptors] calls it with a type and a suffix and, for the
    entries with a range, with the two bounds; an entry without bounds has
    no range check, which is both bounds at zero. *)
Definition ResourceItemDescriptor_ctor (t : ApiDataType) (s : CString)
  (min max : Z) : ResourceItemDescriptor :=
  {| type := t; suffix := s; validMin := min; validMax := max |}.

(** ** The file-scope state of resource.cpp *)

Record Globals : Type := {
  rPrefixes : list CString;
  rItemDescriptors : list ResourceItemDescriptor;
  rItemStrings : list string   (* string allocator: only grows *)
}.

(** [initResourceDescriptors()]: the three vectors are cleared, the invalid
    string is put at index 0, and the descriptors are appended in this
    order. *)
Definition initResourceDescriptors (g : Globals) : Globals :=
  {| rPrefixes := [];
     rItemStrings := [EmptyString];
     rItemDescriptors := [
    ResourceItemDescriptor_ctor DataTypeString RAttrName 0 0;
    ResourceItemDescriptor_ctor DataTypeString RAttrManufacturerName 0 0;
    ResourceItemDescriptor_ctor DataTypeString RAttrModelId 0 0;
    ResourceItemDescriptor_ctor DataTypeString RAttrType 0 0;
    ResourceItemDescriptor_ctor DataTypeString RAttrClass 0 0;
    ResourceItemDescriptor_ctor DataTypeString RAttrUniqueId 0 0;
    ResourceItemDescriptor_ctor DataTypeString RAttrSwVersion 0 0;
    ResourceItemDescriptor_ctor DataTypeBool RStateAlarm 0 0;
    ResourceItemDescriptor_ctor DataTypeString RStateAlert 0 0;
    ResourceItemDescriptor_ctor DataTypeBool RStateAllOn 0 0;
    ResourceItemDescriptor_ctor DataTypeBool RStateAnyOn 0 0;
    ResourceItemDescriptor_ctor DataTypeUInt8 RStateBri 0 0;
    ResourceItemDescriptor_ctor DataTypeInt32 RStateButtonEvent 0 0;
    ResourceItemDescriptor_ctor DataTypeBool RStateCarbonMonoxide 0 0;
    ResourceItemDescriptor_ctor DataTypeString RStateColorMode 0 0;
    ResourceItemDescriptor_ctor DataTypeUInt64 RStateConsumption 0 0;
    ResourceItemDescriptor_ctor DataTypeUInt16 RStateCurrent 0 0;
    ResourceItemDescriptor_ctor DataTypeUInt16 RStateCt 0 0;
    ResourceItemDescriptor_ctor DataTypeBool RStateDark 0 0;
    ResourceItemDescriptor_ctor DataTypeBool RStateDaylight 0 0;
    ResourceItemDescriptor_ctor DataTypeString RStateEffect 0 0;
    ResourceItemDescriptor_ctor DataTypeBool RStateFire 0 0;
    ResourceItemDescriptor_ctor DataTypeBool RStateFlag 0 0;
    ResourceItemDescriptor_ctor DataTypeUInt16 RStateHue 0 0;
    ResourceItemDescriptor_ctor DataTypeUInt16 RStateHumidity 0 10000;
    ResourceItemDescriptor_ctor DataTypeTime RStateLastUpdated 0 0;
    ResourceItemDescriptor_ctor DataTypeUInt16 RStateLightLevel 0 65534;
    ResourceItemDescriptor_ctor DataTypeBool RStateLowBattery 0 0;
    ResourceItemDescriptor_ctor DataTypeUInt32 RStateLux 0 0;
    ResourceItemDescriptor_ctor DataTypeBool RStateOn 0 0;
    ResourceItemDescriptor_ctor DataTypeBool RStateOpen 0 0;
    ResourceItemDescriptor_ctor DataTypeInt16 RStateOrientationX 0 0;
    ResourceItemDescriptor_ctor DataTypeInt16 RStateOrientationY 0 0;
    ResourceItemDescriptor_ctor DataTypeInt16 RStateOrientationZ 0 0;
    ResourceItemDescriptor_ctor DataTypeBool RStatePresence 0 0;
    ResourceItemDescriptor_ctor DataTypeInt16 RStatePressure 0 32767;
    ResourceItemDescriptor_ctor DataTypeInt16 RStatePower 0 0;
    ResourceItemDescriptor_ctor DataTypeBool RStateReachable 0 0;
    ResourceItemDescriptor_ctor DataTypeUInt8 RStateSat 0 0;
    ResourceItemDescriptor_ctor DataTypeString RActionScene 0 0;
    ResourceItemDescriptor_ctor DataTypeUInt8 RStateSpeed 0 6;
    ResourceItemDescriptor_ctor DataTypeInt32 RStateStatus 0 0;
    ResourceItemDescriptor_ctor DataTypeBool RStateTampered 0 0;
    ResourceItemDescriptor_ctor DataTypeInt16 RStateTemperature (-27315) 32767;
    ResourceItemDescriptor_ctor DataTypeUInt16 RStateTiltAngle 0 0;
    ResourceItemDescriptor_ctor DataTypeUInt8 RStateValve 0 0;
    ResourceItemDescriptor_ctor DataTypeBool RStateVibration 0 0;
    ResourceItemDescriptor_ctor DataTypeUInt16 RStateVibrationStrength 0 0;
    ResourceItemDescriptor_ctor DataTypeUInt16 RStateVoltage 0 0;
    ResourceItemDescriptor_ctor DataTypeBool RStateWater 0 0;
    ResourceItemDescriptor_ctor DataTypeUInt16 RStateX 0 0;
    ResourceItemDescriptor_ctor DataTypeUInt16 RStateY 0 0;
    ResourceItemDescriptor_ctor DataTypeString RConfigAlert 0 0;
    ResourceItemDescriptor_ctor DataTypeUInt8 RConfigBattery 0 100;
    ResourceItemDescriptor_ctor DataTypeUInt16 RConfigColorCapabilities 0 0;
    ResourceItemDescriptor_ctor DataTypeUInt16 RConfigCtMin 0 0;
    ResourceItemDescriptor_ctor DataTypeUInt16 RConfigCtMax 0 0;
    ResourceItemDescriptor_ctor DataTypeBool RConfigConfigured 0 0;
    ResourceItemDescriptor_ctor DataTypeUInt16 RConfigDelay 0 0;
    ResourceItemDescriptor_ctor DataTypeBool RConfigDisplayFlipped 0 0;
    ResourceItemDescriptor_ctor DataTypeUInt16 RConfigDuration 0 0;
    ResourceItemDescriptor_ctor DataTypeString RConfigGroup 0 0;
    ResourceItemDescriptor_ctor DataTypeInt16 RConfigHeatSetpoint 500 3000;
    ResourceItemDescriptor_ctor DataTypeUInt32 RConfigHostFlags 0 0;
    ResourceItemDescriptor_ctor DataTypeUInt32 RConfigId 0 0;
    ResourceItemDescriptor_ctor DataTypeString RConfigLat 0 0;
    ResourceItemDescriptor_ctor DataTypeBool RConfigLedIndication 0 0;
    ResourceItemDescriptor_ctor DataTypeTime RConfigLocalTime 0 0;
    ResourceItemDescriptor_ctor DataTypeBool RConfigLocked 0 0;
    ResourceItemDescriptor_ctor DataTypeString RConfigLong 0 0;
    ResourceItemDescriptor_ctor DataTypeUInt8 RConfigLevelMin 0 0;
    ResourceItemDescriptor_ctor DataTypeString RConfigMode 0 0;
    ResourceItemDescriptor_ctor DataTypeInt16 RConfigOffset (-500) 500;
    ResourceItemDescriptor_ctor DataTypeBool RConfigOn 0 0;
    ResourceItemDescriptor_ctor DataTypeUInt8 RConfigPending 0 0;
    ResourceItemDescriptor_ctor DataTypeUInt32 RConfigPowerup 0 0;
    ResourceItemDescriptor_ctor DataTypeUInt8 RConfigPowerOnLevel 0 0;
    ResourceItemDescriptor_ctor DataTypeUInt16 RConfigPowerOnCt 0 0;
    ResourceItemDescriptor_ctor DataTypeBool RConfigReachable 0 0;
    ResourceItemDescriptor_ctor DataTypeString RConfigScheduler 0 0;
    ResourceItemDescriptor_ctor DataTypeBool RConfigSchedulerOn 0 0;
    ResourceItemDescriptor_ctor DataTypeUInt8 RConfigSensitivity 0 0;
    ResourceItemDescriptor_ctor DataTypeUInt8 RConfigSensitivityMax 0 0;
    ResourceItemDescriptor_ctor DataTypeInt8 RConfigSunriseOffset (-120) 120;
    ResourceItemDescriptor_ctor DataTypeInt8 RConfigSunsetOffset (-120) 120;
    ResourceItemDescriptor_ctor DataTypeInt16 RConfigTemperature (-27315) 32767;
    ResourceItemDescriptor_ctor DataTypeUInt16 RConfigTholdDark 0 65534;
    ResourceItemDescriptor_ctor DataTypeUInt16 RConfigTholdOffset 1 65534;
    ResourceItemDescriptor_ctor DataTypeString RConfigUrl 0 0;
    ResourceItemDescriptor_ctor DataTypeBool RConfigUsertest 0 0;
    ResourceItemDescriptor_ctor DataTypeUInt8 RConfigWindowCoveringType 0 0;
    ResourceItemDescriptor_ctor DataTypeUInt8 RConfigUbisysJ1Mode 0 0;
    ResourceItemDescriptor_ctor DataTypeUInt8 RConfigUbisysJ1WindowCoveringType 0 0;
    ResourceItemDescriptor_ctor DataTypeUInt8 RConfigUbisysJ1ConfigurationAndStatus 0 0;
    ResourceItemDescriptor_ctor DataTypeUInt16 RConfigUbisysJ1InstalledOpenLimitLift 0 0;
    ResourceItemDescriptor_ctor DataTypeUInt16 RConfigUbisysJ1InstalledClosedLimitLift 0 0;
    ResourceItemDescriptor_ctor DataTypeUInt16 RConfigUbisysJ1InstalledOpenLimitTilt 0 0;
    ResourceItemDescriptor_ctor DataTypeUInt16 RConfigUbisysJ1InstalledClosedLimitTilt 0 0;
    ResourceItemDescriptor_ctor DataTypeUInt8 RConfigUbisysJ1TurnaroundGuardTime 0 0;
    ResourceItemDescriptor_ctor DataTypeUInt16 RConfigUbisysJ1LiftToTiltTransitionSteps 0 0;
    ResourceItemDescriptor_ctor DataTypeUInt16 RConfigUbisysJ1TotalSteps 0 0;
    ResourceItemDescriptor_ctor DataTypeUInt16 RConfigUbisysJ1LiftToTiltTransitionSteps2 0 0;
    ResourceItemDescriptor_ctor DataTypeUInt16 RConfigUbisysJ1TotalSteps2 0 0;
    ResourceItemDescriptor_ctor DataTypeUInt8 RConfigUbisysJ1AdditionalSteps 0 0;
    ResourceItemDescriptor_ctor DataTypeUInt16 RConfigUbisysJ1InactivePowerThreshold 0 0;
    ResourceItemDescriptor_ctor DataTypeUInt16 RConfigUbisysJ1StartupSteps 0 0
     ] |}.

(** The state before [initResourceDescriptors] has run. *)
Definition globals0 : Globals :=
  {| rPrefixes := []; rItemDescriptors := []; rItemStrings := [] |}.

(** [str.endsWith(QLatin1String(s))], case sensitive, on texts of 8 bit
    characters. *)
Definition endsWith (str s : string) : bool :=
  let n := String.length str in
  let k := String.length s in
  if (k <=? n)%nat then String.eqb (substring (n - k) k str) s else false.

(** [getResourceItemDescriptor(str, descr)]: the loop over the descriptors;
    [Some d] stands for [descr = d; return true], [None] for
    [return false]. *)
Fixpoint getResourceItemDescriptor_loop (i : list ResourceItemDescriptor)
  (str : string) : option ResourceItemDescriptor :=
  match i with
  | [] => None
  | d :: i' =>
      if endsWith str (chars (suffix d)) then Some d
      else getResourceItemDescriptor_loop i' str
  end.

Definition getResourceItemDescriptor (g : Globals) (str : string)
  : option ResourceItemDescriptor :=
  getResourceItemDescriptor_loop (rItemDescriptors g) str.

(** [getResourcePrefix(str)] ignores its argument and returns [nullptr]. *)
Definition getResourcePrefix (str : string) : option CString := None.

(** ** Qt values

    [QDateTime] and [QVariant] belong to Qt.  The model keeps what
    [resource.cpp] observes of them: whether a date-time is valid, its
    milliseconds since the epoch, its time spec, and its text in the format
    [yyyy-MM-ddTHH:mm:ss]; of a variant its type tag and its conversions. *)

Inductive TimeSpec : Type := LocalTime | UTC.

(** A [QDateTime]: whether it is valid, its time spec and the milliseconds
    since 1970-01-01T00:00:00 UTC it stands for. *)
Record QDateTime : Type := {
  dt_isValid : bool;
  dt_timeSpec : TimeSpec;
  dt_msecs : Z
}.

(** [QDateTime()]: null, hence not valid. *)
Definition QDateTime_ctor : QDateTime :=
  {| dt_isValid := false; dt_timeSpec := LocalTime; dt_msecs := 0 |}.

(** [QDateTime::currentDateTime()] when the system clock shows [clock]
    milliseconds since the epoch. *)
Definition currentDateTime (clock : Z) : QDateTime :=
  {| dt_isValid := true; dt_timeSpec := LocalTime; dt_msecs := clock |}.

(** [QDateTime::fromMSecsSinceEpoch(msecs)]: a local time. *)
Definition fromMSecsSinceEpoch (msecs : Z) : QDateTime :=
  {| dt_isValid := true; dt_timeSpec := LocalTime; dt_msecs := msecs |}.

(** [dt.setOffsetFromUtc(0)] turns the time spec into UTC. *)
Definition setOffsetFromUtc_0 (dt : QDateTime) : QDateTime :=
  {| dt_isValid := dt_isValid dt; dt_timeSpec := UTC; dt_msecs := dt_msecs dt |}.

(** [dt.setMSecsSinceEpoch(msecs)] keeps the time spec. *)
Definition setMSecsSinceEpoch (dt : QDateTime) (msecs : Z) : QDateTime :=
  {| dt_isValid := true; dt_timeSpec := dt_timeSpec dt; dt_msecs := msecs |}.

(** Qt leaves [toMSecsSinceEpoch] of a date-time that is not valid
    unspecified; the model returns the stored number. *)
Definition toMSecsSinceEpoch (dt : QDateTime) : Z := dt_msecs dt.

(** *** The proleptic Gregorian calendar *)

Definition is_leap_year (y : Z) : bool :=
  (y mod 4 =? 0) && (negb (y mod 100 =? 0) || (y mod 400 =? 0)).

Definition days_in_month (y m : Z) : Z :=
  if m =? 2 then (if is_leap_year y then 29 else 28)
  else if (m =? 4) || (m =? 6) || (m =? 9) || (m =? 11) then 30
  else 31.

(** Days since 1970-01-01 of the civil date [y]-[m]-[d] (years counted
    astronomically, with a year 0). *)
Definition days_from_civil (y m d : Z) : Z :=
  let y' := if m <=? 2 then y - 1 else y in
  let era := y' / 400 in
  let yoe := y' - era * 400 in
  let mp := if 2 <? m then m - 3 else m + 9 in
  let doy := (153 * mp + 2) / 5 + d - 1 in
  let doe := yoe * 365 + yoe / 4 - yoe / 100 + doy in
  era * 146097 + doe - 719468.

(** The civil date (year, month, day) of a day number. *)
Definition civil_from_days (z : Z) : Z * Z * Z :=
  let z' := z + 719468 in
  let era := z' / 146097 in
  let doe := z' - era * 146097 in
  let yoe := (doe - doe / 1460 + doe / 36524 - doe / 146096) / 365 in
  let doy := doe - (365 * yoe + yoe / 4 - yoe / 100) in
  let mp := (5 * doy + 2) / 153 in
  let d := doy - (153 * mp + 2) / 5 + 1 in
  let m := if mp <? 10 then mp + 3 else mp - 9 in
  let y := yoe + era * 400 in
  ((if m <=? 2 then y + 1 else y), m, d).

(** *** Text in the format yyyy-MM-ddTHH:mm:ss *)

Definition digit_char (d : Z) : ascii := ascii_of_nat (48 + Z.to_nat d).

Definition pad2 (n : Z) : string :=
  String (digit_char (n / 10)) (String (digit_char (n mod 10)) EmptyString).

Fixpoint decimal_digits (fuel : nat) (n : Z) (acc : string) : string :=
  match fuel with
  | O => acc
  | S fuel' =>
      let acc' := String (digit_char (n mod 10)) acc in
      if n / 10 =? 0 then acc' else decimal_digits fuel' (n / 10) acc'
  end.

(** A number of at least four digits, padded with zeros on the left. *)
Definition pad4 (n : Z) : string :=
  if n <? 10000 then (pad2 (n / 100) ++ pad2 (n mod 100))%string
  else decimal_digits 20 n EmptyString.

(** [yyyy]: [QDate] has no year 0, the year before year 1 is year -1; a
    negative year is printed with a minus sign. *)
Definition format_yyyy (y : Z) : string :=
  if 0 <? y then pad4 y else String "-"%char (pad4 (1 - y)).

(** The text of the moment that lies [local] milliseconds after
    1970-01-01T00:00:00 on the clock of the zone it is printed in. *)
Definition format_yyyyMMddTHHmmss (local : Z) : string :=
  let secs := local / 1000 in
  let '(y, m, d) := civil_from_days (secs / 86400) in
  let sod := secs mod 86400 in
  (format_yyyy y ++ "-" ++ pad2 m ++ "-" ++ pad2 d ++ "T" ++
   pad2 (sod / 3600) ++ ":" ++ pad2 (sod mod 3600 / 60) ++ ":" ++
   pad2 (sod mod 60))%string.

Definition digit_of (c : ascii) : option Z :=
  let n := Z.of_nat (nat_of_ascii c) in
  if (48 <=? n) && (n <=? 57) then Some (n - 48) else None.

Definition number2 (a b : ascii) : option Z :=
  match digit_of a, digit_of b with
  | Some x, Some y => Some (10 * x + y)
  | _, _ => None
  end.

Definition number4 (a b c d : ascii) : option Z :=
  match number2 a b, number2 c d with
  | Some x, Some y => Some (100 * x + y)
  | _, _ => None
  end.

(** Reading a text in the format [yyyy-MM-ddTHH:mm:ss]: the milliseconds
    since 1970-01-01T00:00:00 on the clock of the zone the text is read in,
    or [None] when the text does not have this form or names no date and
    time of day. *)
Definition parse_yyyyMMddTHHmmss (s : string) : option Z :=
  match list_ascii_of_string s with
  | [y1; y2; y3; y4; c1; m1; m2; c2; d1; d2; c3; h1; h2; c4; n1; n2; c5; s1; s2] =>
      if (c1 =? "-")%char && (c2 =? "-")%char && (c3 =? "T")%char &&
         (c4 =? ":")%char && (c5 =? ":")%char
      then
        match number4 y1 y2 y3 y4, number2 m1 m2, number2 d1 d2,
              number2 h1 h2, number2 n1 n2, number2 s1 s2 with
        | Some y, Some m, Some d, Some h, Some n, Some sec =>
            if (1 <=? y) && (1 <=? m) && (m <=? 12) && (1 <=? d) &&
               (d <=? days_in_month y m) && (h <? 24) && (n <? 60) && (sec <? 60)
            then Some (days_from_civil y m d * 86400000 +
                       h * 3600000 + n * 60000 + sec * 1000)
            else None
        | _, _, _, _, _, _ => None
        end
      else None
  | _ => None
  end.

(** *** Variants *)

Inductive QVariant_Type : Type :=
| QVariant_Invalid
| QVariant_Bool
| QVariant_Int
| QVariant_Double
| QVariant_String
| QVariant_DateTime
| QVariant_OtherType (id : N).

(** A variant: [QVariant()], a variant made from a [bool], an [int], a
    [double], a [QString] or a [QDateTime], or a variant of one of the other
    meta types, of which only the type id is kept. *)
Inductive QVariant : Type :=
| QVariant_null
| QVariant_bool (b : bool)
| QVariant_int (n : Z)
| QVariant_double (d : spec_float)
| QVariant_QString (s : string)
| QVariant_QDateTime (dt : QDateTime)
| QVariant_other (id : N).

Definition QVariant_isValid (v : QVariant) : bool :=
  match v with QVariant_null => false | _ => true end.

Definition QVariant_type (v : QVariant) : QVariant_Type :=
  match v with
  | QVariant_null => QVariant_Invalid
  | QVariant_bool _ => QVariant_Bool
  | QVariant_int _ => QVariant_Int
  | QVariant_double _ => QVariant_Double
  | QVariant_QString _ => QVariant_String
  | QVariant_QDateTime _ => QVariant_DateTime
  | QVariant_other id => QVariant_OtherType id
  end.

(** [(double)n] for a 64 bit integer: the binary64 number nearest to [n]. *)
Definition double_of_qint64 (n : Z) : spec_float :=
  binary_normalize 53 1024 n 0 false.

(** What the program takes from the machine it runs on: the offset of the
    system time zone (seconds east of UTC; the model has zones of a fixed
    offset), and Qt's conversions of a variant to a type other than the one
    it holds. *)
Class QtHost : Type := {
  localOffset : Z;
  convert_toString : QVariant -> string;
  convert_toBool : QVariant -> bool;
  convert_toInt : QVariant -> Z * bool;
  convert_toDateTime : QVariant -> QDateTime
}.

(** ** ResourceItem *)

(** Modelled from the spec: the class [ResourceItem] is declared in
    [resource.h]; these are the members [resource.cpp] reads and writes.
    [m_str] is a [QString *]: [None] is [nullptr], [Some s] a buffer that
    holds [s].  A timestamp is a [QDateTime]. *)
Record ResourceItem : Type := {
  m_isPublic : bool;
  m_num : Z;
  m_numPrev : Z;
  m_str : option string;
  m_rid : ResourceItemDescriptor;
  m_lastSet : QDateTime;
  m_lastChanged : QDateTime;
  m_rulesInvolved : list Z
}.

Definition with_m_isPublic (it : ResourceItem) (b : bool) : ResourceItem :=
  {| m_isPublic := b; m_num := m_num it; m_numPrev := m_numPrev it;
     m_str := m_str it; m_rid := m_rid it; m_lastSet := m_lastSet it;
     m_lastChanged := m_lastChanged it; m_rulesInvolved := m_rulesInvolved it |}.

Definition with_m_num (it : ResourceItem) (n : Z) : ResourceItem :=
  {| m_isPublic := m_isPublic it; m_num := n; m_numPrev := m_numPrev it;
     m_str := m_str it; m_rid := m_rid it; m_lastSet := m_lastSet it;
     m_lastChanged := m_lastChanged it; m_rulesInvolved := m_rulesInvolved it |}.

Definition with_m_numPrev (it : ResourceItem) (n : Z) : ResourceItem :=
  {| m_isPublic := m_isPublic it; m_num := m_num it; m_numPrev := n;
     m_str := m_str it; m_rid := m_rid it; m_lastSet := m_lastSet it;
     m_lastChanged := m_lastChanged it; m_rulesInvolved := m_rulesInvolved it |}.

Definition with_m_str (it : ResourceItem) (s : option string) : ResourceItem :=
  {| m_isPublic := m_isPublic it; m_num := m_num it; m_numPrev := m_numPrev it;
     m_str := s; m_rid := m_rid it; m_lastSet := m_lastSet it;
     m_lastChanged := m_lastChanged it; m_rulesInvolved := m_rulesInvolved it |}.

Definition with_m_lastSet (it : ResourceItem) (t : QDateTime) : ResourceItem :=
  {| m_isPublic := m_isPublic it; m_num := m_num it; m_numPrev := m_numPrev it;
     m_str := m_str it; m_rid := m_rid it; m_lastSet := t;
     m_lastChanged := m_lastChanged it; m_rulesInvolved := m_rulesInvolved it |}.

Definition with_m_lastChanged (it : ResourceItem) (t : QDateTime) : ResourceItem :=
  {| m_isPublic := m_isPublic it; m_num := m_num it; m_numPrev := m_numPrev it;
     m_str := m_str it; m_rid := m_rid it; m_lastSet := m_lastSet it;
     m_lastChanged := t; m_rulesInvolved := m_rulesInvolved it |}.

Definition with_m_rulesInvolved (it : ResourceItem) (l : list Z) : ResourceItem :=
  {| m_isPublic := m_isPublic it; m_num := m_num it; m_numPrev := m_numPrev it;
     m_str := m_str it; m_rid := m_rid it; m_lastSet := m_lastSet it;
     m_lastChanged := m_lastChanged it; m_rulesInvolved := l |}.

(** ** Resource *)

(** Modelled from the spec: the class [Resource] is declared in [resource.h];
    it holds the prefix and the vector of its items. *)
Record Resource : Type := {
  m_prefix : CString;
  m_rItems : list ResourceItem
}.

(** What [DBG_Assert] and [DBG_Printf] put on the debug channel. *)
Inductive DbgEvent : Type :=
| DBG_Assert_failed
| DBG_Printf_ERROR_unknown (t : ApiDataType) (s : CString).

(** The outcome of [addItem]: the returned pointer ([None] is null, [Some i]
    points to element [i] of the vector), the resource afterwards and the
    debug output. *)
Record AddItemResult : Type := {
  added : option nat;
  after_addItem : Resource;
  debug_out : list DbgEvent
}.

(** A host in which no variant converts to a type it does not hold, at the
    given offset from UTC; it is used to run the model on inputs that need
    no conversion. *)
Definition plain_host (offset : Z) : QtHost :=
  {| localOffset := offset;
     convert_toString := fun _ => EmptyString;
     convert_toBool := fun _ => false;
     convert_toInt := fun _ => (0, false);
     convert_toDateTime := fun _ => QDateTime_ctor |}.

Section Model.

Context {host : QtHost}.

(** Modelled from the spec: [m_isPublic] is initialised in [resource.h], not
    by the constructor in [resource.cpp]; its initial value is a
    parameter. *)
Variable m_isPublic_init : bool.

(** *** Qt calls that depend on the host *)

(** [QDateTime::fromString(s, "yyyy-MM-ddTHH:mm:ss")].  Qt builds the
    result as [QDateTime(date, time)], a date-time of time spec
    [Qt::LocalTime]: the text is read on the clock of the system time zone.
    When the text does not parse the result is not valid. *)
Definition QDateTime_fromString (s : string) : QDateTime :=
  match parse_yyyyMMddTHHmmss s with
  | Some local =>
      {| dt_isValid := true; dt_timeSpec := LocalTime;
         dt_msecs := local - 1000 * localOffset |}
  | None => QDateTime_ctor
  end.

(** [dt.toString("yyyy-MM-ddTHH:mm:ss")]: Qt prints the date and time of
    [dt] on the clock of its time spec, local time or UTC ([T] is no format
    character and is printed as it is); the text is empty when [dt] is not
    valid. *)
Definition QDateTime_toString (dt : QDateTime) : string :=
  if dt_isValid dt then
    match dt_timeSpec dt with
    | LocalTime => format_yyyyMMddTHHmmss (dt_msecs dt + 1000 * localOffset)
    | UTC => format_yyyyMMddTHHmmss (dt_msecs dt)
    end
  else EmptyString.

Definition QVariant_toString (v : QVariant) : string :=
  match v with QVariant_QString s => s | _ => convert_toString v end.

Definition QVariant_toBool (v : QVariant) : bool :=
  match v with QVariant_bool b => b | _ => convert_toBool v end.

(** [val.toInt(&ok)]: the number and [ok]. *)
Definition QVariant_toInt (v : QVariant) : Z * bool :=
  match v with QVariant_int n => (n, true) | _ => convert_toInt v end.

Definition QVariant_toDateTime (v : QVariant) : QDateTime :=
  match v with QVariant_QDateTime dt => dt | _ => convert_toDateTime v end.

(** *** ResourceItem *)

Definition has_string_buffer (t : ApiDataType) : bool :=
  match t with
  | DataTypeString | DataTypeTime | DataTypeTimePattern => true
  | _ => false
  end.

(** [ResourceItem::ResourceItem(const ResourceItemDescriptor &rid)]. *)
Definition ResourceItem_ctor (rid : ResourceItemDescriptor) : ResourceItem :=
  {| m_isPublic := m_isPublic_init;
     m_num := 0;
     m_numPrev := 0;
     m_str := if has_string_buffer (type rid) then Some EmptyString else None;
     m_rid := rid;
     m_lastSet := QDateTime_ctor;
     m_lastChanged := QDateTime_ctor;
     m_rulesInvolved := [] |}.

(** [rItemStrings[0]], the invalid string; the code asserts that the vector
    is not empty before it reads it. *)
Definition invalid_string (g : Globals) : string :=
  nth 0 (rItemStrings g) EmptyString.

(** [ResourceItem::toString()].  The function is [const], yet for a time it
    writes the text into the buffer [m_str] points to: the result is the
    returned text and the item afterwards. *)
Definition toString (g : Globals) (it : ResourceItem) : string * ResourceItem :=
  match type (m_rid it) with
  | DataTypeString | DataTypeTimePattern =>
      match m_str it with
      | Some s => (s, it)
      | None => (invalid_string g, it)
      end
  | DataTypeTime =>
      match m_str it with
      | Some _ =>
          let s :=
            if ptr_eqb (suffix (m_rid it)) RStateLastUpdated then
              let dt := QDateTime_ctor in
              let dt := setOffsetFromUtc_0 dt in
              let dt := setMSecsSinceEpoch dt (m_num it) in
              QDateTime_toString dt
            else QDateTime_toString (fromMSecsSinceEpoch (m_num it)) in
          (s, with_m_str it (Some s))
      | None => (invalid_string g, it)
      end
  | _ => (invalid_string g, it)
  end.

Definition toNumber (it : ResourceItem) : Z := m_num it.

Definition toNumberPrevious (it : ResourceItem) : Z := m_numPrev it.

Definition toBool (it : ResourceItem) : bool := negb (m_num it =? 0).

(** [ResourceItem::setValue(const QString &val)]; [clock] is what the system
    clock shows when the call reads it. *)
Definition setValue_QString (clock : Z) (val : string) (it : ResourceItem)
  : bool * ResourceItem :=
  match m_str it with
  | Some s =>
      let it := with_m_lastSet it (currentDateTime clock) in
      if negb (String.eqb s val)
      then (true, with_m_lastChanged (with_m_str it (Some val)) (m_lastSet it))
      else (true, it)
  | None => (false, it)
  end.

(** The statements every numeric write ends with:
    [m_lastSet = now; m_numPrev = m_num;
     if (m_num != n) { m_num = n; m_lastChanged = m_lastSet; }]. *)
Definition store_number (now : QDateTime) (n : Z) (it : ResourceItem)
  : ResourceItem :=
  let it := with_m_lastSet it now in
  let it := with_m_numPrev it (m_num it) in
  if negb (m_num it =? n)
  then with_m_lastChanged (with_m_num it n) (m_lastSet it)
  else it.

(** [ResourceItem::setValue(qint64 val)]. *)
Definition setValue_qint64 (clock : Z) (val : Z) (it : ResourceItem)
  : bool * ResourceItem :=
  if (negb (validMin (m_rid it) =? 0) || negb (validMax (m_rid it) =? 0)) &&
     ((val <? validMin (m_rid it)) || (val >? validMax (m_rid it)))
  then (false, it)
  else (true, store_number (currentDateTime clock) val it).

(** [ResourceItem::setValue(const QVariant &val)]. *)
Definition setValue_QVariant (clock : Z) (val : QVariant) (it : ResourceItem)
  : bool * ResourceItem :=
  if negb (QVariant_isValid val) then
    let it := with_m_lastSet it QDateTime_ctor in
    (true, with_m_lastChanged it (m_lastSet it))
  else
    let now := currentDateTime clock in
    match type (m_rid it) with
    | DataTypeString | DataTypeTimePattern =>
        match m_str it with
        | Some s =>
            let it := with_m_lastSet it now in
            if negb (String.eqb s (QVariant_toString val))
            then (true, with_m_lastChanged
                          (with_m_str it (Some (QVariant_toString val)))
                          (m_lastSet it))
            else (true, it)
        | None => (false, it)
        end
    | DataTypeBool =>
        (true, store_number now (Z.b2z (QVariant_toBool val)) it)
    | DataTypeTime =>
        match QVariant_type val with
        | QVariant_String =>
            let dt := QDateTime_fromString (QVariant_toString val) in
            if dt_isValid dt
            then (true, store_number now (toMSecsSinceEpoch dt) it)
            else (false, it)
        | QVariant_DateTime =>
            (true, store_number now
                     (toMSecsSinceEpoch (QVariant_toDateTime val)) it)
        | _ => (false, it)
        end
    | _ =>
        let '(n, ok) := QVariant_toInt val in
        if ok then
          if (validMin (m_rid it) =? 0) && (validMax (m_rid it) =? 0)
          then (true, store_number now n it)
          else if (n >=? validMin (m_rid it)) && (n <=? validMax (m_rid it))
          then (true, store_number now n it)
          else (false, it)
        else (false, it)
    end.

Definition descriptor (it : ResourceItem) : ResourceItemDescriptor := m_rid it.

Definition lastSet (it : ResourceItem) : QDateTime := m_lastSet it.

Definition lastChanged (it : ResourceItem) : QDateTime := m_lastChanged it.

Definition setTimeStamps (t : QDateTime) (it : ResourceItem) : ResourceItem :=
  with_m_lastChanged (with_m_lastSet it t) t.

(** [ResourceItem::toVariant()]; like [toString], which it calls for a time,
    it returns the item afterwards as well. *)
Definition toVariant (g : Globals) (it : ResourceItem) : QVariant * ResourceItem :=
  if negb (dt_isValid (m_lastSet it)) then (QVariant_null, it)
  else
    match type (m_rid it) with
    | DataTypeString | DataTypeTimePattern =>
        match m_str it with
        | Some s => (QVariant_QString s, it)
        | None => (QVariant_QString EmptyString, it)
        end
    | DataTypeBool => (QVariant_bool (negb (m_num it =? 0)), it)
    | DataTypeTime =>
        let '(s, it) := toString g it in (QVariant_QString s, it)
    | _ => (QVariant_double (double_of_qint64 (m_num it)), it)
    end.

(** The conversion of an [int] of the vector to the [quint16] loop variable
    of [inRule]. *)
Definition to_quint16 (n : Z) : Z := n mod 65536.

(** The loop of [inRule]: [true] when it leaves the function through
    [return]. *)
Fixpoint inRule_loop (ruleHandle : Z) (l : list Z) : bool :=
  match l with
  | [] => false
  | x :: l' =>
      let handle := to_quint16 x in
      if handle =? ruleHandle then true else inRule_loop ruleHandle l'
  end.

(** [ResourceItem::inRule(int ruleHandle)]. *)
Definition inRule (ruleHandle : Z) (it : ResourceItem) : ResourceItem :=
  if inRule_loop ruleHandle (m_rulesInvolved it) then it
  else with_m_rulesInvolved it (m_rulesInvolved it ++ [ruleHandle]).

Definition rulesInvolved (it : ResourceItem) : list Z := m_rulesInvolved it.

Definition isPublic (it : ResourceItem) : bool := m_isPublic it.

Definition setIsPublic (b : bool) (it : ResourceItem) : ResourceItem :=
  with_m_isPublic it b.

(** [ResourceItem::operator=]: [self] tells whether [this == &other].  The
    result is [*this] and [other] afterwards ([toString] may write the
    buffer of [other]). *)
Definition ResourceItem_assign (g : Globals) (self : bool)
  (this other : ResourceItem) : ResourceItem * ResourceItem :=
  if self then (this, other)
  else
    let this :=
      {| m_num := m_num other;
         m_numPrev := m_numPrev other;
         m_rid := m_rid other;
         m_isPublic := m_isPublic other;
         m_lastSet := lastSet other;
         m_lastChanged := lastChanged other;
         m_rulesInvolved := rulesInvolved other;
         m_str := None |} in
    match m_str other with
    | Some _ =>
        let '(s, other) := toString g other in
        (with_m_str this (Some s), other)
    | None => (this, other)
    end.

(** The copy constructor, [*this = other] on a new object. *)
Definition ResourceItem_copy (g : Globals) (other : ResourceItem)
  : ResourceItem * ResourceItem :=
  ResourceItem_assign g false other other.

(** *** Resource *)

Definition Resource_ctor (prefix : CString) : Resource :=
  {| m_prefix := prefix; m_rItems := [] |}.

Definition prefix (r : Resource) : CString := m_prefix r.

(** The loop of [Resource::item]: the index of the first item from position
    [i] on whose suffix is the pointer [s]. *)
Fixpoint item_loop (s : CString) (items : list ResourceItem) (i : nat)
  : option nat :=
  match items with
  | [] => None
  | it :: items' =>
      if ptr_eqb (suffix (descriptor it)) s then Some i
      else item_loop s items' (S i)
  end.

(** [Resource::item(suffix)]: a pointer to an element of the vector, given
    by its index, or null. *)
Definition item (r : Resource) (s : CString) : option nat :=
  item_loop s (m_rItems r) 0.

(** The loop of [addItem] over the descriptors. *)
Fixpoint addItem_loop (i : list ResourceItemDescriptor) (t : ApiDataType)
  (s : CString) : option ResourceItemDescriptor :=
  match i with
  | [] => None
  | d :: i' =>
      if ptr_eqb (suffix d) s && ApiDataType_eqb (type d) t then Some d
      else addItem_loop i' t s
  end.

(** What a [std::vector<ResourceItem>] does when it copies its elements, in
    a copy of the vector or on the way to a larger block of memory: each
    element is made anew by the copy constructor. *)
Definition vector_copy (g : Globals) (l : list ResourceItem) : list ResourceItem :=
  map (fun it => fst (ResourceItem_copy g it)) l.

(** [Resource::Resource(const Resource &other)]: the new resource, and
    [other] afterwards (the copy of a time item prints into the buffer of
    the item it copies). *)
Definition Resource_copy (g : Globals) (other : Resource) : Resource * Resource :=
  ({| m_prefix := m_prefix other; m_rItems := vector_copy g (m_rItems other) |},
   {| m_prefix := m_prefix other;
      m_rItems := map (fun it => snd (ResourceItem_copy g it)) (m_rItems other) |}).

(** [Resource::addItem(type, suffix)].  [grows] tells whether
    [emplace_back] finds the vector full and moves the items to a larger
    block, which the implementation of [std::vector] decides. *)
Definition addItem (g : Globals) (grows : bool) (r : Resource)
  (t : ApiDataType) (s : CString) : AddItemResult :=
  match item r s with
  | Some it => {| added := Some it; after_addItem := r; debug_out := [] |}
  | None => (* prevent double insertion *)
      match addItem_loop (rItemDescriptors g) t s with
      | Some d =>
          let items :=
            if grows then vector_copy g (m_rItems r) else m_rItems r in
          {| added := Some (length (m_rItems r));
             after_addItem :=
               {| m_prefix := m_prefix r;
                  m_rItems := items ++ [ResourceItem_ctor d] |};
             debug_out := [] |}
      | None =>
          {| added := None; after_addItem := r;
             debug_out := [DBG_Assert_failed; DBG_Printf_ERROR_unknown t s] |}
      end
  end.

(** [v[i] = x] on a vector. *)
Fixpoint vector_set (l : list ResourceItem) (i : nat) (x : ResourceItem)
  : list ResourceItem :=
  match l, i with
  | [], _ => []
  | _ :: l', O => x :: l'
  | y :: l', S i' => y :: vector_set l' i' x
  end.

(** [v.back()], when there is a last element. *)
Definition vector_back (l : list ResourceItem) : option ResourceItem :=
  nth_error l (Nat.pred (length l)).

(** [Resource::removeItem(suffix)]: its loop stops at the first item with
    this suffix, the one the loop of [item] finds; that item is assigned the
    last item ([*i = m_rItems.back()], a self-assignment when it is the last
    one), then the last item is dropped ([pop_back]). *)
Definition removeItem (g : Globals) (r : Resource) (s : CString) : Resource :=
  match item r s with
  | None => r
  | Some i =>
      match nth_error (m_rItems r) i, vector_back (m_rItems r) with
      | Some this, Some back =>
          let self := Nat.eqb (S i) (length (m_rItems r)) in
          let '(this, back) := ResourceItem_assign g self this back in
          {| m_prefix := m_prefix r;
             m_rItems := removelast (vector_set (m_rItems r) i this) |}
      | _, _ => r
      end
  end.

Definition Resource_toBool (r : Resource) (s : CString) : bool :=
  match item r s with
  | Some i =>
      match nth_error (m_rItems r) i with
      | Some it => toBool it
      | None => false
      end
  | None => false
  end.

Definition Resource_toNumber (r : Resource) (s : CString) : Z :=
  match item r s with
  | Some i =>
      match nth_error (m_rItems r) i with
      | Some it => toNumber it
      | None => 0
      end
  | None => 0
  end.

(** [Resource::toString(suffix)]: the text and, because [toString] of an
    item may write its buffer, the resource afterwards. *)
Definition Resource_toString (g : Globals) (r : Resource) (s : CString)
  : string * Resource :=
  match item r s with
  | Some i =>
      match nth_error (m_rItems r) i with
      | Some it =>
          let '(str, it) := toString g it in
          (str, {| m_prefix := m_prefix r;
                   m_rItems := vector_set (m_rItems r) i it |})
      | None => (invalid_string g, r)
      end
  | None => (invalid_string g, r)
  end.

(** [Resource::itemCount()]. *)
Definition itemCount (r : Resource) : Z := Z.of_nat (length (m_rItems r)).

(** [Resource::itemForIndex(idx)]. *)
Definition itemForIndex (r : Resource) (idx : nat) : option nat :=
  if (idx <? length (m_rItems r))%nat then Some idx else None.

End Model.

(** ** Vocabulary of the properties *)

(** The catalog as [initResourceDescriptors] leaves it. *)
Definition catalog : Globals := initResourceDescriptors globals0.

(** What a write may change of the value an item stores: the number and the
    text. *)
Definition stored_value (it : ResourceItem) : Z * option string :=
  (m_num it, m_str it).

(** The timestamps after a write at [clock] that took an item from [it] to
    [it']: [lastSet] is the time of the call, [lastChanged] is the time of
    the call when the stored value differs and is left alone otherwise. *)
Definition timestamps_of_write (clock : Z) (it it' : ResourceItem) : Prop :=
  lastSet it' = currentDateTime clock /\
  (stored_value it' <> stored_value it ->
   lastChanged it' = currentDateTime clock) /\
  (stored_value it' = stored_value it -> lastChanged it' = lastChanged it).

(** An item has a text buffer exactly when its declared type asks for one;
    the constructor makes it so and the operations keep it. *)
Definition buffer_matches_type (it : ResourceItem) : Prop :=
  m_str it <> None <-> has_string_buffer (type (descriptor it)) = true.

(** Two items of the same descriptor that both have, or both lack, a
    buffer. *)
Definition same_shape (it it' : ResourceItem) : Prop :=
  descriptor it' = descriptor it /\ (m_str it' = None <-> m_str it = None).

(** The variant that shows the value of an item according to its declared
    type. *)
Definition typed_value {host : QtHost} (g : Globals) (it : ResourceItem)
  : QVariant :=
  match type (descriptor it) with
  | DataTypeString | DataTypeTimePattern =>
      QVariant_QString (match m_str it with Some s => s | None => EmptyString end)
  | DataTypeBool => QVariant_bool (toBool it)
  | DataTypeTime => QVariant_QString (fst (toString g it))
  | _ => QVariant_double (double_of_qint64 (toNumber it))
  end.

(** The text [toString] produces for a time item: its number as
    milliseconds since the epoch, printed in UTC for [state/lastupdated] and
    in local time otherwise. *)
Definition time_text {host : QtHost} (it : ResourceItem) : string :=
  format_yyyyMMddTHHmmss
    (if ptr_eqb (suffix (descriptor it)) RStateLastUpdated
     then toNumber it
     else toNumber it + 1000 * localOffset).

(** The type tag a variant has for each declared type. *)
Definition variant_type_of (t : ApiDataType) : QVariant_Type :=
  match t with
  | DataTypeString | DataTypeTimePattern | DataTypeTime => QVariant_String
  | DataTypeBool => QVariant_Bool
  | _ => QVariant_Double
  end.

(** A write through one of the three setters that the setter accepted. *)
Inductive accepted_write {host : QtHost} (clock : Z) (it it' : ResourceItem)
  : Prop :=
| accepted_setNumber (v : Z) :
    setValue_qint64 clock v it = (true, it') -> accepted_write clock it it'
| accepted_setString (s : string) :
    setValue_QString clock s it = (true, it') -> accepted_write clock it it'
| accepted_setVariant (v : QVariant) :
    QVariant_isValid v = true ->
    setValue_QVariant clock v it = (true, it') -> accepted_write clock it it'.

(** The suffix pointer of an item, and those of the items of a resource in
    the order of the vector. *)
Definition item_key (it : ResourceItem) : N := ptr (suffix (descriptor it)).

Definition suffixes (r : Resource) : list N := map item_key (m_rItems r).

(** At most one item per suffix. *)
Definition one_item_per_suffix (r : Resource) : Prop := NoDup (suffixes r).

(** [str] ends with [s]. *)
Definition ends_with (str s : string) : Prop :=
  exists p : string, str = (p ++ s)%string.

(** Sample values the properties are run on. *)
Definition battery_descriptor : ResourceItemDescriptor :=
  ResourceItemDescriptor_ctor DataTypeUInt8 RConfigBattery 0 100.

Definition on_descriptor : ResourceItemDescriptor :=
  ResourceItemDescriptor_ctor DataTypeBool RStateOn 0 0.

Definition lastupdated_descriptor : ResourceItemDescriptor :=
  ResourceItemDescriptor_ctor DataTypeTime RStateLastUpdated 0 0.

Definition localtime_descriptor : ResourceItemDescriptor :=
  ResourceItemDescriptor_ctor DataTypeTime RConfigLocalTime 0 0.

Definition name_descriptor : ResourceItemDescriptor :=
  ResourceItemDescriptor_ctor DataTypeString RAttrName 0 0.

Definition sample_sensor : Resource :=
  {| m_prefix := RSensors;
     m_rItems := [ResourceItem_ctor true name_descriptor;
                  ResourceItem_ctor true on_descriptor;
                  ResourceItem_ctor true battery_descriptor] |}.

(** ** Vocabulary of the further properties *)

(** The declared types by the branch of [setValue(QVariant)] that serves
    them: the text types, and the types that are written as numbers. *)
Definition is_text_type (t : ApiDataType) : bool :=
  match t with
  | DataTypeString | DataTypeTimePattern => true
  | _ => false
  end.

Definition is_number_type (t : ApiDataType) : bool :=
  match t with
  | DataTypeString | DataTypeTimePattern | DataTypeBool | DataTypeTime => false
  | _ => true
  end.

(** Two items that every reader tells apart in nothing: same descriptor,
    numbers, timestamps, rules and visibility, and the same text and variant
    from [toString] and [toVariant]. *)
Definition same_readings {host : QtHost} (g : Globals) (x x' : ResourceItem)
  : Prop :=
  descriptor x' = descriptor x /\
  toNumber x' = toNumber x /\
  toNumberPrevious x' = toNumberPrevious x /\
  toBool x' = toBool x /\
  lastSet x' = lastSet x /\
  lastChanged x' = lastChanged x /\
  rulesInvolved x' = rulesInvolved x /\
  isPublic x' = isPublic x /\
  fst (toString g x') = fst (toString g x) /\
  fst (toVariant g x') = fst (toVariant g x).

(** Every item of the resource carries a descriptor of the table. *)
Definition holds_catalog_items (g : Globals) (r : Resource) : Prop :=
  Forall (fun it => In (descriptor it) (rItemDescriptors g)) (m_rItems r).

(** Equality of descriptors, member by member. *)
Definition ResourceItemDescriptor_eqb (d d' : ResourceItemDescriptor) : bool :=
  ApiDataType_eqb (type d) (type d') &&
  N.eqb (ptr (suffix d)) (ptr (suffix d')) &&
  String.eqb (chars (suffix d)) (chars (suffix d')) &&
  Z.eqb (validMin d) (validMin d') &&
  Z.eqb (validMax d) (validMax d').

(** No suffix of the table is the tail of another one. *)
Definition suffix_free (l : list ResourceItemDescriptor) : Prop :=
  forall d d' : ResourceItemDescriptor,
    In d l -> In d' l ->
    ends_with (chars (suffix d)) (chars (suffix d')) -> d = d'.

Definition suffix_freeb (l : list ResourceItemDescriptor) : bool :=
  forallb
    (fun d =>
       forallb
         (fun d' =>
            negb (endsWith (chars (suffix d)) (chars (suffix d'))) ||
            ResourceItemDescriptor_eqb d d') l) l.

(** The local times that [yyyy-MM-ddTHH:mm:ss] prints with a year of four
    digits: from 0001-01-01T00:00:00 up to, not including,
    10000-01-01T00:00:00, in milliseconds since 1970-01-01T00:00:00. *)
Definition four_digit_years (local : Z) : Prop :=
  -62135596800000 <= local < 253402300800000.

(** A local time item that holds a time with a fraction of a second. *)
Definition sample_time_item : ResourceItem :=
  with_m_num (ResourceItem_ctor true localtime_descriptor) 1704067200123.

(** ** The devices REST API (rest_devices.cpp)

    [RestDevices] answers the requests below [/api/<apikey>/devices].  The
    request and response classes, the plugin it asks for the devices and
    the JSON parser are declared elsewhere; the model takes of them what
    [rest_devices.cpp] uses. *)

(** Variants as this layer builds and reads them: a variant that is no
    container (the model of [QVariant] above), a [QVariantList] or a
    [QVariantMap]. *)
#[warnings="-register-all"] Inductive RestVariant : Type :=
| Rest_value (v : QVariant)
| Rest_list (l : list RestVariant)
| Rest_map (m : list (string * RestVariant)).

Definition QVariantList : Type := list RestVariant.

(** A [QVariantMap], as the list of its keys and values; a key occurs at
    most once in a map that is built with [QMap_insert]. *)
Definition QVariantMap : Type := list (string * RestVariant).

Definition QMap_isEmpty (m : QVariantMap) : bool :=
  match m with [] => true | _ :: _ => false end.

Definition QMap_contains (m : QVariantMap) (key : string) : bool :=
  existsb (fun kv => String.eqb (fst kv) key) m.

(** [m[key]] read: the value, or a default-constructed variant. *)
Definition QMap_value (m : QVariantMap) (key : string) : RestVariant :=
  match find (fun kv => String.eqb (fst kv) key) m with
  | Some kv => snd kv
  | None => Rest_value QVariant_null
  end.

(** [m[key] = value]. *)
Definition QMap_insert (m : QVariantMap) (key : string) (value : RestVariant)
  : QVariantMap :=
  (key, value) :: filter (fun kv => negb (String.eqb (fst kv) key)) m.

(** [QVariant::type()]; 9 and 8 are the ids of [QVariant::List] and
    [QVariant::Map]. *)
Definition RestVariant_type (v : RestVariant) : QVariant_Type :=
  match v with
  | Rest_value v => QVariant_type v
  | Rest_list _ => QVariant_OtherType 9
  | Rest_map _ => QVariant_OtherType 8
  end.

(** [QChar::isSpace()] on the characters of Latin-1. *)
Definition isSpace (c : ascii) : bool :=
  let n := nat_of_ascii c in
  (n =? 32)%nat || ((9 <=? n)%nat && (n <=? 13)%nat) || (n =? 133)%nat ||
  (n =? 160)%nat.

Fixpoint trim_start (l : list ascii) : list ascii :=
  match l with
  | [] => []
  | c :: l' => if isSpace c then trim_start l' else l
  end.

(** [QString::trimmed()]: the text without the whitespace at its start and
    at its end. *)
Definition trimmed (s : string) : string :=
  string_of_list_ascii (rev (trim_start (rev (trim_start (list_ascii_of_string s))))).

Definition QString_isEmpty (s : string) : bool :=
  match s with EmptyString => true | String _ _ => false end.

(** [s.indexOf(sub)]: the position of the first occurrence, or -1. *)
Definition QString_indexOf (s sub : string) : Z :=
  match index 0 sub s with Some i => Z.of_nat i | None => -1 end.

(** What the handlers read of an [ApiRequest]: the elements of the path,
    the method of the header and the body. *)
Record ApiRequest : Type := {
  path : list string;
  hdr_method : string;
  content : string
}.

Inductive HttpStatus : Type :=
| HttpStatusOk
| HttpStatusBadRequest
| HttpStatus_other (code : N).

(** What the handlers write of an [ApiResponse]. *)
Record ApiResponse : Type := {
  rsp_list : QVariantList;
  rsp_map : QVariantMap;
  rsp_str : string;
  rsp_httpStatus : HttpStatus
}.

(** The two results of a handler that [rest_devices.cpp] uses. *)
Inductive ApiReturn : Type := REQ_READY_SEND | REQ_NOT_HANDLED.

(** The error ids that [rest_devices.cpp] passes to [errorToMap]. *)
Inductive ApiError : Type :=
| ERR_INVALID_JSON
| ERR_MISSING_PARAMETER
| ERR_INVALID_VALUE.

(** What [RestDevices] takes from the plugin and the JSON parser: the
    lights and sensors with the accessors that are called, the functions
    that turn a light, a sensor or an error into a map, [Json::parse] (the
    variant and [ok]), and the conversion to a map of a variant of another
    meta type. *)
Class DeRestPluginPrivate : Type := {
  LightNode : Type;
  Sensor : Type;
  nodes : list LightNode;
  sensors : list Sensor;
  LightNode_uniqueId : LightNode -> string;
  LightNode_manufacturer : LightNode -> string;
  LightNode_modelId : LightNode -> string;
  LightNode_swBuildId : LightNode -> string;
  Sensor_uniqueId : Sensor -> string;
  Sensor_manufacturer : Sensor -> string;
  Sensor_modelId : Sensor -> string;
  Sensor_swVersion : Sensor -> string;
  lightToMap : ApiRequest -> LightNode -> bool * QVariantMap;
  sensorToMap : Sensor -> ApiRequest -> bool * QVariantMap;
  errorToMap : ApiError -> string -> string -> QVariantMap;
  Json_parse : string -> RestVariant * bool;
  convert_toMap : N -> QVariantMap
}.

(** The local variables of [getDevice]. *)
Record DeviceScan : Type := {
  subDevices : QVariantList;
  modelid : string;
  swversion : string;
  manufacturer : string
}.

Section RestModel.

Context {host : QtHost} {plugin : DeRestPluginPrivate}.

(** [QVariant::toString()]: a list or a map has no text. *)
Definition RestVariant_toString (v : RestVariant) : string :=
  match v with
  | Rest_value v => QVariant_toString v
  | Rest_list _ | Rest_map _ => EmptyString
  end.

(** [QVariant::toMap()]: the map, or an empty map for a variant that is
    none. *)
Definition RestVariant_toMap (v : RestVariant) : QVariantMap :=
  match v with
  | Rest_map m => m
  | Rest_value (QVariant_other id) => convert_toMap id
  | _ => []
  end.

(** [RestDevices::getAllDevices]. *)
Definition getAllDevices (req : ApiRequest) (rsp : ApiResponse)
  : ApiReturn * ApiResponse :=
  (REQ_READY_SEND,
   match rsp_list rsp with
   | [] => {| rsp_list := rsp_list rsp; rsp_map := rsp_map rsp;
              rsp_str := "[]"; rsp_httpStatus := rsp_httpStatus rsp |}
   | _ :: _ => rsp
   end).

(** [if (x.isEmpty() && !y.isEmpty()) { x = y; }]. *)
Definition first_known (x y : string) : string :=
  if QString_isEmpty x && negb (QString_isEmpty y) then y else x.

(** The loop of [getDevice] over the lights. *)
Fixpoint getDevice_nodes (req : ApiRequest) (uniqueid : string)
  (l : list LightNode) (st : DeviceScan) : DeviceScan :=
  match l with
  | [] => st
  | n :: l' =>
      if negb (QString_indexOf (LightNode_uniqueId n) uniqueid =? 0)
      then getDevice_nodes req uniqueid l' st
      else
        let '(ok, m) := lightToMap req n in
        getDevice_nodes req uniqueid l'
          {| manufacturer := first_known (manufacturer st) (LightNode_manufacturer n);
             modelid := first_known (modelid st) (LightNode_modelId n);
             swversion := first_known (swversion st) (LightNode_swBuildId n);
             subDevices :=
               if ok then subDevices st ++ [Rest_map m] else subDevices st |}
  end.

(** The loop of [getDevice] over the sensors. *)
Fixpoint getDevice_sensors (req : ApiRequest) (uniqueid : string)
  (l : list Sensor) (st : DeviceScan) : DeviceScan :=
  match l with
  | [] => st
  | s :: l' =>
      if negb (QString_indexOf (Sensor_uniqueId s) uniqueid =? 0)
      then getDevice_sensors req uniqueid l' st
      else
        let '(ok, m) := sensorToMap s req in
        getDevice_sensors req uniqueid l'
          {| manufacturer := first_known (manufacturer st) (Sensor_manufacturer s);
             modelid := first_known (modelid st) (Sensor_modelId s);
             swversion := first_known (swversion st) (Sensor_swVersion s);
             subDevices :=
               if ok then subDevices st ++ [Rest_map m] else subDevices st |}
  end.

(** [rsp.map[key] = text], when the text is not empty. *)
Definition insert_known (m : QVariantMap) (key text : string) : QVariantMap :=
  if negb (QString_isEmpty text)
  then QMap_insert m key (Rest_value (QVariant_QString text))
  else m.

(** [RestDevices::getDevice].  [None] stands for the read of [req.path[3]]
    in a path that is too short, which the code excludes with an
    assertion. *)
Definition getDevice (req : ApiRequest) (rsp : ApiResponse)
  : option (ApiReturn * ApiResponse) :=
  match nth_error (path req) 3 with
  | None => None
  | Some uniqueid =>
      let st := {| subDevices := []; modelid := EmptyString;
                   swversion := EmptyString; manufacturer := EmptyString |} in
      let st := getDevice_nodes req uniqueid nodes st in
      let st := getDevice_sensors req uniqueid sensors st in
      let m := QMap_insert (rsp_map rsp) "uniqueid"
                 (Rest_value (QVariant_QString uniqueid)) in
      let m := QMap_insert m "sub" (Rest_list (subDevices st)) in
      let m := insert_known m "manufacturername" (manufacturer st) in
      let m := insert_known m "modelid" (modelid st) in
      let m := insert_known m "swversion" (swversion st) in
      Some (REQ_READY_SEND,
            {| rsp_list := rsp_list rsp; rsp_map := m;
               rsp_str := rsp_str rsp; rsp_httpStatus := rsp_httpStatus rsp |})
  end.

(** [rsp.list.append(entry); rsp.httpStatus = status;]. *)
Definition respond (rsp : ApiResponse) (entry : QVariantMap) (status : HttpStatus)
  : ApiResponse :=
  {| rsp_list := rsp_list rsp ++ [Rest_map entry]; rsp_map := rsp_map rsp;
     rsp_str := rsp_str rsp; rsp_httpStatus := status |}.

(** [RestDevices::putDeviceInstallCode]; [QString("a%1b").arg(x)] is the
    text [a], [x], [b]. *)
Definition putDeviceInstallCode (req : ApiRequest) (rsp : ApiResponse)
  : option (ApiReturn * ApiResponse) :=
  match nth_error (path req) 3 with
  | None => None
  | Some uniqueid =>
      let '(var, ok) := Json_parse (content req) in
      let map := RestVariant_toMap var in
      if negb ok || QMap_isEmpty map then
        Some (REQ_READY_SEND,
              respond rsp
                (errorToMap ERR_INVALID_JSON
                   ("/devices/" ++ uniqueid ++ "/installcode")
                   "body contains invalid JSON")
                HttpStatusBadRequest)
      else if QMap_contains map "installcode" then
        let installCode :=
          trimmed (RestVariant_toString (QMap_value map "installcode")) in
        match RestVariant_type (QMap_value map "installcode") with
        | QVariant_String =>
            if negb (QString_isEmpty installCode) then
              let rspItemState :=
                QMap_insert [] "installcode"
                  (Rest_value (QVariant_QString installCode)) in
              let rspItem := QMap_insert [] "success" (Rest_map rspItemState) in
              Some (REQ_READY_SEND, respond rsp rspItem HttpStatusOk)
            else
              Some (REQ_READY_SEND,
                    respond rsp
                      (errorToMap ERR_INVALID_VALUE "/groups"
                         ("invalid value, " ++ installCode ++
                          ", for parameter, installcode"))
                      HttpStatusBadRequest)
        | _ =>
            Some (REQ_READY_SEND,
                  respond rsp
                    (errorToMap ERR_INVALID_VALUE "/groups"
                       ("invalid value, " ++ installCode ++
                        ", for parameter, installcode"))
                    HttpStatusBadRequest)
        end
      else
        Some (REQ_READY_SEND,
              respond rsp
                (errorToMap ERR_MISSING_PARAMETER
                   ("/devices/" ++ uniqueid ++ "/installcode")
                   "missing parameters in body")
                HttpStatusBadRequest)
  end.

(** [RestDevices::handleApi].  [None] stands for the read of [req.path[2]]
    in a path of fewer than three elements. *)
Definition handleApi (req : ApiRequest) (rsp : ApiResponse)
  : option (ApiReturn * ApiResponse) :=
  match nth_error (path req) 2 with
  | None => None
  | Some p2 =>
      if negb (String.eqb p2 "devices") then Some (REQ_NOT_HANDLED, rsp)
      else if (length (path req) =? 3)%nat && String.eqb (hdr_method req) "GET"
      then Some (getAllDevices req rsp)
      else if (length (path req) =? 4)%nat && String.eqb (hdr_method req) "GET"
      then getDevice req rsp
      else if (length (path req) =? 5)%nat &&
              String.eqb (hdr_method req) "PUT" &&
              String.eqb (nth 4 (path req) EmptyString) "installcode"
      then putDeviceInstallCode req rsp
      else Some (REQ_NOT_HANDLED, rsp)
  end.

End RestModel.

(** *** Vocabulary of the properties of the devices API *)

Section RestVocabulary.

Context {host : QtHost} {plugin : DeRestPluginPrivate}.

(** The requests that [handleApi] answers. *)
Definition devices_route (req : ApiRequest) : Prop :=
  nth_error (path req) 2 = Some "devices"%string /\
  ((length (path req) = 3%nat /\ hdr_method req = "GET"%string) \/
   (length (path req) = 4%nat /\ hdr_method req = "GET"%string) \/
   (length (path req) = 5%nat /\ hdr_method req = "PUT"%string /\
    nth_error (path req) 4 = Some "installcode"%string)).

(** The maps of the lights whose unique id starts with [uniqueid], for
    those that [lightToMap] turns into a map. *)
Definition sub_of_nodes (req : ApiRequest) (uniqueid : string)
  (l : list LightNode) : QVariantList :=
  flat_map (fun n =>
      if String.prefix uniqueid (LightNode_uniqueId n) && fst (lightToMap req n)
      then [Rest_map (snd (lightToMap req n))] else []) l.

Definition sub_of_sensors (req : ApiRequest) (uniqueid : string)
  (l : list Sensor) : QVariantList :=
  flat_map (fun s =>
      if String.prefix uniqueid (Sensor_uniqueId s) && fst (sensorToMap s req)
      then [Rest_map (snd (sensorToMap s req))] else []) l.

(** The first text of a list that is not empty, or the empty text. *)
Fixpoint first_nonempty (l : list string) : string :=
  match l with
  | [] => EmptyString
  | s :: l' => if QString_isEmpty s then first_nonempty l' else s
  end.

(** What the lights and then the sensors of a device say of one of its
    attributes. *)
Definition device_texts (of_node : LightNode -> string)
  (of_sensor : Sensor -> string) (uniqueid : string) : list string :=
  map of_node (filter (fun n => String.prefix uniqueid (LightNode_uniqueId n)) nodes) ++
  map of_sensor (filter (fun s => String.prefix uniqueid (Sensor_uniqueId s)) sensors).

(** The body of the request holds an install code: it parses, and its key
    [installcode] holds a text that is more than whitespace. *)
Definition installcode_given (req : ApiRequest) : Prop :=
  snd (Json_parse (content req)) = true /\
  QMap_contains (RestVariant_toMap (fst (Json_parse (content req))))
    "installcode" = true /\
  exists code,
    QMap_value (RestVariant_toMap (fst (Json_parse (content req))))
      "installcode" = Rest_value (QVariant_QString code) /\
    trimmed code <> EmptyString.

End RestVocabulary.

(** A plugin with one light and one sensor of the same device; a light or
    a sensor is its unique id and its manufacturer.  Its parser reads a
    body as the install code itself. *)
Definition sample_plugin : DeRestPluginPrivate :=
  {| LightNode := string * string;
     Sensor := string * string;
     nodes := [("00:0b:57:01-01"%string, "IKEA"%string)];
     sensors := [("00:0b:57:01-02-0006"%string, EmptyString)];
     LightNode_uniqueId := fst;
     LightNode_manufacturer := snd;
     LightNode_modelId := fun _ => EmptyString;
     LightNode_swBuildId := fun _ => EmptyString;
     Sensor_uniqueId := fst;
     Sensor_manufacturer := snd;
     Sensor_modelId := fun _ => EmptyString;
     Sensor_swVersion := fun _ => "1.2"%string;
     lightToMap := fun _ n =>
       (true, [("uniqueid"%string, Rest_value (QVariant_QString (fst n)))]);
     sensorToMap := fun s _ =>
       (true, [("uniqueid"%string, Rest_value (QVariant_QString (fst s)))]);
     errorToMap := fun _ address description =>
       [("error"%string,
         Rest_map [("address"%string, Rest_value (QVariant_QString address));
                   ("description"%string,
                    Rest_value (QVariant_QString description))])];
     Json_parse := fun body =>
       (Rest_map [("installcode"%string, Rest_value (QVariant_QString body))],
        true);
     convert_toMap := fun _ => [] |}.

Definition sample_get_device : ApiRequest :=
  {| path := ["api"%string; "12345"%string; "devices"%string;
              "00:0b:57:01"%string];
     hdr_method := "GET"%string; content := EmptyString |}.

Definition sample_put_installcode : ApiRequest :=
  {| path := ["api"%string; "12345"%string; "devices"%string;
              "00:0b:57:01"%string; "installcode"%string];
     hdr_method := "PUT"%string; content := " 83FE D340 "%string |}.

Definition sample_response : ApiResponse :=
  {| rsp_list := []; rsp_map := []; rsp_str := EmptyString;
     rsp_httpStatus := HttpStatusOk |}.

(** ** Properties of ResourceItem *)

Section ItemProperties.

Context {host : QtHost}.
Variable m_isPublic_init : bool.

Lemma store_number_lastSet (now : QDateTime) (n : Z) (it : ResourceItem) :
  m_lastSet (store_number now n it) = now.
Proof. unfold store_number; simpl. now destruct (m_num it =? n). Qed.

Lemma store_number_num (now : QDateTime) (n : Z) (it : ResourceItem) :
  m_num (store_number now n it) = n.
Proof.
  unfold store_number; simpl.
  destruct (m_num it =? n) eqn:E; simpl; [now apply Z.eqb_eq in E | reflexivity].
Qed.

Lemma store_number_numPrev (now : QDateTime) (n : Z) (it : ResourceItem) :
  m_numPrev (store_number now n it) = m_num it.
Proof. unfold store_number; simpl. now destruct (m_num it =? n). Qed.

Lemma store_number_lastChanged (now : QDateTime) (n : Z) (it : ResourceItem) :
  m_lastChanged (store_number now n it) =
  if m_num it =? n then m_lastChanged it else now.
Proof. unfold store_number; simpl. now destruct (m_num it =? n). Qed.

Lemma store_number_frame (now : QDateTime) (n : Z) (it : ResourceItem) :
  m_str (store_number now n it) = m_str it /\
  m_rid (store_number now n it) = m_rid it /\
  m_isPublic (store_number now n it) = m_isPublic it /\
  m_rulesInvolved (store_number now n it) = m_rulesInvolved it.
Proof. unfold store_number; simpl. now destruct (m_num it =? n). Qed.

Lemma store_number_timestamps (clock n : Z) (it : ResourceItem) :
  timestamps_of_write clock it (store_number (currentDateTime clock) n it).
Proof.
  unfold timestamps_of_write, stored_value, lastSet, lastChanged.
  rewrite store_number_lastSet, store_number_lastChanged, store_number_num.
  destruct (store_number_frame (currentDateTime clock) n it) as [Hs _].
  rewrite Hs. destruct (m_num it =? n) eqn:E.
  - apply Z.eqb_eq in E. subst n. repeat split; intros; congruence.
  - apply Z.eqb_neq in E. repeat split; intros; congruence.
Qed.

Lemma setValue_qint64_accepted (clock v : Z) (it it' : ResourceItem) :
  setValue_qint64 clock v it = (true, it') ->
  it' = store_number (currentDateTime clock) v it.
Proof.
  unfold setValue_qint64. destruct (_ && _); intros H; inversion H; reflexivity.
Qed.

Lemma setValue_QString_timestamps (clock : Z) (s : string) (it it' : ResourceItem) :
  setValue_QString clock s it = (true, it') -> timestamps_of_write clock it it'.
Proof.
  unfold setValue_QString, timestamps_of_write, stored_value, lastSet, lastChanged.
  destruct (m_str it) as [old|] eqn:Hstr; [|discriminate].
  destruct (String.eqb old s) eqn:E; simpl; intros H; inversion H; subst it'; simpl;
    rewrite ?Hstr.
  - repeat split; intros; congruence.
  - apply String.eqb_neq in E. repeat split; intros; congruence.
Qed.

Lemma setValue_QVariant_timestamps (clock : Z) (v : QVariant) (it it' : ResourceItem) :
  QVariant_isValid v = true ->
  setValue_QVariant clock v it = (true, it') -> timestamps_of_write clock it it'.
Proof.
  intros Hv. unfold setValue_QVariant. rewrite Hv. cbn [negb].
  destruct (type (m_rid it)).
  all: try match goal with
    | |- context [QVariant_toInt ?x] =>
        destruct (QVariant_toInt x) as [n [|]];
        [destruct (_ && _); [|destruct (_ && _)]|]
    end.
  all: try match goal with
    | |- context [QVariant_type ?x] =>
        destruct (QVariant_type x); try discriminate;
        try destruct (dt_isValid _)
    end.
  all: try discriminate.
  all: try (intros H; inversion H; apply store_number_timestamps).
  all: unfold timestamps_of_write, stored_value, lastSet, lastChanged;
    destruct (m_str it) as [old|] eqn:Hstr; [|discriminate];
    destruct (String.eqb old (QVariant_toString v)) eqn:E; simpl;
    intros H; inversion H; subst it'; simpl; rewrite ?Hstr;
    [|apply String.eqb_neq in E]; repeat split; intros; congruence.
Qed.

Lemma accepted_write_timestamps (clock : Z) (it it' : ResourceItem) :
  accepted_write clock it it' -> timestamps_of_write clock it it'.
Proof.
  intros [v H|s H|v Hv H].
  - apply setValue_qint64_accepted in H. subst it'. apply store_number_timestamps.
  - now apply setValue_QString_timestamps in H.
  - now apply setValue_QVariant_timestamps in H.
Qed.

Lemma setValue_qint64_rejects_iff (clock v : Z) (it : ResourceItem) :
  fst (setValue_qint64 clock v it) = false <->
  (validMin (descriptor it) <> 0 \/ validMax (descriptor it) <> 0) /\
  (v < validMin (descriptor it) \/ v > validMax (descriptor it)).
Proof.
  unfold setValue_qint64, descriptor.
  destruct (Z.eqb_spec (validMin (m_rid it)) 0);
  destruct (Z.eqb_spec (validMax (m_rid it)) 0);
  destruct (Z.ltb_spec v (validMin (m_rid it)));
  destruct (Z.gtb_spec v (validMax (m_rid it)));
  cbn [negb orb andb fst]; intuition (try lia; try discriminate).
Qed.

Lemma setValue_qint64_rejected (clock v : Z) (it : ResourceItem) :
  fst (setValue_qint64 clock v it) = false -> snd (setValue_qint64 clock v it) = it.
Proof.
  unfold setValue_qint64. destruct (_ && _); [reflexivity|discriminate].
Qed.

(** C1.  Without a range (both bounds zero) [setValue(qint64)] accepts every
    value.  With a range it fails exactly on the values below [validMin] or
    above [validMax], and a failed call leaves the whole item as it was. *)
Theorem setNumber_range_check (clock v : Z) (it : ResourceItem) :
  (validMin (descriptor it) = 0 -> validMax (descriptor it) = 0 ->
   fst (setValue_qint64 clock v it) = true) /\
  (validMin (descriptor it) <> 0 \/ validMax (descriptor it) <> 0 ->
   (fst (setValue_qint64 clock v it) = false <->
    v < validMin (descriptor it) \/ v > validMax (descriptor it))) /\
  (fst (setValue_qint64 clock v it) = false ->
   snd (setValue_qint64 clock v it) = it /\
   toNumber (snd (setValue_qint64 clock v it)) = toNumber it /\
   toNumberPrevious (snd (setValue_qint64 clock v it)) = toNumberPrevious it /\
   lastSet (snd (setValue_qint64 clock v it)) = lastSet it /\
   lastChanged (snd (setValue_qint64 clock v it)) = lastChanged it).
Proof.
  split; [|split].
  - intros Hmin Hmax.
    destruct (fst (setValue_qint64 clock v it)) eqn:E; [reflexivity|].
    apply setValue_qint64_rejects_iff in E. destruct E as [[H|H] _]; contradiction.
  - intros Hrange. rewrite setValue_qint64_rejects_iff. tauto.
  - intros E. rewrite (setValue_qint64_rejected clock v it E). repeat split.
Qed.

(** C2, as amended.  After an accepted write through [setValue(qint64)],
    [setValue(QString)] or [setValue(QVariant)] of a valid variant,
    [lastSet] is the time of the call, and [lastChanged] is the time of the
    call when the stored value differs from the one before and is left alone
    otherwise.  A second [setValue(x)] of the same number is accepted too,
    sets [lastSet] again and leaves [lastChanged] as the first call left
    it. *)
Theorem accepted_write_updates_timestamps (clock : Z) (it it' : ResourceItem) :
  accepted_write clock it it' ->
  timestamps_of_write clock it it' /\
  (forall x clock2 : Z,
     setValue_qint64 clock x it = (true, it') ->
     exists it'' : ResourceItem,
       setValue_qint64 clock2 x it' = (true, it'') /\
       lastSet it' = currentDateTime clock /\
       lastSet it'' = currentDateTime clock2 /\
       lastChanged it'' = lastChanged it' /\
       (toNumber it <> x -> lastChanged it' = currentDateTime clock) /\
       (toNumber it = x -> lastChanged it' = lastChanged it)).
Proof.
  intros Hw. split; [now apply accepted_write_timestamps|].
  intros x clock2 H1.
  pose proof (setValue_qint64_accepted _ _ _ _ H1) as E1.
  exists (store_number (currentDateTime clock2) x it').
  assert (Hrid : m_rid it' = m_rid it)
    by (subst it'; apply (store_number_frame (currentDateTime clock) x it)).
  assert (Hnum : m_num it' = x) by (subst it'; apply store_number_num).
  split.
  - revert H1. unfold setValue_qint64. rewrite Hrid.
    destruct (_ && _); [discriminate|reflexivity].
  - unfold lastSet, lastChanged, toNumber.
    rewrite store_number_lastSet, store_number_lastChanged, Hnum, Z.eqb_refl.
    subst it'. rewrite store_number_lastSet, store_number_lastChanged.
    repeat split.
    + intros Hne. apply Z.eqb_neq in Hne. now rewrite Hne.
    + intros He. apply Z.eqb_eq in He. now rewrite He.
Qed.

Lemma toVariant_of_valid (g : Globals) (it : ResourceItem) :
  dt_isValid (lastSet it) = true -> fst (toVariant g it) = typed_value g it.
Proof.
  unfold toVariant, typed_value, lastSet, descriptor. intros ->. cbn [negb].
  destruct (type (m_rid it)); try reflexivity;
    try (destruct (m_str it); reflexivity).
  now destruct (toString g it).
Qed.

Lemma typed_value_type (g : Globals) (it : ResourceItem) :
  QVariant_type (typed_value g it) = variant_type_of (type (descriptor it)).
Proof. unfold typed_value. now destruct (type (descriptor it)). Qed.

Lemma typed_value_not_null (g : Globals) (it : ResourceItem) :
  typed_value g it <> QVariant_null.
Proof. unfold typed_value. destruct (type (descriptor it)); discriminate. Qed.

Lemma setValue_QVariant_invalid (clock : Z) (v : QVariant) (it : ResourceItem) :
  QVariant_isValid v = false ->
  setValue_QVariant clock v it =
  (true, with_m_lastChanged (with_m_lastSet it QDateTime_ctor) QDateTime_ctor).
Proof. intros Hv. unfold setValue_QVariant. now rewrite Hv. Qed.

(** C8, as amended.  [toVariant] returns the empty variant exactly when
    [lastSet] is not valid; it is empty on a new item; after a successful
    write of a number, a text or a valid variant it is the value in the form
    of the declared type (a text for String, TimePattern and Time, a
    boolean for Bool, a double for the other types); and a write of the empty
    variant is reported as a success, clears both timestamps and so makes
    [toVariant] empty again. *)
Theorem toVariant_empty_iff_never_set (g : Globals) (clock : Z) (it : ResourceItem) :
  (fst (toVariant g it) = QVariant_null <-> dt_isValid (lastSet it) = false) /\
  (forall rid : ResourceItemDescriptor,
     fst (toVariant g (ResourceItem_ctor m_isPublic_init rid)) = QVariant_null) /\
  (forall it' : ResourceItem,
     accepted_write clock it it' ->
     fst (toVariant g it') = typed_value g it' /\
     QVariant_type (fst (toVariant g it')) =
       variant_type_of (type (descriptor it'))) /\
  (forall v : QVariant,
     QVariant_isValid v = false ->
     fst (setValue_QVariant clock v it) = true /\
     lastSet (snd (setValue_QVariant clock v it)) = QDateTime_ctor /\
     lastChanged (snd (setValue_QVariant clock v it)) = QDateTime_ctor /\
     fst (toVariant g (snd (setValue_QVariant clock v it))) = QVariant_null).
Proof.
  split; [|split; [|split]].
  - destruct (dt_isValid (lastSet it)) eqn:E.
    + rewrite (toVariant_of_valid g it E). split; [|discriminate].
      intros H. now apply typed_value_not_null in H.
    + unfold toVariant. unfold lastSet in E. rewrite E. now split.
  - reflexivity.
  - intros it' Hw.
    assert (E : dt_isValid (lastSet it') = true).
    { apply accepted_write_timestamps in Hw. destruct Hw as [-> _]. reflexivity. }
    rewrite (toVariant_of_valid g it' E). split; [reflexivity|apply typed_value_type].
  - intros v Hv. rewrite (setValue_QVariant_invalid clock v it Hv).
    repeat split.
Qed.

(** C10.  A write of a variant that is not valid touches the two timestamps
    and nothing else: the number, the previous number, the text buffer and
    every other member are as before, and so are the results of [toNumber],
    [toNumberPrevious], [toBool] and [toString]. *)
Theorem setVariant_invalid_clears_only_timestamps
  (g : Globals) (clock : Z) (v : QVariant) (it : ResourceItem) :
  QVariant_isValid v = false ->
  fst (setValue_QVariant clock v it) = true /\
  snd (setValue_QVariant clock v it) =
    with_m_lastChanged (with_m_lastSet it QDateTime_ctor) QDateTime_ctor /\
  m_num (snd (setValue_QVariant clock v it)) = m_num it /\
  m_numPrev (snd (setValue_QVariant clock v it)) = m_numPrev it /\
  m_str (snd (setValue_QVariant clock v it)) = m_str it /\
  m_rid (snd (setValue_QVariant clock v it)) = m_rid it /\
  m_isPublic (snd (setValue_QVariant clock v it)) = m_isPublic it /\
  m_rulesInvolved (snd (setValue_QVariant clock v it)) = m_rulesInvolved it /\
  toNumber (snd (setValue_QVariant clock v it)) = toNumber it /\
  toNumberPrevious (snd (setValue_QVariant clock v it)) = toNumberPrevious it /\
  toBool (snd (setValue_QVariant clock v it)) = toBool it /\
  fst (toString g (snd (setValue_QVariant clock v it))) = fst (toString g it).
Proof.
  intros Hv. rewrite (setValue_QVariant_invalid clock v it Hv).
  cbn [fst snd]. repeat split.
  unfold toString; simpl. destruct (type (m_rid it)); try reflexivity;
    destruct (m_str it); reflexivity.
Qed.

(** *** Rule handles *)

Lemma inRule_loop_in_range (r : Z) (l : list Z) :
  Forall (fun x => 0 <= x < 65536) l ->
  inRule_loop r l = true <-> In r l.
Proof.
  induction 1 as [|x l Hx Hl IH]; simpl.
  - split; [discriminate|tauto].
  - unfold to_quint16. rewrite (Z.mod_small x 65536 Hx).
    destruct (Z.eqb_spec x r) as [->|Hne].
    + split; auto.
    + rewrite IH. split; [auto|intros [?|?]; [contradiction|assumption]].
Qed.

(** For handles that fit the 16 bit loop variable [inRule] does not add a
    handle twice. *)
Lemma inRule_idempotent_quint16 (r : Z) (it : ResourceItem) :
  0 <= r < 65536 ->
  Forall (fun x => 0 <= x < 65536) (rulesInvolved it) ->
  In r (rulesInvolved (inRule r it)) /\
  inRule r (inRule r it) = inRule r it /\
  (NoDup (rulesInvolved it) -> NoDup (rulesInvolved (inRule r it))).
Proof.
  intros Hr Hl. unfold rulesInvolved in *.
  assert (Hin : In r (m_rulesInvolved (inRule r it))).
  { unfold inRule. destruct (inRule_loop r (m_rulesInvolved it)) eqn:E.
    - now apply (inRule_loop_in_range r _ Hl).
    - simpl. apply in_or_app. right. now left. }
  assert (Hl' : Forall (fun x => 0 <= x < 65536) (m_rulesInvolved (inRule r it))).
  { unfold inRule. destruct (inRule_loop r (m_rulesInvolved it)); [assumption|].
    simpl. apply Forall_app. split; [assumption|]. now constructor. }
  split; [assumption|]. split.
  - unfold inRule at 1.
    apply (inRule_loop_in_range r _ Hl') in Hin. now rewrite Hin.
  - intros Hnd. unfold inRule.
    destruct (inRule_loop r (m_rulesInvolved it)) eqn:E; [assumption|].
    simpl. apply NoDup_app; [assumption|constructor; [auto|constructor]|].
    intros x Hx [<-|[]].
    apply (inRule_loop_in_range r _ Hl) in Hx. congruence.
Qed.

(** C5.  The loop of [inRule] reads each stored handle into a [quint16]:
    a handle that does not fit 16 bits is never found again, and marking
    handle 70000 twice on a new item stores it twice; handle 5 is stored
    once. *)
Theorem inRule_twice_70000 :
  rulesInvolved (inRule 70000 (inRule 70000 (ResourceItem_ctor true on_descriptor)))
    = [70000; 70000] /\
  rulesInvolved (inRule 5 (inRule 5 (ResourceItem_ctor true on_descriptor))) = [5].
Proof. split; reflexivity. Qed.

Lemma toString_descriptor (g : Globals) (it : ResourceItem) :
  descriptor (snd (toString g it)) = descriptor it.
Proof.
  unfold toString. destruct (type (m_rid it)); try reflexivity;
    destruct (m_str it); reflexivity.
Qed.

Lemma ResourceItem_assign_descriptor (g : Globals) (this other : ResourceItem) :
  descriptor (fst (ResourceItem_assign g false this other)) = descriptor other.
Proof.
  unfold ResourceItem_assign. destruct (m_str other); [|reflexivity].
  now destruct (toString g other).
Qed.

Lemma ResourceItem_assign_other_descriptor (g : Globals) (this other : ResourceItem) :
  descriptor (snd (ResourceItem_assign g false this other)) = descriptor other.
Proof.
  unfold ResourceItem_assign. destruct (m_str other); [|reflexivity].
  pose proof (toString_descriptor g other) as H.
  now destruct (toString g other).
Qed.

(** What [operator=] copies as it is: every member but the text buffer. *)
Lemma ResourceItem_assign_members (g : Globals) (this other : ResourceItem) :
  let x := fst (ResourceItem_assign g false this other) in
  descriptor x = descriptor other /\
  toNumber x = toNumber other /\
  toNumberPrevious x = toNumberPrevious other /\
  lastSet x = lastSet other /\
  lastChanged x = lastChanged other /\
  rulesInvolved x = rulesInvolved other /\
  isPublic x = isPublic other /\
  (m_str x = None <-> m_str other = None).
Proof.
  unfold ResourceItem_assign. destruct (m_str other).
  - destruct (toString g other). simpl. repeat split; discriminate.
  - simpl. repeat split; reflexivity.
Qed.



(** *** The text buffer *)

Lemma ResourceItem_ctor_buffer (rid : ResourceItemDescriptor) :
  buffer_matches_type (ResourceItem_ctor m_isPublic_init rid).
Proof.
  unfold buffer_matches_type, ResourceItem_ctor, descriptor. simpl.
  destruct (has_string_buffer (type rid)); split; congruence.
Qed.

Lemma same_shape_buffer (it it' : ResourceItem) :
  same_shape it it' -> buffer_matches_type it -> buffer_matches_type it'.
Proof.
  unfold same_shape, buffer_matches_type. intros [-> Hs] Hb.
  rewrite <- Hb. split; intros H1 H2; apply H1; now apply Hs.
Qed.

Lemma same_shape_refl (it : ResourceItem) : same_shape it it.
Proof. unfold same_shape. tauto. Qed.

Lemma store_number_shape (now : QDateTime) (n : Z) (it : ResourceItem) :
  same_shape it (store_number now n it).
Proof.
  unfold same_shape, descriptor.
  destruct (store_number_frame now n it) as (-> & -> & _). tauto.
Qed.

Lemma toString_shape (g : Globals) (it : ResourceItem) :
  same_shape it (snd (toString g it)).
Proof.
  unfold toString. destruct (type (m_rid it)); try apply same_shape_refl;
    destruct (m_str it) eqn:E; try apply same_shape_refl.
  unfold same_shape; simpl. rewrite E.
  split; [reflexivity|split; discriminate].
Qed.

Local Ltac shape_of_write E :=
  first [ apply same_shape_refl
        | apply store_number_shape
        | unfold same_shape; simpl; rewrite ?E;
          split; [reflexivity|split; discriminate]
        | unfold same_shape; simpl; tauto ].

Lemma setValue_QVariant_shape (clock : Z) (v : QVariant) (it : ResourceItem) :
  same_shape it (snd (setValue_QVariant clock v it)).
Proof.
  unfold setValue_QVariant.
  destruct (negb (QVariant_isValid v)); [unfold same_shape; simpl; tauto|].
  destruct (m_str it) eqn:E; destruct (type (m_rid it));
    try destruct (negb (String.eqb _ _));
    try destruct (QVariant_toInt v) as [n [|]];
    try destruct (_ && _); try destruct (_ && _);
    try destruct (QVariant_type v); try destruct (dt_isValid _);
    cbn [snd]; shape_of_write E.
Qed.

(** The operations on an item keep its descriptor and keep the buffer where
    there is one. *)
Lemma item_operations_keep_shape (g : Globals) (clock : Z) (it : ResourceItem) :
  (forall v : Z, same_shape it (snd (setValue_qint64 clock v it))) /\
  (forall s : string, same_shape it (snd (setValue_QString clock s it))) /\
  (forall v : QVariant, same_shape it (snd (setValue_QVariant clock v it))) /\
  same_shape it (snd (toString g it)) /\
  same_shape it (snd (toVariant g it)) /\
  (forall t : QDateTime, same_shape it (setTimeStamps t it)) /\
  (forall r : Z, same_shape it (inRule r it)) /\
  (forall b : bool, same_shape it (setIsPublic b it)) /\
  (forall this : ResourceItem,
     same_shape it (fst (ResourceItem_assign g false this it))) /\
  same_shape it (fst (ResourceItem_copy g it)).
Proof.
  assert (Has : forall this, same_shape it (fst (ResourceItem_assign g false this it))).
  { intros this. unfold same_shape.
    destruct (ResourceItem_assign_members g this it)
      as (-> & _ & _ & _ & _ & _ & _ & H).
    tauto. }
  split; [|split; [|split; [|split; [|split; [|split; [|split; [|split; [|split]]]]]]]].
  - intros v. unfold setValue_qint64. destruct (_ && _); shape_of_write I.
  - intros s. unfold setValue_QString. destruct (m_str it) eqn:E;
      try destruct (negb _); cbn [snd]; shape_of_write E.
  - intros v. apply setValue_QVariant_shape.
  - apply toString_shape.
  - unfold toVariant. destruct (negb _); [apply same_shape_refl|].
    pose proof (toString_shape g it) as Hts.
    destruct (type (m_rid it)); try apply same_shape_refl;
      try (destruct (m_str it); apply same_shape_refl).
    now destruct (toString g it).
  - intros t. unfold same_shape. simpl. tauto.
  - intros r. unfold inRule. destruct (inRule_loop _ _); shape_of_write I.
  - intros b. unfold same_shape. simpl. tauto.
  - exact Has.
  - apply Has.
Qed.

End ItemProperties.

(** ** Properties of the catalog *)

Section CatalogProperties.

Local Open Scope nat_scope.

Lemma length_append (p s : string) :
  String.length (p ++ s) = String.length p + String.length s.
Proof. induction p as [|c p IH]; simpl; [reflexivity|now rewrite IH]. Qed.

Lemma substring_whole (s : string) : substring 0 (String.length s) s = s.
Proof. induction s as [|c s IH]; simpl; [reflexivity|now rewrite IH]. Qed.

Lemma substring_append_tail (p s : string) :
  substring (String.length p) (String.length s) (p ++ s) = s.
Proof. induction p as [|c p IH]; simpl; [apply substring_whole|exact IH]. Qed.

Lemma substring_split (m : nat) (str : string) :
  m <= String.length str ->
  str = (substring 0 m str ++ substring m (String.length str - m) str)%string.
Proof.
  revert str. induction m as [|m IH]; intros str Hm.
  - rewrite Nat.sub_0_r, substring_whole. now destruct str.
  - destruct str as [|c str]; simpl in Hm; [lia|].
    simpl. f_equal. apply IH. lia.
Qed.

Lemma endsWith_spec (str s : string) : endsWith str s = true <-> ends_with str s.
Proof.
  unfold endsWith, ends_with. split.
  - destruct (Nat.leb_spec (String.length s) (String.length str)) as [Hle|];
      [|discriminate].
    intros H. apply String.eqb_eq in H.
    exists (substring 0 (String.length str - String.length s) str).
    assert (Hs := substring_split (String.length str - String.length s) str).
    replace (String.length str - (String.length str - String.length s))
      with (String.length s) in Hs by lia.
    rewrite H in Hs. apply Hs. lia.
  - intros [p ->]. rewrite length_append.
    replace (String.length s <=? String.length p + String.length s) with true
      by (symmetry; apply Nat.leb_le; lia).
    replace (String.length p + String.length s - String.length s)
      with (String.length p) by lia.
    rewrite substring_append_tail. apply String.eqb_refl.
Qed.

Lemma endsWith_false (str s : string) : endsWith str s = false <-> ~ ends_with str s.
Proof.
  rewrite <- endsWith_spec. destruct (endsWith str s); split; congruence.
Qed.

Lemma getResourceItemDescriptor_loop_Some (l : list ResourceItemDescriptor)
  (str : string) (d : ResourceItemDescriptor) :
  getResourceItemDescriptor_loop l str = Some d <->
  exists pre post : list ResourceItemDescriptor,
    l = pre ++ d :: post /\
    ends_with str (chars (suffix d)) /\
    Forall (fun d' => ~ ends_with str (chars (suffix d'))) pre.
Proof.
  induction l as [|x l IH]; simpl.
  - split; [discriminate|]. intros (pre & post & H & _). now destruct pre.
  - destruct (endsWith str (chars (suffix x))) eqn:E.
    + split.
      * intros H. inversion H; subst x. exists [], l.
        repeat split; [now apply endsWith_spec|constructor].
      * intros (pre & post & Hl & Hd & Hpre). destruct pre as [|y pre].
        -- simpl in Hl. now inversion Hl.
        -- simpl in Hl. inversion Hl; subst y. inversion Hpre; subst.
           apply endsWith_spec in E. contradiction.
    + rewrite IH. split.
      * intros (pre & post & -> & Hd & Hpre). exists (x :: pre), post.
        repeat split; [assumption|]. constructor; [now apply endsWith_false|assumption].
      * intros (pre & post & Hl & Hd & Hpre). destruct pre as [|y pre].
        -- simpl in Hl. inversion Hl; subst x.
           apply endsWith_spec in Hd. congruence.
        -- simpl in Hl. inversion Hl; subst. inversion Hpre; subst.
           exists pre, post. now repeat split.
Qed.

Lemma getResourceItemDescriptor_loop_None (l : list ResourceItemDescriptor)
  (str : string) :
  getResourceItemDescriptor_loop l str = None <->
  Forall (fun d' => ~ ends_with str (chars (suffix d'))) l.
Proof.
  induction l as [|x l IH]; simpl.
  - split; [constructor|reflexivity].
  - destruct (endsWith str (chars (suffix x))) eqn:E.
    + split; [discriminate|]. intros H. inversion H; subst.
      apply endsWith_spec in E. contradiction.
    + rewrite IH. split.
      * intros H. constructor; [now apply endsWith_false|assumption].
      * intros H. now inversion H.
Qed.

(** The suffixes of the catalog are pairwise different, as addresses and as
    texts: on the catalog the comparison of addresses and the comparison of
    texts agree. *)
Lemma catalog_suffixes_distinct :
  NoDup (map (fun d => ptr (suffix d)) (rItemDescriptors catalog)) /\
  NoDup (map (fun d => chars (suffix d)) (rItemDescriptors catalog)).
Proof.
  split.
  - replace (map (fun d => ptr (suffix d)) (rItemDescriptors catalog))
      with (nodup N.eq_dec (map (fun d => ptr (suffix d)) (rItemDescriptors catalog)))
      by (vm_compute; reflexivity).
    apply NoDup_nodup.
  - replace (map (fun d => chars (suffix d)) (rItemDescriptors catalog))
      with (nodup string_dec
              (map (fun d => chars (suffix d)) (rItemDescriptors catalog)))
      by (vm_compute; reflexivity).
    apply NoDup_nodup.
Qed.

(** C3.  [getResourceItemDescriptor] returns the first descriptor, in the
    order of registration, whose suffix the key ends with, and fails exactly
    when the key ends with no registered suffix.  In the catalog the key
    [/sensors/1/state/battery] matches nothing, and it does not end with
    [config/battery]; the keys [config/battery] and [xyz/config/battery] both
    yield the descriptor of [config/battery]. *)
Theorem getResourceItemDescriptor_first_suffix_match (g : Globals) (str : string) :
  (forall d : ResourceItemDescriptor,
     getResourceItemDescriptor g str = Some d <->
     exists pre post : list ResourceItemDescriptor,
       rItemDescriptors g = pre ++ d :: post /\
       ends_with str (chars (suffix d)) /\
       Forall (fun d' => ~ ends_with str (chars (suffix d'))) pre) /\
  (getResourceItemDescriptor g str = None <->
   Forall (fun d' => ~ ends_with str (chars (suffix d'))) (rItemDescriptors g)) /\
  In battery_descriptor (rItemDescriptors catalog) /\
  getResourceItemDescriptor catalog "/sensors/1/state/battery" = None /\
  ~ ends_with "/sensors/1/state/battery" (chars RConfigBattery) /\
  getResourceItemDescriptor catalog "config/battery" = Some battery_descriptor /\
  getResourceItemDescriptor catalog "xyz/config/battery" = Some battery_descriptor.
Proof.
  split; [|split; [|split; [|split; [|split; [|split]]]]].
  - intros d. apply getResourceItemDescriptor_loop_Some.
  - apply getResourceItemDescriptor_loop_None.
  - unfold catalog, initResourceDescriptors, rItemDescriptors.
    repeat first [left; reflexivity | right].
  - reflexivity.
  - apply endsWith_false. reflexivity.
  - reflexivity.
  - reflexivity.
Qed.

End CatalogProperties.

(** ** Properties of the time items *)

Section TimeProperties.

Context {host : QtHost}.

Lemma parse_2024 :
  parse_yyyyMMddTHHmmss "2024-01-01T00:00:00" = Some 1704067200000.
Proof. reflexivity. Qed.

Lemma format_2024 :
  format_yyyyMMddTHHmmss 1704067200000 = "2024-01-01T00:00:00"%string.
Proof. reflexivity. Qed.

Lemma toString_time (g : Globals) (it : ResourceItem) (s : string) :
  type (descriptor it) = DataTypeTime -> m_str it = Some s ->
  toString g it = (time_text it, with_m_str it (Some (time_text it))).
Proof.
  unfold toString, time_text, descriptor, toNumber. intros -> ->.
  now destruct (ptr_eqb (suffix (m_rid it)) RStateLastUpdated).
Qed.

Lemma store_number_time_text (now : QDateTime) (n : Z) (it : ResourceItem) :
  time_text (store_number now n it) =
  format_yyyyMMddTHHmmss
    (if ptr_eqb (suffix (descriptor it)) RStateLastUpdated
     then n else n + 1000 * localOffset).
Proof.
  unfold time_text, descriptor, toNumber. rewrite store_number_num.
  destruct (store_number_frame now n it) as (_ & -> & _). reflexivity.
Qed.

(** C4, as amended.  On a time item with its buffer, [setValue] of the
    variant text [2024-01-01T00:00:00] succeeds, and [toString] afterwards
    returns that text when the suffix is not [state/lastupdated] or when the
    local zone is at offset zero from UTC.  [toString] prints the number as
    milliseconds since the epoch, in UTC for [state/lastupdated] and in local
    time for every other suffix, and does so on every call whatever the
    buffer holds. *)
Theorem time_text_round_trip (g : Globals) (clock : Z) (it : ResourceItem) :
  type (descriptor it) = DataTypeTime ->
  buffer_matches_type it ->
  fst (setValue_QVariant clock (QVariant_QString "2024-01-01T00:00:00") it) = true /\
  (ptr (suffix (descriptor it)) <> ptr RStateLastUpdated \/ localOffset = 0 ->
   fst (toString g
          (snd (setValue_QVariant clock
                  (QVariant_QString "2024-01-01T00:00:00") it)))
   = "2024-01-01T00:00:00"%string) /\
  fst (toString g it) =
    format_yyyyMMddTHHmmss
      (if ptr_eqb (suffix (descriptor it)) RStateLastUpdated
       then toNumber it
       else toNumber it + 1000 * localOffset) /\
  snd (toString g it) = with_m_str it (Some (fst (toString g it))) /\
  (forall s : string,
     fst (toString g (with_m_str it (Some s))) = fst (toString g it)).
Proof.
  intros Ht Hbuf. unfold buffer_matches_type in Hbuf. rewrite Ht in Hbuf.
  assert (Hstr : m_str it <> None) by (now apply Hbuf).
  clear Hbuf. destruct (m_str it) as [s0|] eqn:Es; [clear Hstr|congruence].
  assert (Hset :
    setValue_QVariant clock (QVariant_QString "2024-01-01T00:00:00") it =
    (true, store_number (currentDateTime clock)
             (1704067200000 - 1000 * localOffset) it)).
  { unfold setValue_QVariant. cbn [QVariant_isValid negb].
    unfold descriptor in Ht. rewrite Ht.
    cbn [QVariant_type QVariant_toString].
    unfold QDateTime_fromString. rewrite parse_2024. reflexivity. }
  rewrite Hset. cbn [fst snd].
  split; [reflexivity|]. split; [|split; [|split]].
  - intros Hcase.
    rewrite (toString_time g _ s0).
    + cbn [fst]. rewrite store_number_time_text.
      destruct (ptr_eqb (suffix (descriptor it)) RStateLastUpdated) eqn:E.
      * destruct Hcase as [Hne|H0].
        -- apply N.eqb_eq in E. contradiction.
        -- rewrite H0. apply format_2024.
      * replace (1704067200000 - 1000 * localOffset + 1000 * localOffset)
          with 1704067200000 by lia.
        apply format_2024.
    + unfold descriptor.
      destruct (store_number_frame (currentDateTime clock)
                  (1704067200000 - 1000 * localOffset) it) as (_ & -> & _).
      exact Ht.
    + destruct (store_number_frame (currentDateTime clock)
                  (1704067200000 - 1000 * localOffset) it) as (-> & _).
      exact Es.
  - now rewrite (toString_time g it s0 Ht Es).
  - now rewrite (toString_time g it s0 Ht Es).
  - intros s. rewrite (toString_time g it s0 Ht Es).
    now rewrite (toString_time g (with_m_str it (Some s)) s Ht).
Qed.

End TimeProperties.

(** ** Properties of Resource *)

Section ResourceProperties.

Context {host : QtHost}.
Variable m_isPublic_init : bool.

Local Open Scope nat_scope.

Lemma ptr_eqb_eq (p q : CString) : ptr_eqb p q = true <-> ptr p = ptr q.
Proof. apply N.eqb_eq. Qed.

Lemma ApiDataType_eqb_eq (a b : ApiDataType) : ApiDataType_eqb a b = true <-> a = b.
Proof. destruct a, b; simpl; split; congruence. Qed.

Lemma item_loop_shift (s : CString) (l : list ResourceItem) (i : nat) :
  item_loop s l i = option_map (Nat.add i) (item_loop s l 0).
Proof.
  revert i. induction l as [|x l IH]; intros i; simpl; [reflexivity|].
  destruct (ptr_eqb (suffix (descriptor x)) s); simpl.
  - now rewrite Nat.add_0_r.
  - rewrite (IH (S i)), (IH 1).
    destruct (item_loop s l 0); simpl; [f_equal; lia|reflexivity].
Qed.

Lemma item_loop_None_iff (s : CString) (l : list ResourceItem) :
  item_loop s l 0 = None <-> ~ In (ptr s) (map item_key l).
Proof.
  induction l as [|x l IH]; simpl; [tauto|].
  destruct (ptr_eqb (suffix (descriptor x)) s) eqn:E.
  - apply ptr_eqb_eq in E. split; [discriminate|]. intros H. exfalso. apply H. now left.
  - assert (Hne : item_key x <> ptr s).
    { intros H. apply ptr_eqb_eq in H. unfold item_key in *. congruence. }
    rewrite item_loop_shift.
    destruct (item_loop s l 0) eqn:El; simpl.
    + split; [discriminate|]. intros H. exfalso.
      assert (Hn : ~ In (ptr s) (map item_key l)) by tauto.
      apply IH in Hn. discriminate.
    + split; [|reflexivity]. intros _ [H|H]; [contradiction|].
      now apply (proj1 IH).
Qed.

Lemma item_loop_split (s : CString) (l1 : list ResourceItem) (x : ResourceItem)
  (l2 : list ResourceItem) :
  ~ In (ptr s) (map item_key l1) -> item_key x = ptr s ->
  item_loop s (l1 ++ x :: l2) 0 = Some (length l1).
Proof.
  intros Hl1 Hx. induction l1 as [|y l1 IH]; simpl.
  - apply ptr_eqb_eq in Hx. unfold item_key, descriptor in *. now rewrite Hx.
  - simpl in Hl1.
    destruct (ptr_eqb (suffix (descriptor y)) s) eqn:E.
    + apply ptr_eqb_eq in E. exfalso. apply Hl1. now left.
    + rewrite item_loop_shift, IH by tauto. reflexivity.
Qed.

Lemma item_loop_Some_split (s : CString) (l : list ResourceItem) (i : nat) :
  item_loop s l 0 = Some i ->
  exists (l1 : list ResourceItem) (x : ResourceItem) (l2 : list ResourceItem),
    l = l1 ++ x :: l2 /\ length l1 = i /\ item_key x = ptr s /\
    ~ In (ptr s) (map item_key l1).
Proof.
  revert i. induction l as [|y l IH]; intros i; simpl; [discriminate|].
  destruct (ptr_eqb (suffix (descriptor y)) s) eqn:E.
  - intros H. inversion H; subst i. exists [], y, l.
    apply ptr_eqb_eq in E. repeat split; auto.
  - rewrite item_loop_shift. destruct (item_loop s l 0) as [j|] eqn:El; [|discriminate].
    simpl. intros H. inversion H; subst i.
    destruct (IH j eq_refl) as (l1 & x & l2 & -> & Hlen & Hx & Hl1).
    exists (y :: l1), x, l2. simpl. repeat split; auto.
    intros [Hy|Hin]; [|contradiction].
    apply ptr_eqb_eq in Hy. unfold descriptor in *. congruence.
Qed.

Lemma addItem_loop_Some (l : list ResourceItemDescriptor) (t : ApiDataType)
  (s : CString) (d : ResourceItemDescriptor) :
  addItem_loop l t s = Some d -> In d l /\ ptr (suffix d) = ptr s /\ type d = t.
Proof.
  induction l as [|x l IH]; simpl; [discriminate|].
  destruct (ptr_eqb (suffix x) s && ApiDataType_eqb (type x) t) eqn:E.
  - intros H. inversion H; subst x. apply andb_true_iff in E. destruct E as [E1 E2].
    apply ptr_eqb_eq in E1. apply ApiDataType_eqb_eq in E2. auto.
  - intros H. destruct (IH H) as (? & ? & ?). auto.
Qed.

Lemma addItem_loop_None (l : list ResourceItemDescriptor) (t : ApiDataType)
  (s : CString) :
  addItem_loop l t s = None <->
  forall d, In d l -> ~ (ptr (suffix d) = ptr s /\ type d = t).
Proof.
  induction l as [|x l IH]; simpl; [split; [intros _ d []|reflexivity]|].
  destruct (ptr_eqb (suffix x) s && ApiDataType_eqb (type x) t) eqn:E.
  - split; [discriminate|]. intros H. exfalso. apply (H x); [now left|].
    apply andb_true_iff in E. destruct E as [E1 E2].
    apply ptr_eqb_eq in E1. apply ApiDataType_eqb_eq in E2. auto.
  - rewrite IH. split.
    + intros H d [<-|Hd]; [|now apply H].
      intros [H1 H2]. apply ptr_eqb_eq in H1. apply ApiDataType_eqb_eq in H2.
      rewrite H1, H2 in E. discriminate.
    + intros H d Hd. apply H. now right.
Qed.

Lemma vector_copy_keys (g : Globals) (l : list ResourceItem) :
  map item_key (vector_copy g l) = map item_key l.
Proof.
  unfold vector_copy. rewrite map_map. apply map_ext. intros it.
  unfold item_key, ResourceItem_copy. now rewrite ResourceItem_assign_descriptor.
Qed.

Lemma vector_set_split (l1 : list ResourceItem) (y x : ResourceItem)
  (l2 : list ResourceItem) :
  vector_set (l1 ++ y :: l2) (length l1) x = l1 ++ x :: l2.
Proof. induction l1 as [|z l1 IH]; simpl; [reflexivity|now rewrite IH]. Qed.

Lemma vector_back_last (l : list ResourceItem) (x : ResourceItem) :
  vector_back (l ++ [x]) = Some x.
Proof.
  unfold vector_back. rewrite length_app. simpl.
  replace (Nat.pred (length l + 1)) with (length l) by lia.
  rewrite nth_error_app2 by lia. now rewrite Nat.sub_diag.
Qed.

Lemma NoDup_swap_last (l1 l2 : list N) (a b : N) :
  NoDup (l1 ++ a :: l2 ++ [b]) -> NoDup (l1 ++ b :: l2).
Proof.
  intros H. apply NoDup_remove_1 in H.
  apply (Permutation_NoDup (l := l1 ++ l2 ++ [b])); [|exact H].
  apply Permutation_app_head. symmetry. apply Permutation_cons_append.
Qed.

Lemma vector_set_keys (l : list ResourceItem) (i : nat) (it it' : ResourceItem) :
  nth_error l i = Some it -> descriptor it' = descriptor it ->
  map item_key (vector_set l i it') = map item_key l.
Proof.
  revert i. induction l as [|y l IH]; intros [|i]; simpl; try discriminate.
  - intros H Hd. inversion H; subst y. unfold item_key. now rewrite Hd.
  - intros H Hd. now rewrite (IH i H Hd).
Qed.

Lemma addItem_present (g : Globals) (grows : bool) (r : Resource)
  (t : ApiDataType) (s : CString) (i : nat) :
  item r s = Some i ->
  addItem m_isPublic_init g grows r t s =
  {| added := Some i; after_addItem := r; debug_out := [] |}.
Proof. intros H. unfold addItem. now rewrite H. Qed.

Lemma grown_keys (g : Globals) (grows : bool) (l : list ResourceItem) :
  map item_key (if grows then vector_copy g l else l) = map item_key l.
Proof. destruct grows; [apply vector_copy_keys|reflexivity]. Qed.

Lemma addItem_keeps_invariant (g : Globals) (grows : bool) (r : Resource)
  (t : ApiDataType) (s : CString) :
  one_item_per_suffix r ->
  one_item_per_suffix (after_addItem (addItem m_isPublic_init g grows r t s)).
Proof.
  intros Hr. unfold addItem. destruct (item r s) eqn:Ei; [exact Hr|].
  destruct (addItem_loop (rItemDescriptors g) t s) as [d|] eqn:Ed; [|exact Hr].
  apply addItem_loop_Some in Ed. destruct Ed as (_ & Hd & _).
  apply item_loop_None_iff in Ei.
  unfold one_item_per_suffix, suffixes in *. simpl.
  rewrite map_app, grown_keys. simpl.
  apply NoDup_app; [assumption|constructor; [auto|constructor]|].
  intros a Ha [<-|[]]. apply Ei.
  unfold item_key at 1 in Ha. simpl in Ha. now rewrite Hd in Ha.
Qed.

Lemma addItem_then_item (g : Globals) (grows : bool) (r : Resource)
  (t : ApiDataType) (s : CString) :
  added (addItem m_isPublic_init g grows r t s) <> None ->
  item (after_addItem (addItem m_isPublic_init g grows r t s)) s =
  added (addItem m_isPublic_init g grows r t s).
Proof.
  unfold addItem. destruct (item r s) eqn:Ei; [intros _; exact Ei|].
  destruct (addItem_loop (rItemDescriptors g) t s) as [d|] eqn:Ed;
    [intros _|intros H; now elim H].
  apply addItem_loop_Some in Ed. destruct Ed as (_ & Hd & _).
  apply item_loop_None_iff in Ei. simpl. unfold item. simpl.
  rewrite item_loop_split.
  - f_equal. rewrite <- (length_map item_key), grown_keys. apply length_map.
  - now rewrite grown_keys.
  - exact Hd.
Qed.

(** The shape of the vector around the item [removeItem] finds. *)
Lemma removeItem_cases (g : Globals) (r : Resource) (s : CString) :
  In (ptr s) (suffixes r) ->
  exists (l1 : list ResourceItem) (this : ResourceItem),
    item r s = Some (length l1) /\ item_key this = ptr s /\
    ~ In (ptr s) (map item_key l1) /\
    ((m_rItems r = l1 ++ [this] /\ m_rItems (removeItem g r s) = l1) \/
     (exists (l2 : list ResourceItem) (back : ResourceItem),
        m_rItems r = l1 ++ this :: l2 ++ [back] /\
        m_rItems (removeItem g r s) =
          l1 ++ fst (ResourceItem_assign g false this back) :: l2)).
Proof.
  intros Hin. unfold suffixes in Hin.
  destruct (item r s) as [i|] eqn:Ei;
    [|apply item_loop_None_iff in Ei; contradiction].
  destruct (item_loop_Some_split s _ i Ei) as (l1 & this & rest & Hl & Hlen & Hk & Hl1).
  subst i. exists l1, this. repeat split; auto.
  unfold removeItem. rewrite Ei, Hl.
  rewrite nth_error_app2, Nat.sub_diag by lia. cbn [nth_error].
  destruct (exists_last (l := this :: rest)) as (mid & back & Hmid); [discriminate|].
  destruct mid as [|this' l2].
  - left. simpl in Hmid. inversion Hmid; subst.
    rewrite vector_back_last.
    replace (S (length l1) =? length (l1 ++ [back])) with true
      by (symmetry; apply Nat.eqb_eq; rewrite length_app; simpl; lia).
    unfold ResourceItem_assign. cbv beta iota.
    rewrite vector_set_split. split; [reflexivity|apply removelast_last].
  - right. simpl in Hmid. inversion Hmid; subst this' rest. exists l2, back.
    split; [reflexivity|].
    replace (l1 ++ this :: l2 ++ [back]) with ((l1 ++ this :: l2) ++ [back])
      by (rewrite <- app_assoc; reflexivity).
    rewrite vector_back_last.
    replace (S (length l1) =? length ((l1 ++ this :: l2) ++ [back])) with false
      by (symmetry; apply Nat.eqb_neq; rewrite !length_app; simpl; lia).
    destruct (ResourceItem_assign g false this back) as [x back'] eqn:Ea.
    cbv beta iota. cbn [fst m_rItems].
    rewrite <- app_assoc. cbn [app]. rewrite vector_set_split.
    replace (l1 ++ x :: l2 ++ [back]) with ((l1 ++ x :: l2) ++ [back])
      by (rewrite <- app_assoc; reflexivity).
    apply removelast_last.
Qed.

Lemma removeItem_absent (g : Globals) (r : Resource) (s : CString) :
  ~ In (ptr s) (suffixes r) -> removeItem g r s = r.
Proof.
  intros H. apply item_loop_None_iff in H. unfold removeItem.
  unfold item. now rewrite H.
Qed.

Lemma removeItem_keeps_invariant (g : Globals) (r : Resource) (s : CString) :
  one_item_per_suffix r -> one_item_per_suffix (removeItem g r s).
Proof.
  intros Hr. destruct (in_dec N.eq_dec (ptr s) (suffixes r)) as [Hin|Hout];
    [|now rewrite removeItem_absent].
  destruct (removeItem_cases g r s Hin)
    as (l1 & this & _ & _ & _ & [[Hl Hl']|(l2 & back & Hl & Hl')]);
    unfold one_item_per_suffix, suffixes in *; rewrite Hl', Hl in *.
  - rewrite map_app in Hr. now apply NoDup_app_remove_r in Hr.
  - rewrite map_app in *. cbn [map] in *. rewrite map_app in Hr. cbn [map] in Hr.
    replace (item_key (fst (ResourceItem_assign g false this back)))
      with (item_key back)
      by (unfold item_key; now rewrite ResourceItem_assign_descriptor).
    now apply NoDup_swap_last in Hr.
Qed.

(** C6.  A new resource has at most one item per suffix, and [addItem],
    [removeItem], the copy of a resource, [toString] and every change of an
    item in place that keeps its descriptor preserve that.  [addItem] with a
    suffix that is present returns the item that is there, whatever the
    requested type, and leaves the resource alone; so a second [addItem]
    with the same suffix returns the same item as the first and the same
    [itemCount]. *)
Theorem addItem_one_item_per_suffix (g : Globals) (grows : bool) (r : Resource)
  (t : ApiDataType) (s : CString) :
  one_item_per_suffix r ->
  (forall p : CString, one_item_per_suffix (Resource_ctor p)) /\
  one_item_per_suffix (after_addItem (addItem m_isPublic_init g grows r t s)) /\
  one_item_per_suffix (removeItem g r s) /\
  one_item_per_suffix (fst (Resource_copy g r)) /\
  one_item_per_suffix (snd (Resource_copy g r)) /\
  one_item_per_suffix (snd (Resource_toString g r s)) /\
  (forall (i : nat) (it it' : ResourceItem),
     nth_error (m_rItems r) i = Some it -> descriptor it' = descriptor it ->
     one_item_per_suffix
       {| m_prefix := m_prefix r; m_rItems := vector_set (m_rItems r) i it' |}) /\
  (forall i : nat,
     item r s = Some i ->
     forall (t' : ApiDataType) (grows' : bool),
       addItem m_isPublic_init g grows' r t' s =
       {| added := Some i; after_addItem := r; debug_out := [] |}) /\
  (added (addItem m_isPublic_init g grows r t s) <> None ->
   forall (t' : ApiDataType) (grows' : bool),
     let first := addItem m_isPublic_init g grows r t s in
     let second := addItem m_isPublic_init g grows' (after_addItem first) t' s in
     added second = added first /\
     after_addItem second = after_addItem first /\
     itemCount (after_addItem second) = itemCount (after_addItem first)).
Proof.
  intros Hr. repeat split.
  - constructor.
  - now apply addItem_keeps_invariant.
  - now apply removeItem_keeps_invariant.
  - unfold one_item_per_suffix, suffixes, Resource_copy. simpl.
    now rewrite vector_copy_keys.
  - unfold one_item_per_suffix, suffixes, Resource_copy. simpl.
    rewrite map_map.
    rewrite (map_ext _ item_key); [exact Hr|].
    intros it. unfold item_key, ResourceItem_copy.
    now rewrite ResourceItem_assign_other_descriptor.
  - unfold Resource_toString. destruct (item r s) as [i|]; [|exact Hr].
    destruct (nth_error (m_rItems r) i) as [it|] eqn:Ei; [|exact Hr].
    pose proof (toString_descriptor g it) as Hd.
    destruct (toString g it) as [str it']. simpl in *.
    unfold one_item_per_suffix, suffixes. simpl.
    now rewrite (vector_set_keys _ _ _ _ Ei Hd).
  - intros i it it' Hi Hd. unfold one_item_per_suffix, suffixes. simpl.
    now rewrite (vector_set_keys _ _ _ _ Hi Hd).
  - intros i Hi t' grows'. now apply addItem_present.
  - rewrite (addItem_present g grows' _ t' s
               (match added (addItem m_isPublic_init g grows r t s) with
                | Some i => i | None => 0 end)).
    + simpl. now destruct (added (addItem m_isPublic_init g grows r t s)).
    + rewrite addItem_then_item by assumption.
      now destruct (added (addItem m_isPublic_init g grows r t s)).
  - rewrite (addItem_present g grows' _ t' s
               (match added (addItem m_isPublic_init g grows r t s) with
                | Some i => i | None => 0 end)); [reflexivity|].
    rewrite addItem_then_item by assumption.
    now destruct (added (addItem m_isPublic_init g grows r t s)).
  - rewrite (addItem_present g grows' _ t' s
               (match added (addItem m_isPublic_init g grows r t s) with
                | Some i => i | None => 0 end)); [reflexivity|].
    rewrite addItem_then_item by assumption.
    now destruct (added (addItem m_isPublic_init g grows r t s)).
Qed.

(** C7.  For a suffix that is present, [removeItem] assigns the last item to
    the first item with this suffix and drops the last element: the vector
    is one shorter, the items before the last one keep their places except
    for the removed one, whose place now holds the members of the former
    last item, and [item] no longer finds the suffix. *)
Theorem removeItem_overwrites_with_last (g : Globals) (r : Resource) (s : CString) :
  one_item_per_suffix r ->
  In (ptr s) (suffixes r) ->
  exists (i : nat) (this back : ResourceItem),
    item r s = Some i /\
    nth_error (m_rItems r) i = Some this /\
    vector_back (m_rItems r) = Some back /\
    m_rItems (removeItem g r s) =
      removelast
        (vector_set (m_rItems r) i
           (fst (ResourceItem_assign g (S i =? length (m_rItems r)) this back))) /\
    itemCount (removeItem g r s) = (itemCount r - 1)%Z /\
    item (removeItem g r s) s = None /\
    ~ In (ptr s) (suffixes (removeItem g r s)) /\
    (forall j : nat,
       j <> i -> S j < length (m_rItems r) ->
       nth_error (m_rItems (removeItem g r s)) j = nth_error (m_rItems r) j) /\
    (S i < length (m_rItems r) ->
     exists x : ResourceItem,
       nth_error (m_rItems (removeItem g r s)) i = Some x /\
       descriptor x = descriptor back /\
       toNumber x = toNumber back /\
       toNumberPrevious x = toNumberPrevious back /\
       lastSet x = lastSet back /\
       lastChanged x = lastChanged back /\
       rulesInvolved x = rulesInvolved back /\
       isPublic x = isPublic back).
Proof.
  intros Hr Hin.
  destruct (removeItem_cases g r s Hin)
    as (l1 & this & Hi & Hk & Hl1 & [[Hl Hl']|(l2 & back & Hl & Hl')]).
  - exists (length l1), this, this.
    assert (Hlen : (S (length l1) =? length (m_rItems r)) = true)
      by (apply Nat.eqb_eq; rewrite Hl, length_app; simpl; lia).
    rewrite Hlen. unfold ResourceItem_assign. cbn [fst].
    split; [exact Hi|].
    split; [rewrite Hl, nth_error_app2, Nat.sub_diag by lia; reflexivity|].
    split; [rewrite Hl; apply vector_back_last|].
    split; [rewrite Hl', Hl, vector_set_split; symmetry; apply removelast_last|].
    split; [unfold itemCount; rewrite Hl', Hl, length_app; cbn [length]; lia|].
    split; [unfold item; rewrite Hl'; now apply item_loop_None_iff|].
    split; [unfold suffixes; now rewrite Hl'|].
    split.
    + intros j Hj Hlt. rewrite Hl, length_app in Hlt. cbn [length] in Hlt.
      rewrite Hl', Hl, nth_error_app1 by lia. reflexivity.
    + intros Hlt. rewrite Hl, length_app in Hlt. cbn [length] in Hlt. lia.
  - exists (length l1), this, back.
    assert (Hlong : length (m_rItems r) = length l1 + S (S (length l2)))
      by (rewrite Hl, length_app; cbn [length]; rewrite length_app;
          cbn [length]; lia).
    assert (Hlen : (S (length l1) =? length (m_rItems r)) = false)
      by (apply Nat.eqb_neq; lia).
    rewrite Hlen.
    set (x := fst (ResourceItem_assign g false this back)) in *.
    assert (Hx : item_key x = item_key back)
      by (unfold item_key, x; now rewrite ResourceItem_assign_descriptor).
    assert (Hback : item_key back <> ptr s /\ ~ In (ptr s) (map item_key l2)).
    { unfold one_item_per_suffix, suffixes in Hr. rewrite Hl in Hr.
      rewrite map_app in Hr. cbn [map] in Hr. rewrite map_app in Hr.
      cbn [map] in Hr. apply NoDup_remove_2 in Hr. rewrite <- Hk.
      split; intros H; apply Hr; apply in_or_app; right; apply in_or_app.
      - right. left. exact H.
      - left. exact H. }
    destruct Hback as [Hb Hl2].
    assert (Hkeys : ~ In (ptr s) (map item_key (l1 ++ x :: l2))).
    { rewrite map_app. cbn [map]. rewrite Hx. intros H.
      apply in_app_or in H. destruct H as [H|[H|H]]; contradiction. }
    assert (Hassoc : forall y : ResourceItem,
              l1 ++ y :: l2 ++ [back] = (l1 ++ y :: l2) ++ [back])
      by (intros y; rewrite <- app_assoc; reflexivity).
    split; [exact Hi|].
    split; [rewrite Hl, nth_error_app2, Nat.sub_diag by lia; reflexivity|].
    split; [rewrite Hl, Hassoc; apply vector_back_last|].
    split; [rewrite Hl', Hl, vector_set_split, Hassoc; symmetry;
            apply removelast_last|].
    split; [unfold itemCount; rewrite Hlong, Hl', length_app; cbn [length]; lia|].
    split; [unfold item; rewrite Hl'; now apply item_loop_None_iff|].
    split; [unfold suffixes; now rewrite Hl'|].
    split.
    + intros j Hj Hlt. rewrite Hl', Hl.
      destruct (Nat.lt_ge_cases j (length l1)) as [Hlo|Hhi].
      * rewrite !nth_error_app1 by lia. reflexivity.
      * rewrite !nth_error_app2 by lia.
        destruct (j - length l1) as [|k] eqn:Ek; [lia|]. cbn [nth_error].
        rewrite nth_error_app1 by lia. reflexivity.
    + intros _. exists x.
      split; [rewrite Hl', nth_error_app2, Nat.sub_diag by lia; reflexivity|].
      destruct (ResourceItem_assign_members g this back)
        as (H1 & H2 & H3 & H4 & H5 & H6 & H7 & _).
      repeat split; assumption.
Qed.

(** C9.  [addItem] with a suffix that is not in the resource and a pair of
    type and suffix that no descriptor of the catalog has returns null after
    the assertion and the diagnostic, and leaves the resource as it was:
    same [itemCount], and [item] still does not find the suffix. *)
Theorem addItem_unknown_pair (g : Globals) (grows : bool) (r : Resource)
  (t : ApiDataType) (s : CString) :
  ~ In (ptr s) (suffixes r) ->
  (forall d : ResourceItemDescriptor,
     In d (rItemDescriptors g) -> ~ (ptr (suffix d) = ptr s /\ type d = t)) ->
  addItem m_isPublic_init g grows r t s =
    {| added := None; after_addItem := r;
       debug_out := [DBG_Assert_failed; DBG_Printf_ERROR_unknown t s] |} /\
  itemCount (after_addItem (addItem m_isPublic_init g grows r t s)) = itemCount r /\
  item (after_addItem (addItem m_isPublic_init g grows r t s)) s = None.
Proof.
  intros Hs Hd. apply item_loop_None_iff in Hs. apply addItem_loop_None in Hd.
  unfold addItem, item. rewrite Hs, Hd. simpl. auto.
Qed.

End ResourceProperties.

(** ** The properties at sample inputs *)

Lemma sample_sensor_one_item_per_suffix : one_item_per_suffix sample_sensor.
Proof.
  unfold one_item_per_suffix, sample_sensor, suffixes. simpl.
  repeat (constructor; [simpl; intuition discriminate|]). constructor.
Qed.

(** The battery level, limited to 0..100, turns down 101 and is left as it
    was; the item [state/on] has no range and takes any number. *)
Lemma setNumber_range_check_witness :
  fst (setValue_qint64 10 101 (ResourceItem_ctor true battery_descriptor)) = false /\
  snd (setValue_qint64 10 101 (ResourceItem_ctor true battery_descriptor))
    = ResourceItem_ctor true battery_descriptor /\
  fst (setValue_qint64 10 (-7) (ResourceItem_ctor true on_descriptor)) = true.
Proof.
  split; [|split].
  - apply (proj1 (proj2 (setNumber_range_check 10 101
                           (ResourceItem_ctor true battery_descriptor)))).
    + right. simpl. lia.
    + right. simpl. lia.
  - apply (proj2 (proj2 (setNumber_range_check 10 101
                           (ResourceItem_ctor true battery_descriptor)))).
    reflexivity.
  - apply (proj1 (setNumber_range_check 10 (-7)
                    (ResourceItem_ctor true on_descriptor))); reflexivity.
Defined.

(** A write of 50 to a new battery item at time 10. *)
Lemma accepted_write_updates_timestamps_witness :
  accepted_write (host := plain_host 0) 10
    (ResourceItem_ctor true battery_descriptor)
    (snd (setValue_qint64 10 50 (ResourceItem_ctor true battery_descriptor))) /\
  timestamps_of_write 10
    (ResourceItem_ctor true battery_descriptor)
    (snd (setValue_qint64 10 50 (ResourceItem_ctor true battery_descriptor))).
Proof.
  assert (H : accepted_write (host := plain_host 0) 10
                (ResourceItem_ctor true battery_descriptor)
                (snd (setValue_qint64 10 50
                        (ResourceItem_ctor true battery_descriptor))))
    by (apply accepted_setNumber with (v := 50); reflexivity).
  split; [exact H|].
  exact (proj1 (accepted_write_updates_timestamps (host := plain_host 0) 10 _ _ H)).
Defined.

(** C2, as stated, fails: the write of an empty variant is accepted, yet
    [lastSet] is not the time of the call afterwards, and [lastChanged] is
    cleared although the stored value is the same.  Besides, a first
    [setValue(0)] on a new item, which holds 0, is accepted and leaves
    [lastChanged] unset. *)
Lemma setVariant_empty_accepted_without_lastSet :
  let it := snd (setValue_qint64 10 1 (ResourceItem_ctor true on_descriptor)) in
  let w := setValue_QVariant (host := plain_host 0) 1000 QVariant_null it in
  let first := setValue_qint64 10 0 (ResourceItem_ctor true on_descriptor) in
  fst w = true /\
  lastSet (snd w) <> currentDateTime 1000 /\
  stored_value (snd w) = stored_value it /\
  lastChanged (snd w) <> lastChanged it /\
  fst first = true /\
  lastSet (snd first) = currentDateTime 10 /\
  lastChanged (snd first) = QDateTime_ctor.
Proof.
  cbv zeta. repeat split; try (vm_compute; reflexivity); vm_compute; discriminate.
Qed.

(** The key [xyz/config/battery] splits the catalog at the descriptor of
    [config/battery]. *)
Lemma getResourceItemDescriptor_first_suffix_match_witness :
  exists pre post : list ResourceItemDescriptor,
    rItemDescriptors catalog = pre ++ battery_descriptor :: post /\
    ends_with "xyz/config/battery" (chars (suffix battery_descriptor)) /\
    Forall (fun d' => ~ ends_with "xyz/config/battery" (chars (suffix d'))) pre.
Proof.
  apply (proj1 (proj1 (getResourceItemDescriptor_first_suffix_match
                         catalog "xyz/config/battery") battery_descriptor)).
  reflexivity.
Defined.

(** The local time of a host one hour east of UTC survives the round trip on
    [config/localtime]. *)
Lemma time_text_round_trip_witness :
  type (descriptor (ResourceItem_ctor true localtime_descriptor)) = DataTypeTime /\
  buffer_matches_type (ResourceItem_ctor true localtime_descriptor) /\
  fst (toString (host := plain_host 3600) catalog
         (snd (setValue_QVariant (host := plain_host 3600) 5
                 (QVariant_QString "2024-01-01T00:00:00")
                 (ResourceItem_ctor true localtime_descriptor))))
  = "2024-01-01T00:00:00"%string.
Proof.
  assert (H1 : type (descriptor (ResourceItem_ctor true localtime_descriptor))
               = DataTypeTime) by reflexivity.
  assert (H2 : buffer_matches_type (ResourceItem_ctor true localtime_descriptor))
    by (split; [reflexivity|discriminate]).
  split; [exact H1|]. split; [exact H2|].
  apply (proj1 (proj2 (time_text_round_trip (host := plain_host 3600)
                         catalog 5 _ H1 H2))).
  left. simpl. lia.
Defined.

(** C4, as stated, fails on a host one hour east of UTC: on
    [state/lastupdated] the text that comes back is the UTC time, one hour
    earlier; on [config/localtime] the number 0 is printed as local time, not
    as the UTC time [1970-01-01T00:00:00]. *)
Lemma lastupdated_round_trip_off_utc :
  let h := plain_host 3600 in
  let w := setValue_QVariant (host := h) 5
             (QVariant_QString "2024-01-01T00:00:00")
             (ResourceItem_ctor true lastupdated_descriptor) in
  fst w = true /\
  fst (toString (host := h) catalog (snd w)) = "2023-12-31T23:00:00"%string /\
  fst (toString (host := h) catalog (snd w)) <> "2024-01-01T00:00:00"%string /\
  toNumber (ResourceItem_ctor true localtime_descriptor) = 0 /\
  fst (toString (host := h) catalog (ResourceItem_ctor true localtime_descriptor))
    = "1970-01-01T01:00:00"%string /\
  format_yyyyMMddTHHmmss 0 = "1970-01-01T00:00:00"%string.
Proof.
  cbv zeta. repeat split; try (vm_compute; reflexivity); vm_compute; discriminate.
Qed.

(** The sample sensor keeps one item per suffix through [addItem] and
    [removeItem], and [addItem] of [state/on], which it has, requested as a
    string, returns the item at index 1. *)
Lemma addItem_one_item_per_suffix_witness :
  one_item_per_suffix sample_sensor /\
  one_item_per_suffix
    (after_addItem (addItem (host := plain_host 0) true catalog true
                      sample_sensor DataTypeUInt8 RStateBri)) /\
  one_item_per_suffix (removeItem (host := plain_host 0) catalog sample_sensor RStateBri) /\
  addItem (host := plain_host 0) true catalog false sample_sensor DataTypeString RStateOn
    = {| added := Some 1%nat; after_addItem := sample_sensor; debug_out := [] |}.
Proof.
  pose proof (addItem_one_item_per_suffix (host := plain_host 0) true catalog true
                sample_sensor DataTypeUInt8 RStateBri
                sample_sensor_one_item_per_suffix) as (_ & Ha & Hr & _).
  pose proof (addItem_one_item_per_suffix (host := plain_host 0) true catalog true
                sample_sensor DataTypeUInt8 RStateOn
                sample_sensor_one_item_per_suffix) as (_ & _ & _ & _ & _ & _ & _ & Hp & _).
  split; [exact sample_sensor_one_item_per_suffix|].
  split; [exact Ha|]. split; [exact Hr|].
  apply (Hp 1%nat). reflexivity.
Defined.

(** Removing the first item of the sample sensor. *)
Lemma removeItem_overwrites_with_last_witness :
  one_item_per_suffix sample_sensor /\
  In (ptr RAttrName) (suffixes sample_sensor) /\
  itemCount (removeItem (host := plain_host 0) catalog sample_sensor RAttrName) = 2 /\
  item (removeItem (host := plain_host 0) catalog sample_sensor RAttrName) RAttrName
    = None.
Proof.
  assert (Hin : In (ptr RAttrName) (suffixes sample_sensor)) by (left; reflexivity).
  split; [exact sample_sensor_one_item_per_suffix|]. split; [exact Hin|].
  destruct (removeItem_overwrites_with_last (host := plain_host 0) catalog
              sample_sensor RAttrName sample_sensor_one_item_per_suffix Hin)
    as (i & this & back & _ & _ & _ & _ & Hcount & Hitem & _).
  split; [exact Hcount|exact Hitem].
Defined.

(** A new Bool item, a write of 1 to it, and the write of the empty
    variant. *)
Lemma toVariant_empty_iff_never_set_witness :
  fst (toVariant (host := plain_host 0) catalog
         (ResourceItem_ctor true on_descriptor)) = QVariant_null /\
  fst (toVariant (host := plain_host 0) catalog
         (snd (setValue_qint64 10 1 (ResourceItem_ctor true on_descriptor))))
    = typed_value (host := plain_host 0) catalog
        (snd (setValue_qint64 10 1 (ResourceItem_ctor true on_descriptor))) /\
  fst (setValue_QVariant (host := plain_host 0) 10 QVariant_null
         (ResourceItem_ctor true on_descriptor)) = true.
Proof.
  destruct (toVariant_empty_iff_never_set (host := plain_host 0) true catalog 10
              (ResourceItem_ctor true on_descriptor)) as (Hiff & _ & Hw & Hclear).
  split; [apply (proj2 Hiff); reflexivity|]. split.
  - apply Hw. apply accepted_setNumber with (v := 1). reflexivity.
  - apply (Hclear QVariant_null). reflexivity.
Defined.

(** C8, as stated, fails: the write of the empty variant to an item that
    holds a value is reported as a success, and [toVariant] afterwards is
    empty, not the boolean the item stores. *)
Lemma toVariant_empty_after_accepted_write :
  let it := snd (setValue_qint64 10 1 (ResourceItem_ctor true on_descriptor)) in
  let w := setValue_QVariant (host := plain_host 0) 1000 QVariant_null it in
  fst w = true /\
  fst (toVariant (host := plain_host 0) catalog (snd w)) = QVariant_null /\
  typed_value (host := plain_host 0) catalog (snd w) = QVariant_bool true /\
  fst (toVariant (host := plain_host 0) catalog (snd w))
    <> typed_value (host := plain_host 0) catalog (snd w).
Proof.
  cbv zeta. repeat split; try (vm_compute; reflexivity); vm_compute; discriminate.
Qed.

(** The catalog has [state/bri] as an 8 bit number only; the sample sensor
    has no such item. *)
Lemma addItem_unknown_pair_witness :
  ~ In (ptr RStateBri) (suffixes sample_sensor) /\
  (forall d : ResourceItemDescriptor,
     In d (rItemDescriptors catalog) ->
     ~ (ptr (suffix d) = ptr RStateBri /\ type d = DataTypeBool)) /\
  addItem (host := plain_host 0) true catalog false sample_sensor DataTypeBool RStateBri
    = {| added := None; after_addItem := sample_sensor;
         debug_out := [DBG_Assert_failed;
                       DBG_Printf_ERROR_unknown DataTypeBool RStateBri] |}.
Proof.
  assert (H1 : ~ In (ptr RStateBri) (suffixes sample_sensor))
    by (simpl; intuition discriminate).
  assert (H2 : forall d : ResourceItemDescriptor,
             In d (rItemDescriptors catalog) ->
             ~ (ptr (suffix d) = ptr RStateBri /\ type d = DataTypeBool))
    by (apply addItem_loop_None; reflexivity).
  split; [exact H1|]. split; [exact H2|].
  exact (proj1 (addItem_unknown_pair (host := plain_host 0) true catalog false
                  sample_sensor DataTypeBool RStateBri H1 H2)).
Defined.

(** Clearing a battery item that holds 50. *)
Lemma setVariant_invalid_clears_only_timestamps_witness :
  QVariant_isValid QVariant_null = false /\
  toNumber
    (snd (setValue_QVariant (host := plain_host 0) 20 QVariant_null
            (snd (setValue_qint64 10 50 (ResourceItem_ctor true battery_descriptor)))))
  = 50.
Proof.
  split; [reflexivity|].
  destruct (setVariant_invalid_clears_only_timestamps (host := plain_host 0)
              catalog 20 QVariant_null
              (snd (setValue_qint64 10 50 (ResourceItem_ctor true battery_descriptor)))
              eq_refl)
    as (_ & _ & _ & _ & _ & _ & _ & _ & H & _).
  rewrite H. reflexivity.
Defined.

(** ** Further properties of ResourceItem *)

Section MoreItemProperties.

Context {host : QtHost}.
Variable m_isPublic_init : bool.

Lemma setValue_QString_rejected (clock : Z) (s : string) (it : ResourceItem) :
  fst (setValue_QString clock s it) = false -> snd (setValue_QString clock s it) = it.
Proof.
  unfold setValue_QString. destruct (m_str it); [|reflexivity].
  destruct (negb _); discriminate.
Qed.

Lemma setValue_QVariant_rejected (clock : Z) (v : QVariant) (it : ResourceItem) :
  fst (setValue_QVariant clock v it) = false ->
  snd (setValue_QVariant clock v it) = it.
Proof.
  unfold setValue_QVariant.
  destruct (negb (QVariant_isValid v)); [discriminate|].
  destruct (m_str it); destruct (type (m_rid it));
    try destruct (negb (String.eqb _ _));
    try destruct (QVariant_toInt v) as [n [|]];
    try destruct (_ && _); try destruct (_ && _);
    try destruct (QVariant_type v); try destruct (dt_isValid _);
    cbn [fst snd]; intros H; try discriminate H; reflexivity.
Qed.

(** X1.  A write that a setter turns down changes nothing: when
    [setValue(QString)], [setValue(qint64)] or [setValue(QVariant)] returns
    false, the item is exactly as before. *)
Theorem rejected_write_changes_nothing (clock : Z) (it : ResourceItem) :
  (forall s : string,
     fst (setValue_QString clock s it) = false ->
     snd (setValue_QString clock s it) = it) /\
  (forall n : Z,
     fst (setValue_qint64 clock n it) = false ->
     snd (setValue_qint64 clock n it) = it) /\
  (forall v : QVariant,
     fst (setValue_QVariant clock v it) = false ->
     snd (setValue_QVariant clock v it) = it).
Proof.
  split; [|split].
  - intros s. apply setValue_QString_rejected.
  - intros n. apply setValue_qint64_rejected.
  - intros v. apply setValue_QVariant_rejected.
Qed.

(** X2.  On an item of a numeric type a valid variant is written like the
    number it converts to: when [toInt] succeeds with [n] the call does what
    [setValue(qint64)] does with [n], range check included, and when [toInt]
    fails the call fails. *)
Theorem setValue_QVariant_number_as_qint64
  (clock : Z) (v : QVariant) (it : ResourceItem) :
  is_number_type (type (descriptor it)) = true ->
  QVariant_isValid v = true ->
  (forall n : Z,
     QVariant_toInt v = (n, true) ->
     setValue_QVariant clock v it = setValue_qint64 clock n it) /\
  (forall n : Z,
     QVariant_toInt v = (n, false) ->
     setValue_QVariant clock v it = (false, it)).
Proof.
  unfold descriptor. intros Ht Hv.
  assert (E : setValue_QVariant clock v it =
              let '(n, ok) := QVariant_toInt v in
              if ok then
                if (validMin (m_rid it) =? 0) && (validMax (m_rid it) =? 0)
                then (true, store_number (currentDateTime clock) n it)
                else if (n >=? validMin (m_rid it)) && (n <=? validMax (m_rid it))
                then (true, store_number (currentDateTime clock) n it)
                else (false, it)
              else (false, it)).
  { unfold setValue_QVariant. rewrite Hv. cbn [negb].
    destruct (type (m_rid it)); try discriminate Ht; reflexivity. }
  rewrite E. split; intros n Hn; rewrite Hn; [|reflexivity].
  unfold setValue_qint64.
  destruct (Z.eqb_spec (validMin (m_rid it)) 0);
  destruct (Z.eqb_spec (validMax (m_rid it)) 0);
  destruct (Z.geb_spec n (validMin (m_rid it)));
  destruct (Z.leb_spec n (validMax (m_rid it)));
  destruct (Z.ltb_spec n (validMin (m_rid it)));
  destruct (Z.gtb_spec n (validMax (m_rid it)));
  cbn [negb orb andb]; try reflexivity; lia.
Qed.

(** X3.  On an item of type String or TimePattern a valid variant is
    written like the text it converts to: the call does what
    [setValue(QString)] does with [val.toString()]. *)
Theorem setValue_QVariant_text_as_QString
  (clock : Z) (v : QVariant) (it : ResourceItem) :
  is_text_type (type (descriptor it)) = true ->
  QVariant_isValid v = true ->
  setValue_QVariant clock v it = setValue_QString clock (QVariant_toString v) it.
Proof.
  unfold descriptor, setValue_QVariant, setValue_QString. intros Ht ->.
  cbn [negb].
  destruct (type (m_rid it)); try discriminate Ht;
    destruct (m_str it); try reflexivity;
    destruct (negb (String.eqb _ _)); reflexivity.
Qed.

Lemma toVariant_bool (g : Globals) (it : ResourceItem) :
  type (descriptor it) = DataTypeBool -> dt_isValid (lastSet it) = true ->
  fst (toVariant g it) = QVariant_bool (toBool it).
Proof.
  unfold toVariant, descriptor, lastSet, toBool. intros -> ->. reflexivity.
Qed.

(** X4.  On an item of type Bool every valid variant is accepted, without
    any range check: the item then stores 1 or 0 for [val.toBool()], keeps
    the former number as the previous one, and [toBool] and [toVariant] give
    the written boolean back. *)
Theorem setValue_QVariant_bool_read_back
  (g : Globals) (clock : Z) (v : QVariant) (it : ResourceItem) :
  type (descriptor it) = DataTypeBool ->
  QVariant_isValid v = true ->
  fst (setValue_QVariant clock v it) = true /\
  toNumber (snd (setValue_QVariant clock v it)) = Z.b2z (QVariant_toBool v) /\
  toNumberPrevious (snd (setValue_QVariant clock v it)) = toNumber it /\
  toBool (snd (setValue_QVariant clock v it)) = QVariant_toBool v /\
  fst (toVariant g (snd (setValue_QVariant clock v it)))
    = QVariant_bool (QVariant_toBool v).
Proof.
  intros Ht Hv.
  assert (E : setValue_QVariant clock v it =
              (true, store_number (currentDateTime clock)
                       (Z.b2z (QVariant_toBool v)) it)).
  { unfold setValue_QVariant. rewrite Hv. unfold descriptor in Ht.
    rewrite Ht. reflexivity. }
  rewrite E. cbn [fst snd].
  assert (Hb : toBool (store_number (currentDateTime clock)
                         (Z.b2z (QVariant_toBool v)) it) = QVariant_toBool v).
  { unfold toBool. rewrite store_number_num. now destruct (QVariant_toBool v). }
  split; [reflexivity|]. split; [apply store_number_num|].
  split; [apply store_number_numPrev|]. split; [exact Hb|].
  rewrite toVariant_bool, Hb; [reflexivity| |].
  - unfold descriptor.
    destruct (store_number_frame (currentDateTime clock)
                (Z.b2z (QVariant_toBool v)) it) as (_ & -> & _).
    exact Ht.
  - unfold lastSet. now rewrite store_number_lastSet.
Qed.

(** X5.  A number that [setValue(qint64)] accepts is read back by
    [toNumber]; [toNumberPrevious] then is the number stored before the
    call, and [toBool] tells whether the number is not zero.  The previous
    number is replaced on every accepted call: after a second write of the
    same number, previous and current number are equal. *)
Theorem setValue_qint64_read_back (clock n : Z) (it it' : ResourceItem) :
  setValue_qint64 clock n it = (true, it') ->
  toNumber it' = n /\
  toNumberPrevious it' = toNumber it /\
  toBool it' = negb (n =? 0) /\
  (forall (clock2 : Z) (it'' : ResourceItem),
     setValue_qint64 clock2 n it' = (true, it'') ->
     toNumber it'' = n /\ toNumberPrevious it'' = n).
Proof.
  intros H. apply setValue_qint64_accepted in H. subst it'.
  unfold toNumber, toNumberPrevious, toBool.
  rewrite store_number_num, store_number_numPrev.
  split; [reflexivity|]. split; [reflexivity|]. split; [reflexivity|].
  intros clock2 it'' H2. apply setValue_qint64_accepted in H2. subst it''.
  rewrite store_number_num, store_number_numPrev, store_number_num. now split.
Qed.

(** X6.  On an item of type String or TimePattern that has its buffer a
    text written by [setValue(QString)] is accepted and read back by
    [toString] and, as a variant, by [toVariant]; the numbers are left
    alone. *)
Theorem setValue_QString_read_back
  (g : Globals) (clock : Z) (s : string) (it : ResourceItem) :
  is_text_type (type (descriptor it)) = true ->
  buffer_matches_type it ->
  fst (setValue_QString clock s it) = true /\
  fst (toString g (snd (setValue_QString clock s it))) = s /\
  fst (toVariant g (snd (setValue_QString clock s it))) = QVariant_QString s /\
  toNumber (snd (setValue_QString clock s it)) = toNumber it /\
  toNumberPrevious (snd (setValue_QString clock s it)) = toNumberPrevious it.
Proof.
  unfold buffer_matches_type, descriptor. intros Ht Hb.
  assert (Hstr : m_str it <> None)
    by (apply Hb; destruct (type (m_rid it)); try discriminate Ht; reflexivity).
  destruct (m_str it) as [old|] eqn:E; [clear Hstr Hb|congruence].
  unfold setValue_QString. rewrite E.
  destruct (String.eqb_spec old s) as [->|Hne]; cbn [negb fst snd];
    unfold toString, toVariant; simpl; rewrite ?E;
    destruct (type (m_rid it)); try discriminate Ht; repeat split.
Qed.

(** X7.  [setValue(QString)] succeeds exactly on the items that have a text
    buffer, for a constructed item those of type String, Time or
    TimePattern.  On a time item the accepted text does not reach the
    readers: [toString] still prints the number, which is unchanged. *)
Theorem setValue_QString_by_type
  (g : Globals) (clock : Z) (s : string) (it : ResourceItem) :
  buffer_matches_type it ->
  (fst (setValue_QString clock s it) = true <->
   has_string_buffer (type (descriptor it)) = true) /\
  (type (descriptor it) = DataTypeTime ->
   fst (toString g (snd (setValue_QString clock s it))) = fst (toString g it) /\
   toNumber (snd (setValue_QString clock s it)) = toNumber it).
Proof.
  unfold buffer_matches_type, descriptor. intros Hb. split.
  - rewrite <- Hb. unfold setValue_QString.
    destruct (m_str it); [destruct (negb _)|]; cbn [fst]; split; congruence.
  - intros Ht. rewrite Ht in Hb.
    assert (Hstr : m_str it <> None) by (now apply Hb).
    destruct (m_str it) as [old|] eqn:E; [|congruence].
    unfold setValue_QString. rewrite E.
    destruct (negb (String.eqb old s)); cbn [snd];
      unfold toString; simpl; rewrite Ht, ?E; split; reflexivity.
Qed.

Lemma toString_again (g : Globals) (it : ResourceItem) :
  toString g (snd (toString g it)) = (fst (toString g it), snd (toString g it)).
Proof.
  unfold toString. destruct (type (m_rid it)) eqn:Ht;
    destruct (m_str it) eqn:E; cbn [fst snd]; rewrite ?Ht, ?E; try reflexivity.
  simpl. rewrite Ht. reflexivity.
Qed.

Lemma toString_readings (g : Globals) (it : ResourceItem) :
  same_readings g it (snd (toString g it)).
Proof.
  unfold same_readings. rewrite toString_again. cbn [fst].
  assert (H : snd (toString g it) = it \/
              (type (m_rid it) = DataTypeTime /\ m_str it <> None /\
               snd (toString g it) = with_m_str it (Some (fst (toString g it))))).
  { unfold toString. destruct (type (m_rid it)) eqn:Ht;
      destruct (m_str it) eqn:E; cbn [fst snd]; auto.
    right. repeat split. discriminate. }
  destruct H as [->|(Ht & Hs & ->)]; [repeat split|].
  repeat split.
  unfold toVariant. cbn [m_lastSet with_m_str m_rid m_num].
  destruct (negb (dt_isValid (m_lastSet it))); [reflexivity|].
  rewrite Ht.
  change (toString g (with_m_str it (Some (fst (toString g it)))))
    with (toString g (with_m_str it (Some (fst (toString g it))))).
  assert (E : toString g (with_m_str it (Some (fst (toString g it)))) =
              (fst (toString g it), with_m_str it (Some (fst (toString g it))))).
  { unfold toString at 1. cbn [m_rid with_m_str m_str m_num]. rewrite Ht.
    unfold toString. rewrite Ht. destruct (m_str it); [reflexivity|congruence]. }
  rewrite E. now destruct (toString g it).
Qed.

(** X8.  [toString] may write the buffer of a time item, and nothing else:
    the item afterwards reads the same through every reader, and a second
    call returns the same text and leaves the item as the first call left
    it. *)
Theorem toString_keeps_readings (g : Globals) (it : ResourceItem) :
  same_readings g it (snd (toString g it)) /\
  toString g (snd (toString g it)) = (fst (toString g it), snd (toString g it)) /\
  (type (descriptor it) <> DataTypeTime -> snd (toString g it) = it).
Proof.
  split; [apply toString_readings|]. split; [apply toString_again|].
  unfold descriptor, toString.
  destruct (type (m_rid it)); destruct (m_str it); cbn [snd];
    intros H; try reflexivity; now elim H.
Qed.

Lemma same_readings_refl (g : Globals) (x : ResourceItem) : same_readings g x x.
Proof. unfold same_readings. repeat split. Qed.

Lemma same_readings_trans (g : Globals) (x y z : ResourceItem) :
  same_readings g x y -> same_readings g y z -> same_readings g x z.
Proof.
  unfold same_readings.
  intros (A1 & A2 & A3 & A4 & A5 & A6 & A7 & A8 & A9 & A10)
         (B1 & B2 & B3 & B4 & B5 & B6 & B7 & B8 & B9 & B10).
  repeat split; congruence.
Qed.

Lemma ResourceItem_assign_readings (g : Globals) (this other : ResourceItem) :
  same_readings g other (fst (ResourceItem_assign g false this other)).
Proof.
  unfold same_readings, ResourceItem_assign, lastSet, lastChanged,
    rulesInvolved, isPublic, descriptor, toNumber, toNumberPrevious, toBool.
  destruct (m_str other) as [s|] eqn:E.
  - destruct (toString g other) as [txt other'] eqn:Et. cbn [fst].
    assert (Htxt : txt = fst (toString g other)) by now rewrite Et.
    clear Et. subst txt. simpl.
    repeat split.
    + unfold toString. simpl. rewrite E.
      destruct (type (m_rid other)) eqn:Ht; try reflexivity.
    + unfold toVariant. simpl.
      destruct (negb (dt_isValid (m_lastSet other))); [reflexivity|].
      unfold toString. simpl. rewrite E.
      destruct (type (m_rid other)) eqn:Ht; try reflexivity.
  - simpl. repeat split.
    + unfold toString. simpl. rewrite E.
      destruct (type (m_rid other)); reflexivity.
    + unfold toVariant, toString. simpl. rewrite E.
      destruct (negb (dt_isValid (m_lastSet other)));
        destruct (type (m_rid other)); reflexivity.
Qed.

Lemma ResourceItem_assign_other_readings (g : Globals) (this other : ResourceItem) :
  same_readings g other (snd (ResourceItem_assign g false this other)).
Proof.
  unfold ResourceItem_assign. destruct (m_str other); [|apply same_readings_refl].
  pose proof (toString_readings g other) as H.
  now destruct (toString g other).
Qed.

(** X9.  [operator=] and the copy constructor hand over every reading: the
    assigned item and the copy have the descriptor, numbers, timestamps,
    rules and visibility of the source and the same text and variant, and
    the source reads as before.  An assignment of an item to itself changes
    nothing. *)
Theorem ResourceItem_assign_same_readings (g : Globals) (this other : ResourceItem) :
  same_readings g other (fst (ResourceItem_assign g false this other)) /\
  same_readings g other (snd (ResourceItem_assign g false this other)) /\
  same_readings g other (fst (ResourceItem_copy g other)) /\
  same_readings g other (snd (ResourceItem_copy g other)) /\
  ResourceItem_assign g true other other = (other, other).
Proof.
  repeat split;
    try apply ResourceItem_assign_readings;
    try apply ResourceItem_assign_other_readings.
Qed.

Lemma inRule_loop_found (r : Z) (l : list Z) :
  0 <= r < 65536 -> In r l -> inRule_loop r l = true.
Proof.
  intros Hr. induction l as [|x l IH]; simpl; [tauto|].
  intros [->|Hin].
  - unfold to_quint16. rewrite Z.mod_small by exact Hr. now rewrite Z.eqb_refl.
  - destruct (to_quint16 x =? r); [reflexivity|now apply IH].
Qed.

(** X10.  [inRule] never removes or reorders a handle and touches no other
    member: the handles afterwards are the handles before, followed by the
    new handle or by nothing.  A handle between 0 and 65535 that is already
    stored is never stored again. *)
Theorem inRule_only_appends (r : Z) (it : ResourceItem) :
  (inRule r it = it \/
   inRule r it = with_m_rulesInvolved it (rulesInvolved it ++ [r])) /\
  (exists tail : list Z,
     rulesInvolved (inRule r it) = rulesInvolved it ++ tail /\
     (tail = [] \/ tail = [r])) /\
  descriptor (inRule r it) = descriptor it /\
  stored_value (inRule r it) = stored_value it /\
  toNumberPrevious (inRule r it) = toNumberPrevious it /\
  lastSet (inRule r it) = lastSet it /\
  lastChanged (inRule r it) = lastChanged it /\
  isPublic (inRule r it) = isPublic it /\
  (0 <= r < 65536 -> In r (rulesInvolved it) -> inRule r it = it).
Proof.
  unfold inRule, rulesInvolved.
  split; [|split].
  - destruct (inRule_loop r (m_rulesInvolved it)); auto.
  - destruct (inRule_loop r (m_rulesInvolved it)).
    + exists []. rewrite app_nil_r. auto.
    + exists [r]. auto.
  - destruct (inRule_loop r (m_rulesInvolved it)) eqn:E; repeat split.
    all: intros Hr Hin; rewrite (inRule_loop_found r _ Hr Hin) in E; discriminate.
Qed.

End MoreItemProperties.

(** ** Further properties of Resource *)

Section MoreResourceProperties.

Context {host : QtHost}.
Variable m_isPublic_init : bool.

Local Open Scope nat_scope.

Lemma item_loop_keys (s : CString) (l l' : list ResourceItem) (i : nat) :
  map item_key l = map item_key l' -> item_loop s l i = item_loop s l' i.
Proof.
  revert l' i. induction l as [|x l IH]; intros [|x' l'] i H; simpl in H;
    try discriminate; [reflexivity|].
  inversion H as [[Hx Hl]]. simpl. unfold ptr_eqb. unfold item_key in Hx.
  rewrite Hx. destruct (N.eqb _ _); [reflexivity|now apply IH].
Qed.

Lemma item_loop_nth (s : CString) (l : list ResourceItem) (j : nat) :
  item_loop s l 0 = Some j -> nth_error (map item_key l) j = Some (ptr s).
Proof.
  intros H. destruct (item_loop_Some_split s l j H) as (l1 & x & l2 & -> & <- & Hx & _).
  rewrite map_app, nth_error_app2 by (rewrite length_map; lia).
  rewrite length_map, Nat.sub_diag. simpl. now rewrite Hx.
Qed.

Lemma item_loop_NoDup (s : CString) (l : list ResourceItem) (j : nat) :
  NoDup (map item_key l) ->
  nth_error (map item_key l) j = Some (ptr s) -> item_loop s l 0 = Some j.
Proof.
  intros Hnd Hj.
  destruct (item_loop s l 0) as [j'|] eqn:E.
  - f_equal. pose proof (item_loop_nth s l j' E) as Hj'.
    apply (proj1 (NoDup_nth_error _) Hnd).
    + apply nth_error_Some. congruence.
    + congruence.
  - apply item_loop_None_iff in E. elim E. eapply nth_error_In. exact Hj.
Qed.

(** X11.  What [item] returns points into the vector: the index is below
    [itemCount], [itemForIndex] accepts it, the item there has the suffix
    asked for and no item before it has.  [item] returns null exactly when
    no item has the suffix, and [itemForIndex] returns null exactly for the
    indices from [itemCount] on. *)
Theorem item_points_to_first (r : Resource) (s : CString) :
  (forall i : nat,
     item r s = Some i ->
     i < length (m_rItems r) /\
     itemForIndex r i = Some i /\
     (exists it : ResourceItem,
        nth_error (m_rItems r) i = Some it /\ item_key it = ptr s) /\
     (forall (j : nat) (it : ResourceItem),
        j < i -> nth_error (m_rItems r) j = Some it -> item_key it <> ptr s)) /\
  (item r s = None <-> ~ In (ptr s) (suffixes r)) /\
  (forall idx : nat,
     itemForIndex r idx = None <-> (itemCount r <= Z.of_nat idx)%Z) /\
  (forall idx : nat,
     itemForIndex r idx = Some idx <-> (Z.of_nat idx < itemCount r)%Z).
Proof.
  split; [|split; [|split]].
  - intros i Hi. unfold item in Hi.
    destruct (item_loop_Some_split s _ i Hi) as (l1 & x & l2 & Hl & Hlen & Hx & Hl1).
    assert (Hlt : i < length (m_rItems r))
      by (rewrite Hl, length_app; simpl; lia).
    split; [exact Hlt|]. split; [|split].
    + unfold itemForIndex. now apply Nat.ltb_lt in Hlt as ->.
    + exists x. split; [|exact Hx].
      rewrite Hl, nth_error_app2, <- Hlen, Nat.sub_diag by lia. reflexivity.
    + intros j it Hj Hnth Hkey. apply Hl1. rewrite <- Hkey.
      apply in_map. rewrite Hl, nth_error_app1 in Hnth by lia.
      eapply nth_error_In. exact Hnth.
  - apply item_loop_None_iff.
  - intros idx. unfold itemForIndex, itemCount.
    destruct (Nat.ltb_spec idx (length (m_rItems r))); split;
      intros; try discriminate; try reflexivity; lia.
  - intros idx. unfold itemForIndex, itemCount.
    destruct (Nat.ltb_spec idx (length (m_rItems r))); split;
      intros; try discriminate; try reflexivity; lia.
Qed.

Lemma item_absent (r : Resource) (s : CString) :
  ~ In (ptr s) (suffixes r) -> item r s = None.
Proof. apply item_loop_None_iff. Qed.

(** X12.  The readers of a resource answer for a suffix that is absent
    with false, 0 and the invalid string, and for a suffix that is present
    with the value of the item that [item] finds.  A suffix just removed
    reads like an absent one; an item just added reads false and 0, like an
    absent one. *)
Theorem Resource_readers_by_suffix (g : Globals) (r : Resource) (s : CString) :
  (~ In (ptr s) (suffixes r) ->
   Resource_toBool r s = false /\
   Resource_toNumber r s = 0%Z /\
   Resource_toString g r s = (invalid_string g, r)) /\
  (forall (i : nat) (it : ResourceItem),
     item r s = Some i -> nth_error (m_rItems r) i = Some it ->
     Resource_toBool r s = toBool it /\
     Resource_toNumber r s = toNumber it /\
     fst (Resource_toString g r s) = fst (toString g it)) /\
  (one_item_per_suffix r ->
   Resource_toBool (removeItem g r s) s = false /\
   Resource_toNumber (removeItem g r s) s = 0%Z /\
   fst (Resource_toString g (removeItem g r s) s) = invalid_string g) /\
  (forall (grows : bool) (t : ApiDataType),
     ~ In (ptr s) (suffixes r) ->
     Resource_toBool (after_addItem (addItem m_isPublic_init g grows r t s)) s
       = false /\
     Resource_toNumber (after_addItem (addItem m_isPublic_init g grows r t s)) s
       = 0%Z).
Proof.
  split; [|split; [|split]].
  - intros H. apply item_absent in H.
    unfold Resource_toBool, Resource_toNumber, Resource_toString.
    rewrite H. auto.
  - intros i it Hi Hn.
    unfold Resource_toBool, Resource_toNumber, Resource_toString.
    rewrite Hi, Hn. repeat split. now destruct (toString g it).
  - intros Hr.
    assert (H : item (removeItem g r s) s = None).
    { apply item_absent.
      destruct (in_dec N.eq_dec (ptr s) (suffixes r)) as [Hin|Hout];
        [|now rewrite removeItem_absent].
      destruct (removeItem_cases g r s Hin)
        as (l1 & this & _ & Hk & Hl1 & [[Hl Hl']|(l2 & back & Hl & Hl')]);
        unfold suffixes; rewrite Hl'; [exact Hl1|].
      unfold one_item_per_suffix, suffixes in Hr. rewrite Hl in Hr.
      rewrite map_app in *. cbn [map] in *. rewrite map_app in Hr.
      cbn [map] in Hr. apply NoDup_remove_2 in Hr. rewrite Hk in Hr.
      replace (item_key (fst (ResourceItem_assign g false this back)))
        with (item_key back)
        by (unfold item_key; now rewrite ResourceItem_assign_descriptor).
      intros Hin'. apply Hr. apply in_app_or in Hin'.
      apply in_or_app. destruct Hin' as [H|[H|H]]; [now left| |].
      - right. apply in_or_app. right. left. exact H.
      - right. apply in_or_app. left. exact H. }
    unfold Resource_toBool, Resource_toNumber, Resource_toString.
    rewrite H. auto.
  - intros grows t Hout. pose proof (item_absent r s Hout) as Hi.
    unfold addItem. rewrite Hi.
    destruct (addItem_loop (rItemDescriptors g) t s) as [d|] eqn:Ed; cbn [after_addItem].
    + apply addItem_loop_Some in Ed. destruct Ed as (_ & Hd & _).
      assert (Hk : ~ In (ptr s)
                (map item_key (if grows then vector_copy g (m_rItems r) else m_rItems r)))
        by (rewrite grown_keys; exact Hout).
      assert (Hit : item_loop s
                ((if grows then vector_copy g (m_rItems r) else m_rItems r)
                 ++ [ResourceItem_ctor m_isPublic_init d]) 0
              = Some (length (if grows then vector_copy g (m_rItems r) else m_rItems r)))
        by (apply item_loop_split; [exact Hk|exact Hd]).
      unfold Resource_toBool, Resource_toNumber, item. cbn [m_rItems].
      rewrite Hit, nth_error_app2, Nat.sub_diag by lia. split; reflexivity.
    + unfold Resource_toBool, Resource_toNumber. rewrite Hi. auto.
Qed.

Lemma item_loop_app_other (s : CString) (l : list ResourceItem) (x : ResourceItem) :
  item_key x <> ptr s -> item_loop s (l ++ [x]) 0 = item_loop s l 0.
Proof.
  intros Hx. destruct (item_loop s l 0) as [j|] eqn:E.
  - destruct (item_loop_Some_split s l j E) as (l1 & y & l2 & -> & <- & Hy & Hl1).
    rewrite <- app_assoc. simpl. now apply item_loop_split.
  - apply item_loop_None_iff. apply item_loop_None_iff in E.
    rewrite map_app. intros H. apply in_app_or in H.
    destruct H as [H|[H|[]]]; [now apply E|now apply Hx].
Qed.

Lemma grown_nth (g : Globals) (grows : bool) (l : list ResourceItem)
  (j : nat) (x : ResourceItem) :
  nth_error l j = Some x ->
  exists x' : ResourceItem,
    nth_error (if grows then vector_copy g l else l) j = Some x' /\
    same_readings g x x'.
Proof.
  intros H. destruct grows.
  - exists (fst (ResourceItem_copy g x)). split.
    + unfold vector_copy. now rewrite nth_error_map, H.
    + apply ResourceItem_assign_readings.
  - exists x. split; [exact H|apply same_readings_refl].
Qed.

(** X13.  [addItem] with a suffix that is absent and a pair of type and
    suffix that the table has puts one new item at the end of the vector:
    it is the item constructed from a descriptor of the table with this
    pair, [item] finds it, [itemCount] grows by one, nothing is written to
    the debug channel, every other suffix is found where it was, and the
    items that were there read as before. *)
Theorem addItem_appends_new_item (g : Globals) (grows : bool) (r : Resource)
  (t : ApiDataType) (s : CString) :
  ~ In (ptr s) (suffixes r) ->
  (exists d : ResourceItemDescriptor,
     In d (rItemDescriptors g) /\ ptr (suffix d) = ptr s /\ type d = t) ->
  let a := addItem m_isPublic_init g grows r t s in
  (exists d : ResourceItemDescriptor,
     In d (rItemDescriptors g) /\ ptr (suffix d) = ptr s /\ type d = t /\
     nth_error (m_rItems (after_addItem a)) (length (m_rItems r))
       = Some (ResourceItem_ctor m_isPublic_init d)) /\
  added a = Some (length (m_rItems r)) /\
  item (after_addItem a) s = Some (length (m_rItems r)) /\
  itemCount (after_addItem a) = (itemCount r + 1)%Z /\
  debug_out a = [] /\
  (forall s' : CString, ptr s' <> ptr s -> item (after_addItem a) s' = item r s') /\
  (forall (j : nat) (x : ResourceItem),
     nth_error (m_rItems r) j = Some x ->
     exists x' : ResourceItem,
       nth_error (m_rItems (after_addItem a)) j = Some x' /\
       same_readings g x x').
Proof.
  intros Hout Hex. pose proof (item_absent r s Hout) as Hi.
  destruct (addItem_loop (rItemDescriptors g) t s) as [d|] eqn:Ed.
  2:{ destruct Hex as (d & Hd). exfalso.
      apply (proj1 (addItem_loop_None _ _ _) Ed d); tauto. }
  pose proof (addItem_loop_Some _ _ _ _ Ed) as (Hin & Hp & Ht).
  cbv zeta. unfold addItem. rewrite Hi, Ed. cbn [added after_addItem debug_out m_rItems].
  set (items := if grows then vector_copy g (m_rItems r) else m_rItems r).
  assert (Hlen : length items = length (m_rItems r)).
  { rewrite <- (length_map item_key items). unfold items.
    rewrite grown_keys. apply length_map. }
  assert (Hk : map item_key items = map item_key (m_rItems r))
    by apply grown_keys.
  split; [|split; [|split; [|split; [|split; [|split]]]]].
  - exists d. repeat split; auto.
    rewrite nth_error_app2, Hlen, Nat.sub_diag by lia. reflexivity.
  - reflexivity.
  - unfold item. cbn [m_rItems]. rewrite <- Hlen.
    apply item_loop_split; [now rewrite Hk|exact Hp].
  - unfold itemCount. cbn [m_rItems]. rewrite length_app, Hlen. simpl. lia.
  - reflexivity.
  - intros s' Hs'. unfold item. cbn [m_rItems].
    rewrite item_loop_app_other by (unfold item_key; simpl; congruence).
    now apply item_loop_keys.
  - intros j x Hj. destruct (grown_nth g grows _ j x Hj) as (x' & Hx' & Hr).
    exists x'. split; [|exact Hr]. fold items in Hx'.
    rewrite nth_error_app1; [exact Hx'|].
    apply nth_error_Some. congruence.
Qed.

Lemma addItem_loop_own (l : list ResourceItemDescriptor) (d : ResourceItemDescriptor) :
  NoDup (map (fun d => ptr (suffix d)) l) -> In d l ->
  addItem_loop l (type d) (suffix d) = Some d /\
  (forall t : ApiDataType, t <> type d -> addItem_loop l t (suffix d) = None).
Proof.
  intros Hnd Hin. split.
  - destruct (addItem_loop l (type d) (suffix d)) as [d'|] eqn:E.
    + apply addItem_loop_Some in E. destruct E as (Hin' & Hp & _). f_equal.
      destruct (In_nth_error _ _ Hin) as (i & Hi).
      destruct (In_nth_error _ _ Hin') as (i' & Hi').
      assert (i' = i).
      { apply (proj1 (NoDup_nth_error _) Hnd).
        - rewrite length_map. apply nth_error_Some. congruence.
        - rewrite !nth_error_map, Hi, Hi'. simpl. now rewrite Hp. }
      congruence.
    + exfalso. apply (proj1 (addItem_loop_None _ _ _) E d Hin). auto.
  - intros t Ht. apply addItem_loop_None. intros d' Hin' [Hp Ht'].
    destruct (In_nth_error _ _ Hin) as (i & Hi).
    destruct (In_nth_error _ _ Hin') as (i' & Hi').
    assert (i' = i).
    { apply (proj1 (NoDup_nth_error _) Hnd).
      - rewrite length_map. apply nth_error_Some. congruence.
      - rewrite !nth_error_map, Hi, Hi'. simpl. now rewrite Hp. }
    subst i'. congruence.
Qed.

(** X14.  When the suffixes of the table are pairwise different pointers,
    as they are in the catalog, every entry of the table can be added under
    its own type and suffix and gives the item of exactly that descriptor,
    and a request for its suffix under any other type is refused with the
    assertion. *)
Theorem addItem_by_table_entry (g : Globals) (grows : bool) (r : Resource)
  (d : ResourceItemDescriptor) :
  NoDup (map (fun d => ptr (suffix d)) (rItemDescriptors g)) ->
  In d (rItemDescriptors g) ->
  ~ In (ptr (suffix d)) (suffixes r) ->
  (let a := addItem m_isPublic_init g grows r (type d) (suffix d) in
   added a = Some (length (m_rItems r)) /\
   nth_error (m_rItems (after_addItem a)) (length (m_rItems r))
     = Some (ResourceItem_ctor m_isPublic_init d) /\
   debug_out a = []) /\
  (forall t : ApiDataType,
     t <> type d ->
     addItem m_isPublic_init g grows r t (suffix d) =
     {| added := None; after_addItem := r;
        debug_out := [DBG_Assert_failed; DBG_Printf_ERROR_unknown t (suffix d)] |}).
Proof.
  intros Hnd Hin Hout. pose proof (item_absent r _ Hout) as Hi.
  destruct (addItem_loop_own _ d Hnd Hin) as [Hown Hother].
  split.
  - cbv zeta. unfold addItem. rewrite Hi, Hown.
    cbn [added after_addItem debug_out m_rItems].
    split; [reflexivity|]. split; [|reflexivity].
    assert (Hlen : length (if grows then vector_copy g (m_rItems r) else m_rItems r)
                   = length (m_rItems r)).
    { rewrite <- (length_map item_key (if grows then _ else _)), grown_keys.
      apply length_map. }
    rewrite nth_error_app2, Hlen, Nat.sub_diag by lia. reflexivity.
  - intros t Ht. unfold addItem. now rewrite Hi, (Hother t Ht).
Qed.

Lemma removeItem_keeps_each (g : Globals) (r : Resource) (s s' : CString)
  (j : nat) (x : ResourceItem) :
  one_item_per_suffix r -> ptr s' <> ptr s ->
  item r s' = Some j -> nth_error (m_rItems r) j = Some x ->
  exists (j' : nat) (x' : ResourceItem),
    item (removeItem g r s) s' = Some j' /\
    nth_error (m_rItems (removeItem g r s)) j' = Some x' /\
    same_readings g x x'.
Proof.
  intros Hr Hne Hj Hx.
  destruct (in_dec N.eq_dec (ptr s) (suffixes r)) as [Hin|Hout].
  2:{ rewrite removeItem_absent by exact Hout. exists j, x.
      split; [exact Hj|]. split; [exact Hx|apply same_readings_refl]. }
  pose proof (removeItem_keeps_invariant g r s Hr) as Hr'.
  pose proof (item_loop_nth s' _ j Hj) as Hkj.
  assert (Hkx : item_key x = ptr s').
  { rewrite nth_error_map, Hx in Hkj. simpl in Hkj. congruence. }
  unfold one_item_per_suffix, suffixes, item in *.
  destruct (removeItem_cases g r s Hin)
    as (l1 & this & _ & Hk & Hl1 & [[Hl Hl']|(l2 & back & Hl & Hl')]);
    rewrite Hl' in *; rewrite Hl in *.
  - assert (Hlt : j < length l1).
    { destruct (Nat.lt_ge_cases j (length l1)) as [|Hge]; [assumption|].
      exfalso. rewrite nth_error_app2 in Hx by lia.
      destruct (j - length l1) as [|k]; simpl in Hx;
        [|destruct k; discriminate].
      inversion Hx; subst x. congruence. }
    rewrite nth_error_app1 in Hx by lia.
    exists j, x. split; [|split; [exact Hx|apply same_readings_refl]].
    apply item_loop_NoDup; [exact Hr'|].
    rewrite nth_error_map, Hx. simpl. now rewrite Hkx.
  - set (y := fst (ResourceItem_assign g false this back)) in *.
    assert (Hy : same_readings g back y) by apply ResourceItem_assign_readings.
    assert (Hky : item_key y = item_key back)
      by (unfold item_key, y; now rewrite ResourceItem_assign_descriptor).
    destruct (Nat.lt_ge_cases j (length l1)) as [Hlo|Hge].
    + rewrite nth_error_app1 in Hx by lia.
      exists j, x. split; [|split; [|apply same_readings_refl]].
      * apply item_loop_NoDup; [exact Hr'|].
        rewrite nth_error_map, nth_error_app1, Hx by lia. simpl. now rewrite Hkx.
      * rewrite nth_error_app1 by lia. exact Hx.
    + rewrite nth_error_app2 in Hx by lia.
      destruct (j - length l1) as [|k] eqn:Ek.
      * simpl in Hx. inversion Hx; subst x. congruence.
      * simpl in Hx.
        destruct (Nat.lt_ge_cases k (length l2)) as [Hk2|Hk2].
        -- rewrite nth_error_app1 in Hx by lia.
           exists j, x. split; [|split; [|apply same_readings_refl]].
           ++ apply item_loop_NoDup; [exact Hr'|].
              rewrite nth_error_map, nth_error_app2, Ek by lia. simpl.
              rewrite Hx. simpl. now rewrite Hkx.
           ++ rewrite nth_error_app2, Ek by lia. exact Hx.
        -- rewrite nth_error_app2 in Hx by lia.
           destruct (k - length l2) as [|k']; simpl in Hx;
             [|destruct k'; discriminate].
           inversion Hx; subst x.
           exists (length l1), y. split; [|split; [|exact Hy]].
           ++ apply item_loop_NoDup; [exact Hr'|].
              rewrite nth_error_map, nth_error_app2, Nat.sub_diag by lia.
              simpl. now rewrite Hky, Hkx.
           ++ rewrite nth_error_app2, Nat.sub_diag by lia. reflexivity.
Qed.

Lemma removeItem_suffixes (g : Globals) (r : Resource) (s : CString) :
  In (ptr s) (suffixes r) ->
  Permutation (suffixes r) (ptr s :: suffixes (removeItem g r s)).
Proof.
  intros Hin. unfold suffixes.
  destruct (removeItem_cases g r s Hin)
    as (l1 & this & _ & Hk & _ & [[Hl Hl']|(l2 & back & Hl & Hl')]);
    rewrite Hl', Hl.
  - rewrite map_app. simpl. rewrite Hk. symmetry. apply Permutation_cons_append.
  - rewrite !map_app. cbn [map]. rewrite map_app. cbn [map]. rewrite Hk.
    replace (item_key (fst (ResourceItem_assign g false this back)))
      with (item_key back)
      by (unfold item_key; now rewrite ResourceItem_assign_descriptor).
    symmetry. apply Permutation_cons_app.
    apply Permutation_app_head. apply Permutation_cons_append.
Qed.

(** X15.  [removeItem] takes away the item of the given suffix and no
    other: a suffix that is absent leaves the resource as it is; the
    suffixes afterwards are the former ones without the removed one; every
    other suffix is still found, maybe at another index, and its item reads
    as before; and a second [removeItem] of the same suffix changes
    nothing. *)
Theorem removeItem_keeps_other_items (g : Globals) (r : Resource) (s : CString) :
  one_item_per_suffix r ->
  (~ In (ptr s) (suffixes r) -> removeItem g r s = r) /\
  (In (ptr s) (suffixes r) ->
   Permutation (suffixes r) (ptr s :: suffixes (removeItem g r s))) /\
  (forall (s' : CString) (j : nat) (x : ResourceItem),
     ptr s' <> ptr s ->
     item r s' = Some j -> nth_error (m_rItems r) j = Some x ->
     exists (j' : nat) (x' : ResourceItem),
       item (removeItem g r s) s' = Some j' /\
       nth_error (m_rItems (removeItem g r s)) j' = Some x' /\
       same_readings g x x') /\
  (forall s' : CString,
     item r s' = None -> item (removeItem g r s) s' = None) /\
  removeItem g (removeItem g r s) s = removeItem g r s.
Proof.
  intros Hr.
  assert (Hgone : ~ In (ptr s) (suffixes (removeItem g r s))).
  { destruct (in_dec N.eq_dec (ptr s) (suffixes r)) as [Hin|Hout];
      [|now rewrite removeItem_absent].
    pose proof (removeItem_suffixes g r s Hin) as Hp.
    intros Hin'. unfold one_item_per_suffix in Hr.
    apply (Permutation_NoDup Hp) in Hr. now inversion Hr. }
  split; [apply removeItem_absent|]. split; [apply removeItem_suffixes|].
  split; [|split].
  - intros s' j x Hne Hj Hx.
    exact (removeItem_keeps_each g r s s' j x Hr Hne Hj Hx).
  - intros s' Hnone. apply item_loop_None_iff in Hnone.
    apply item_absent. intros Hin'. apply Hnone.
    destruct (in_dec N.eq_dec (ptr s) (suffixes r)) as [Hin|Hout];
      [|now rewrite removeItem_absent in Hin'].
    apply (Permutation_in _ (Permutation_sym (removeItem_suffixes g r s Hin))).
    now right.
  - now apply removeItem_absent.
Qed.

Lemma removeItem_holds_catalog_items (g : Globals) (r : Resource) (s : CString) :
  holds_catalog_items g r -> holds_catalog_items g (removeItem g r s).
Proof.
  intros H. destruct (in_dec N.eq_dec (ptr s) (suffixes r)) as [Hin|Hout];
    [|now rewrite removeItem_absent].
  unfold holds_catalog_items in *.
  destruct (removeItem_cases g r s Hin)
    as (l1 & this & _ & _ & _ & [[Hl Hl']|(l2 & back & Hl & Hl')]);
    rewrite Hl'; rewrite Hl in H.
  - apply Forall_app in H. tauto.
  - apply Forall_app in H. destruct H as [H1 H2].
    inversion H2 as [|? ? _ H3]; subst.
    apply Forall_app in H3. destruct H3 as [H3 H4].
    inversion H4; subst.
    apply Forall_app. split; [exact H1|]. constructor; [|exact H3].
    now rewrite ResourceItem_assign_descriptor.
Qed.

Lemma addItem_holds_catalog_items (g : Globals) (grows : bool) (r : Resource)
  (t : ApiDataType) (s : CString) :
  holds_catalog_items g r ->
  holds_catalog_items g (after_addItem (addItem m_isPublic_init g grows r t s)).
Proof.
  intros H. unfold addItem. destruct (item r s); [exact H|].
  destruct (addItem_loop (rItemDescriptors g) t s) as [d|] eqn:Ed; [|exact H].
  apply addItem_loop_Some in Ed. destruct Ed as (Hin & _).
  unfold holds_catalog_items in *. cbn [after_addItem m_rItems].
  apply Forall_app. split; [|constructor; [exact Hin|constructor]].
  destruct grows; [|exact H].
  unfold vector_copy. apply Forall_map.
  eapply Forall_impl; [|exact H]. intros x Hx. unfold ResourceItem_copy.
  now rewrite ResourceItem_assign_descriptor.
Qed.

(** X16.  A resource that is built from the empty one by [addItem] and
    [removeItem] holds only items of descriptors of the table, and, having
    at most one item per suffix, never more items than the table has
    entries. *)
Theorem itemCount_bounded_by_table (g : Globals) (grows : bool) (r : Resource)
  (t : ApiDataType) (s : CString) :
  holds_catalog_items g r ->
  one_item_per_suffix r ->
  (forall p : CString, holds_catalog_items g (Resource_ctor p)) /\
  holds_catalog_items g (after_addItem (addItem m_isPublic_init g grows r t s)) /\
  holds_catalog_items g (removeItem g r s) /\
  (itemCount r <= Z.of_nat (length (rItemDescriptors g)))%Z.
Proof.
  intros Hc Hr. split; [intros p; constructor|].
  split; [now apply addItem_holds_catalog_items|].
  split; [now apply removeItem_holds_catalog_items|].
  unfold itemCount. apply inj_le.
  rewrite <- (length_map item_key), <- (length_map (fun d => ptr (suffix d))).
  apply NoDup_incl_length; [exact Hr|].
  intros k Hk. apply in_map_iff in Hk. destruct Hk as (x & <- & Hx).
  unfold holds_catalog_items in Hc.
  rewrite Forall_forall in Hc. specialize (Hc x Hx).
  apply in_map_iff. exists (descriptor x). auto.
Qed.

(** X17.  The copy of a resource has the same prefix and as many items, it
    finds every suffix at the same index, and each of its items reads like
    the item it was copied from; the resource that was copied reads as
    before. *)
Theorem Resource_copy_same_readings (g : Globals) (r : Resource) :
  prefix (fst (Resource_copy g r)) = prefix r /\
  itemCount (fst (Resource_copy g r)) = itemCount r /\
  (forall s : CString, item (fst (Resource_copy g r)) s = item r s) /\
  (forall (j : nat) (x : ResourceItem),
     nth_error (m_rItems r) j = Some x ->
     exists x' x'' : ResourceItem,
       nth_error (m_rItems (fst (Resource_copy g r))) j = Some x' /\
       same_readings g x x' /\
       nth_error (m_rItems (snd (Resource_copy g r))) j = Some x'' /\
       same_readings g x x'').
Proof.
  unfold Resource_copy, prefix, itemCount, item. cbn [fst snd m_prefix m_rItems].
  split; [reflexivity|]. split; [|split].
  - unfold vector_copy. now rewrite length_map.
  - intros s. apply item_loop_keys. apply vector_copy_keys.
  - intros j x Hx.
    exists (fst (ResourceItem_copy g x)), (snd (ResourceItem_copy g x)).
    unfold vector_copy. rewrite !nth_error_map, Hx. cbn [option_map].
    repeat split;
      (apply ResourceItem_assign_readings || apply ResourceItem_assign_other_readings).
Qed.

End MoreResourceProperties.

(** ** Further properties of the catalog *)

Section MoreCatalogProperties.

Lemma ResourceItemDescriptor_eqb_eq (d d' : ResourceItemDescriptor) :
  ResourceItemDescriptor_eqb d d' = true -> d = d'.
Proof.
  unfold ResourceItemDescriptor_eqb.
  destruct d as [t [p c] lo hi], d' as [t' [p' c'] lo' hi']. simpl.
  rewrite !andb_true_iff. intros ((((Ht & Hp) & Hc) & Hlo) & Hhi).
  apply ApiDataType_eqb_eq in Ht. apply N.eqb_eq in Hp.
  apply String.eqb_eq in Hc. apply Z.eqb_eq in Hlo. apply Z.eqb_eq in Hhi.
  congruence.
Qed.

Lemma suffix_freeb_correct (l : list ResourceItemDescriptor) :
  suffix_freeb l = true -> suffix_free l.
Proof.
  unfold suffix_freeb, suffix_free. intros H d d' Hd Hd' He.
  rewrite forallb_forall in H. specialize (H d Hd).
  rewrite forallb_forall in H. specialize (H d' Hd').
  apply endsWith_spec in He. rewrite He in H. simpl in H.
  now apply ResourceItemDescriptor_eqb_eq.
Qed.

Lemma catalog_suffix_free : suffix_free (rItemDescriptors catalog).
Proof. apply suffix_freeb_correct. vm_compute. reflexivity. Qed.

Lemma ends_with_both (k a b : string) :
  ends_with k a -> ends_with k b -> ends_with a b \/ ends_with b a.
Proof.
  intros [p Hp] [q Hq]. subst k. revert q Hq.
  induction p as [|c p IH]; intros q Hq.
  - left. exists q. exact Hq.
  - destruct q as [|c' q].
    + right. exists (String c p). simpl in *. now symmetry.
    + simpl in Hq. inversion Hq. now apply (IH q).
Qed.

Lemma ends_with_refl (a : string) : ends_with a a.
Proof. now exists EmptyString. Qed.

(** X18.  No suffix of the catalog is the tail of another one.  With such
    a table the order of registration does not matter to
    [getResourceItemDescriptor]: a key that ends with a registered suffix
    yields the descriptor of that suffix, whatever precedes it in the key
    and in the table. *)
Theorem getResourceItemDescriptor_unambiguous :
  suffix_free (rItemDescriptors catalog) /\
  (forall (g : Globals) (key : string) (d : ResourceItemDescriptor),
     suffix_free (rItemDescriptors g) ->
     In d (rItemDescriptors g) ->
     ends_with key (chars (suffix d)) ->
     getResourceItemDescriptor g key = Some d).
Proof.
  split; [exact catalog_suffix_free|].
  intros g key d Hsf Hin Hend. unfold getResourceItemDescriptor.
  destruct (getResourceItemDescriptor_loop (rItemDescriptors g) key) as [d'|] eqn:E.
  - apply getResourceItemDescriptor_loop_Some in E.
    destruct E as (pre & post & Hl & Hend' & _).
    assert (Hin' : In d' (rItemDescriptors g))
      by (rewrite Hl; apply in_or_app; right; now left).
    f_equal. destruct (ends_with_both key _ _ Hend Hend') as [H|H].
    + symmetry. now apply Hsf.
    + now apply Hsf.
  - apply getResourceItemDescriptor_loop_None in E.
    rewrite Forall_forall in E. now elim (E d Hin).
Qed.

End MoreCatalogProperties.

(** ** Further properties of the time items *)

Section MoreTimeProperties.

Context {host : QtHost}.

Local Ltac split_ifs :=
  repeat match goal with
    | |- context [if ?b then _ else _] =>
        let E := fresh in
        destruct b eqn:E;
        [try apply Z.leb_le in E; try apply Z.ltb_lt in E
        |try apply Z.leb_gt in E; try apply Z.ltb_ge in E]
    end.

Lemma civil_from_days_inverse (z : Z) :
  let '(y, m, d) := civil_from_days z in
  days_from_civil y m d = z /\ 1 <= m <= 12 /\ 1 <= d.
Proof.
  unfold civil_from_days, days_from_civil. cbv zeta. split_ifs.
  all: Z.div_mod_to_equations; lia.
Qed.

Lemma days_from_civil_low (y m d : Z) :
  y <= 0 -> 1 <= m <= 12 -> 1 <= d <= 31 -> days_from_civil y m d < -719162.
Proof.
  intros. unfold days_from_civil. cbv zeta. split_ifs.
  all: Z.div_mod_to_equations; lia.
Qed.

Lemma days_from_civil_high (y m d : Z) :
  10000 <= y -> 1 <= m <= 12 -> 1 <= d <= 31 -> 2932897 <= days_from_civil y m d.
Proof.
  intros. unfold days_from_civil. cbv zeta. split_ifs.
  all: Z.div_mod_to_equations; lia.
Qed.

Lemma civil_from_days_day (z : Z) :
  let '(y, m, d) := civil_from_days z in d <= days_in_month y m.
Proof.
  unfold civil_from_days, days_in_month, is_leap_year. cbv zeta.
  set (z' := z + 719468).
  set (era := z' / 146097).
  set (doe := z' - era * 146097).
  set (yoe := (doe - doe / 1460 + doe / 36524 - doe / 146096) / 365).
  set (doy := doe - (365 * yoe + yoe / 4 - yoe / 100)).
  set (mp := (5 * doy + 2) / 153).
  assert (Hdoe : 0 <= doe < 146097) by (subst doe era; Z.div_mod_to_equations; lia).
  assert (Hyoe : 0 <= yoe <= 399) by (subst yoe; Z.div_mod_to_equations; lia).
  assert (Hdoy : 0 <= doy <= 365) by (subst doy yoe; Z.div_mod_to_equations; lia).
  assert (Hmp : 0 <= mp <= 11) by (subst mp; Z.div_mod_to_equations; lia).
  destruct (mp <? 10) eqn:E1; [apply Z.ltb_lt in E1|apply Z.ltb_ge in E1].
  - replace (mp + 3 <=? 2) with false by (symmetry; apply Z.leb_gt; lia).
    replace (mp + 3 =? 2) with false by (symmetry; apply Z.eqb_neq; lia).
    assert (Hc : mp = 0 \/ mp = 1 \/ mp = 2 \/ mp = 3 \/ mp = 4 \/ mp = 5 \/
                 mp = 6 \/ mp = 7 \/ mp = 8 \/ mp = 9) by lia.
    subst mp.
    destruct Hc as [H|[H|[H|[H|[H|[H|[H|[H|[H|H]]]]]]]]]; rewrite H; cbn;
      Z.div_mod_to_equations; lia.
  - assert (Hc : mp = 10 \/ mp = 11) by lia.
    destruct Hc as [H|H]; rewrite H; cbn.
    + subst mp. Z.div_mod_to_equations; lia.
    + set (y := yoe + era * 400 + 1).
      destruct ((y mod 4 =? 0) && (negb (y mod 100 =? 0) || (y mod 400 =? 0))) eqn:L.
      * subst mp. Z.div_mod_to_equations; lia.
      * assert (doy <= 364).
        { rewrite andb_false_iff, orb_false_iff, negb_false_iff, !Z.eqb_neq,
            Z.eqb_eq in L.
          subst y doy yoe. clear H E1 Hmp mp.
          Z.div_mod_to_equations. lia. }
        subst mp. Z.div_mod_to_equations; lia.
Qed.

Lemma days_in_month_le_31 (y m : Z) : days_in_month y m <= 31.
Proof.
  unfold days_in_month. destruct (m =? 2); [destruct (is_leap_year y); lia|].
  destruct (_ || _); lia.
Qed.

Lemma digit_of_digit_char (k : Z) :
  0 <= k <= 9 -> digit_of (digit_char k) = Some k.
Proof.
  intros Hk.
  assert (H : k = 0 \/ k = 1 \/ k = 2 \/ k = 3 \/ k = 4 \/ k = 5 \/ k = 6 \/
              k = 7 \/ k = 8 \/ k = 9) by lia.
  destruct H as [->|[->|[->|[->|[->|[->|[->|[->|[->| ->]]]]]]]]]; reflexivity.
Qed.

Lemma number2_digits (n : Z) :
  0 <= n < 100 ->
  number2 (digit_char (n / 10)) (digit_char (n mod 10)) = Some n.
Proof.
  intros Hn. unfold number2.
  rewrite !digit_of_digit_char by (Z.div_mod_to_equations; lia).
  f_equal. Z.div_mod_to_equations; lia.
Qed.

Lemma number4_digits (n : Z) :
  0 <= n < 10000 ->
  number4 (digit_char (n / 100 / 10)) (digit_char (n / 100 mod 10))
          (digit_char (n mod 100 / 10)) (digit_char (n mod 100 mod 10)) = Some n.
Proof.
  intros Hn. unfold number4.
  rewrite !number2_digits by (Z.div_mod_to_equations; lia).
  f_equal. Z.div_mod_to_equations; lia.
Qed.

Lemma parse_format (local : Z) :
  four_digit_years local ->
  parse_yyyyMMddTHHmmss (format_yyyyMMddTHHmmss local) = Some (1000 * (local / 1000)).
Proof.
  unfold four_digit_years, format_yyyyMMddTHHmmss. intros Hl.
  set (secs := local / 1000).
  assert (Hsecs : -62135596800 <= secs < 253402300800)
    by (subst secs; Z.div_mod_to_equations; lia).
  set (days := secs / 86400). set (sod := secs mod 86400).
  assert (Hdays : -719162 <= days < 2932897)
    by (subst days; Z.div_mod_to_equations; lia).
  assert (Hsod : 0 <= sod < 86400) by (subst sod; apply Z.mod_pos_bound; lia).
  assert (Heq : secs = days * 86400 + sod)
    by (subst days sod; Z.div_mod_to_equations; lia).
  pose proof (civil_from_days_inverse days) as Hinv.
  pose proof (civil_from_days_day days) as Hday.
  destruct (civil_from_days days) as [[y m] d].
  destruct Hinv as (Hd & Hm & Hd1).
  pose proof (days_in_month_le_31 y m) as H31.
  assert (Hy : 1 <= y <= 9999).
  { destruct (Z_le_gt_dec y 0) as [Hlo|Hlo].
    - pose proof (days_from_civil_low y m d Hlo Hm ltac:(lia)). lia.
    - destruct (Z_le_gt_dec 10000 y) as [Hhi|Hhi]; [|lia].
      pose proof (days_from_civil_high y m d Hhi Hm ltac:(lia)). lia. }
  unfold format_yyyy, pad4.
  replace (0 <? y) with true by (symmetry; apply Z.ltb_lt; lia).
  replace (y <? 10000) with true by (symmetry; apply Z.ltb_lt; lia).
  unfold parse_yyyyMMddTHHmmss, pad2.
  cbn [append list_ascii_of_string].
  rewrite !Ascii.eqb_refl. cbn [andb].
  rewrite number4_digits by lia.
  rewrite !number2_digits by (Z.div_mod_to_equations; lia).
  replace (1 <=? y) with true by (symmetry; apply Z.leb_le; lia).
  replace (1 <=? m) with true by (symmetry; apply Z.leb_le; lia).
  replace (m <=? 12) with true by (symmetry; apply Z.leb_le; lia).
  replace (1 <=? d) with true by (symmetry; apply Z.leb_le; lia).
  replace (d <=? days_in_month y m) with true by (symmetry; apply Z.leb_le; lia).
  replace (sod / 3600 <? 24) with true
    by (symmetry; apply Z.ltb_lt; Z.div_mod_to_equations; lia).
  replace (sod mod 3600 / 60 <? 60) with true
    by (symmetry; apply Z.ltb_lt; Z.div_mod_to_equations; lia).
  replace (sod mod 60 <? 60) with true
    by (symmetry; apply Z.ltb_lt; Z.div_mod_to_equations; lia).
  cbn [andb]. f_equal. rewrite Hd. fold secs. rewrite Heq.
  Z.div_mod_to_equations; lia.
Qed.

(** X19.  The text that [toString] prints for a time item is accepted back
    by [setValue(QVariant)] on any time item and restores the number, cut to
    whole seconds.  This holds when the item is not [state/lastupdated] or
    the local zone is at offset zero from UTC, for the times whose local
    year has four digits.  Written back to the item itself, the text leaves
    what [toString] prints unchanged. *)
Theorem toString_text_accepted_back
  (g : Globals) (clock : Z) (it target : ResourceItem) :
  type (descriptor it) = DataTypeTime ->
  buffer_matches_type it ->
  type (descriptor target) = DataTypeTime ->
  ptr (suffix (descriptor it)) <> ptr RStateLastUpdated \/ localOffset = 0 ->
  four_digit_years (toNumber it + 1000 * localOffset) ->
  fst (setValue_QVariant clock (QVariant_QString (fst (toString g it))) target)
    = true /\
  toNumber
    (snd (setValue_QVariant clock (QVariant_QString (fst (toString g it))) target))
    = 1000 * (toNumber it / 1000) /\
  fst (toString g
         (snd (setValue_QVariant clock (QVariant_QString (fst (toString g it))) it)))
    = fst (toString g it).
Proof.
  intros Ht Hbuf Htt Hcase Hrange.
  assert (Hstr : m_str it <> None).
  { unfold buffer_matches_type in Hbuf. rewrite Ht in Hbuf. now apply Hbuf. }
  destruct (m_str it) as [s0|] eqn:Es; [clear Hstr|congruence].
  rewrite (toString_time g it s0 Ht Es). cbn [fst].
  assert (Htext : time_text it =
                  format_yyyyMMddTHHmmss (toNumber it + 1000 * localOffset)).
  { unfold time_text.
    destruct (ptr_eqb (suffix (descriptor it)) RStateLastUpdated) eqn:E;
      [|reflexivity].
    destruct Hcase as [Hne|H0]; [apply N.eqb_eq in E; contradiction|].
    rewrite H0. f_equal. lia. }
  assert (Hset : forall x : ResourceItem,
    type (descriptor x) = DataTypeTime ->
    setValue_QVariant clock (QVariant_QString (time_text it)) x =
    (true, store_number (currentDateTime clock) (1000 * (toNumber it / 1000)) x)).
  { intros x Hx. unfold setValue_QVariant. cbn [QVariant_isValid negb].
    unfold descriptor in Hx. rewrite Hx.
    cbn [QVariant_type QVariant_toString].
    unfold QDateTime_fromString. rewrite Htext, (parse_format _ Hrange).
    cbn [dt_isValid toMSecsSinceEpoch dt_msecs]. unfold toMSecsSinceEpoch.
    cbn [dt_msecs]. do 2 f_equal. Z.div_mod_to_equations; lia. }
  rewrite (Hset target Htt), (Hset it Ht). cbn [fst snd].
  split; [reflexivity|]. split; [apply store_number_num|].
  rewrite (toString_time g _ s0).
  - cbn [fst]. rewrite store_number_time_text. unfold time_text, toNumber.
    destruct (ptr_eqb (suffix (descriptor it)) RStateLastUpdated) eqn:E.
    + destruct Hcase as [Hne|H0]; [apply N.eqb_eq in E; contradiction|].
      unfold format_yyyyMMddTHHmmss.
      replace (1000 * (m_num it / 1000) / 1000) with (m_num it / 1000)
        by (Z.div_mod_to_equations; lia).
      reflexivity.
    + unfold format_yyyyMMddTHHmmss.
      replace ((1000 * (m_num it / 1000) + 1000 * localOffset) / 1000)
        with ((m_num it + 1000 * localOffset) / 1000)
        by (Z.div_mod_to_equations; lia).
      reflexivity.
  - unfold descriptor.
    destruct (store_number_frame (currentDateTime clock)
                (1000 * (toNumber it / 1000)) it) as (_ & -> & _).
    exact Ht.
  - destruct (store_number_frame (currentDateTime clock)
                (1000 * (toNumber it / 1000)) it) as (-> & _).
    exact Es.
Qed.

End MoreTimeProperties.

(** ** Properties of the devices API *)

Section RestProperties.

Context {host : QtHost} {plugin : DeRestPluginPrivate}.

Lemma indexOf_prefix (s sub : string) :
  (QString_indexOf s sub =? 0) = String.prefix sub s.
Proof.
  unfold QString_indexOf.
  destruct s as [|c s].
  - destruct sub; reflexivity.
  - cbn [index]. destruct (String.prefix sub (String c s)); [reflexivity|].
    destruct (index 0 sub s); [|reflexivity].
    apply Z.eqb_neq. lia.
Qed.

Lemma QMap_value_insert (m : QVariantMap) (key : string) (v : RestVariant) :
  QMap_value (QMap_insert m key v) key = v.
Proof.
  unfold QMap_value, QMap_insert. cbn [find fst snd].
  now rewrite String.eqb_refl.
Qed.

Lemma QMap_value_insert_other (m : QVariantMap) (key key' : string)
  (v : RestVariant) :
  key <> key' -> QMap_value (QMap_insert m key v) key' = QMap_value m key'.
Proof.
  intros Hne. unfold QMap_value, QMap_insert. cbn [find fst snd].
  destruct (String.eqb_spec key key') as [|_]; [contradiction|].
  induction m as [|[k w] m IH]; [reflexivity|].
  cbn [filter find fst snd].
  destruct (String.eqb_spec k key) as [->|Hk]; cbn [negb].
  - destruct (String.eqb_spec key key'); [contradiction|exact IH].
  - cbn [find fst snd]. destruct (k =? key')%string; [reflexivity|exact IH].
Qed.

Lemma insert_known_value (m : QVariantMap) (key text : string) :
  QMap_value (insert_known m key text) key =
  if QString_isEmpty text then QMap_value m key
  else Rest_value (QVariant_QString text).
Proof.
  unfold insert_known. destruct (QString_isEmpty text); cbn [negb].
  - reflexivity.
  - apply QMap_value_insert.
Qed.

Lemma insert_known_other (m : QVariantMap) (key key' text : string) :
  key <> key' -> QMap_value (insert_known m key text) key' = QMap_value m key'.
Proof.
  intros Hne. unfold insert_known. destruct (negb (QString_isEmpty text)).
  - now apply QMap_value_insert_other.
  - reflexivity.
Qed.

Lemma first_known_first_nonempty (x y : string) (l : list string) :
  first_nonempty (first_known x y :: l) = first_nonempty (x :: y :: l).
Proof.
  unfold first_known. destruct x, y; reflexivity.
Qed.

Lemma first_nonempty_skip (x : string) (l l' : list string) :
  first_nonempty (x :: l ++ l') =
  first_nonempty (first_nonempty (x :: l) :: l').
Proof.
  revert x. induction l as [|y l IH]; intros x.
  - cbn [app first_nonempty]. destruct (QString_isEmpty x) eqn:E.
    + reflexivity.
    + cbn [first_nonempty]. now rewrite E.
  - cbn [app]. destruct x.
    + cbn [first_nonempty QString_isEmpty]. apply (IH y).
    + cbn [first_nonempty QString_isEmpty]. reflexivity.
Qed.

(** The loop over the lights: the maps are appended in the order of the
    lights, and each attribute stays the first text that was known. *)
Lemma getDevice_nodes_result (req : ApiRequest) (uniqueid : string)
  (l : list LightNode) (st : DeviceScan) :
  let st' := getDevice_nodes req uniqueid l st in
  subDevices st' = subDevices st ++ sub_of_nodes req uniqueid l /\
  manufacturer st' =
    first_nonempty (manufacturer st ::
      map LightNode_manufacturer
        (filter (fun n => String.prefix uniqueid (LightNode_uniqueId n)) l)) /\
  modelid st' =
    first_nonempty (modelid st ::
      map LightNode_modelId
        (filter (fun n => String.prefix uniqueid (LightNode_uniqueId n)) l)) /\
  swversion st' =
    first_nonempty (swversion st ::
      map LightNode_swBuildId
        (filter (fun n => String.prefix uniqueid (LightNode_uniqueId n)) l)).
Proof.
  revert st. induction l as [|n l IH]; intros st; cbn zeta.
  - cbn [getDevice_nodes sub_of_nodes flat_map filter map first_nonempty].
    rewrite app_nil_r.
    repeat split; destruct (QString_isEmpty _) eqn:E; try reflexivity;
      match goal with |- ?x = _ => destruct x; [reflexivity|discriminate] end.
  - cbn [getDevice_nodes sub_of_nodes flat_map filter].
    rewrite indexOf_prefix.
    destruct (String.prefix uniqueid (LightNode_uniqueId n)); cbn [negb andb].
    + destruct (lightToMap req n) as [ok m]. cbn [fst snd].
      specialize (IH
        {| manufacturer := first_known (manufacturer st) (LightNode_manufacturer n);
           modelid := first_known (modelid st) (LightNode_modelId n);
           swversion := first_known (swversion st) (LightNode_swBuildId n);
           subDevices := if ok then subDevices st ++ [Rest_map m]
                         else subDevices st |}).
      cbn zeta in IH. cbn [subDevices manufacturer modelid swversion] in IH.
      destruct IH as (Hs & Hm & Hi & Hv).
      rewrite Hs, Hm, Hi, Hv. cbn [map].
      rewrite !first_known_first_nonempty.
      repeat split. fold (sub_of_nodes req uniqueid l).
      destruct ok; [now rewrite <- app_assoc|reflexivity].
    + cbn [app]. apply IH.
Qed.

(** The loop over the sensors, likewise. *)
Lemma getDevice_sensors_result (req : ApiRequest) (uniqueid : string)
  (l : list Sensor) (st : DeviceScan) :
  let st' := getDevice_sensors req uniqueid l st in
  subDevices st' = subDevices st ++ sub_of_sensors req uniqueid l /\
  manufacturer st' =
    first_nonempty (manufacturer st ::
      map Sensor_manufacturer
        (filter (fun s => String.prefix uniqueid (Sensor_uniqueId s)) l)) /\
  modelid st' =
    first_nonempty (modelid st ::
      map Sensor_modelId
        (filter (fun s => String.prefix uniqueid (Sensor_uniqueId s)) l)) /\
  swversion st' =
    first_nonempty (swversion st ::
      map Sensor_swVersion
        (filter (fun s => String.prefix uniqueid (Sensor_uniqueId s)) l)).
Proof.
  revert st. induction l as [|n l IH]; intros st; cbn zeta.
  - cbn [getDevice_sensors sub_of_sensors flat_map filter map first_nonempty].
    rewrite app_nil_r.
    repeat split; destruct (QString_isEmpty _) eqn:E; try reflexivity;
      match goal with |- ?x = _ => destruct x; [reflexivity|discriminate] end.
  - cbn [getDevice_sensors sub_of_sensors flat_map filter].
    rewrite indexOf_prefix.
    destruct (String.prefix uniqueid (Sensor_uniqueId n)); cbn [negb andb].
    + destruct (sensorToMap n req) as [ok m]. cbn [fst snd].
      specialize (IH
        {| manufacturer := first_known (manufacturer st) (Sensor_manufacturer n);
           modelid := first_known (modelid st) (Sensor_modelId n);
           swversion := first_known (swversion st) (Sensor_swVersion n);
           subDevices := if ok then subDevices st ++ [Rest_map m]
                         else subDevices st |}).
      cbn zeta in IH. cbn [subDevices manufacturer modelid swversion] in IH.
      destruct IH as (Hs & Hm & Hi & Hv).
      rewrite Hs, Hm, Hi, Hv. cbn [map].
      rewrite !first_known_first_nonempty.
      repeat split. fold (sub_of_sensors req uniqueid l).
      destruct ok; [now rewrite <- app_assoc|reflexivity].
    + cbn [app]. apply IH.
Qed.

Lemma getDevice_returns (req : ApiRequest) (rsp : ApiResponse)
  (uniqueid : string) :
  nth_error (path req) 3 = Some uniqueid ->
  exists rsp',
    getDevice req rsp = Some (REQ_READY_SEND, rsp') /\
    rsp_list rsp' = rsp_list rsp.
Proof.
  intros Hp. unfold getDevice. rewrite Hp. eexists. split; reflexivity.
Qed.

Lemma putDeviceInstallCode_returns (req : ApiRequest) (rsp : ApiResponse)
  (uniqueid : string) :
  nth_error (path req) 3 = Some uniqueid ->
  exists entry status,
    putDeviceInstallCode req rsp =
      Some (REQ_READY_SEND, respond rsp entry status).
Proof.
  intros Hp. unfold putDeviceInstallCode. rewrite Hp.
  destruct (Json_parse (content req)) as [var ok]. cbv zeta.
  destruct (negb ok || QMap_isEmpty (RestVariant_toMap var));
    [now do 2 eexists|].
  destruct (QMap_contains (RestVariant_toMap var) "installcode");
    [|now do 2 eexists].
  destruct (RestVariant_type (QMap_value (RestVariant_toMap var) "installcode"));
    try (now do 2 eexists).
  destruct (negb (QString_isEmpty _)); now do 2 eexists.
Qed.

Lemma first_nonempty_head (l : list string) :
  first_nonempty (EmptyString :: l) = first_nonempty l.
Proof. reflexivity. Qed.

Lemma first_nonempty_app (x : string) (l l' : list string) :
  first_nonempty (first_nonempty (x :: l) :: l') = first_nonempty (x :: l ++ l').
Proof. symmetry. apply first_nonempty_skip. Qed.

(** X20. [getDevice], for a path with the unique id at its fourth place:
    the request is always answered, also when no light and no sensor
    matches; only the map of the response is written.  Afterwards the key
    [uniqueid] holds the id of the request, [sub] holds the maps of the
    lights and then of the sensors whose unique id starts with it, and the
    keys [manufacturername], [modelid] and [swversion] hold the first
    text that such a light or sensor knows; where none knows one, the key
    is left as it was.  The other keys of the map are as before. *)
Theorem getDevice_merges_lights_and_sensors
  (req : ApiRequest) (rsp : ApiResponse) (uniqueid : string) :
  nth_error (path req) 3 = Some uniqueid ->
  exists rsp',
    getDevice req rsp = Some (REQ_READY_SEND, rsp') /\
    rsp_list rsp' = rsp_list rsp /\
    rsp_str rsp' = rsp_str rsp /\
    rsp_httpStatus rsp' = rsp_httpStatus rsp /\
    QMap_value (rsp_map rsp') "uniqueid" =
      Rest_value (QVariant_QString uniqueid) /\
    QMap_value (rsp_map rsp') "sub" =
      Rest_list (sub_of_nodes req uniqueid nodes ++
                 sub_of_sensors req uniqueid sensors) /\
    (forall key text,
       In (key, text)
          [("manufacturername"%string,
            first_nonempty (device_texts LightNode_manufacturer
                              Sensor_manufacturer uniqueid));
           ("modelid"%string,
            first_nonempty (device_texts LightNode_modelId
                              Sensor_modelId uniqueid));
           ("swversion"%string,
            first_nonempty (device_texts LightNode_swBuildId
                              Sensor_swVersion uniqueid))] ->
       QMap_value (rsp_map rsp') key =
       if QString_isEmpty text then QMap_value (rsp_map rsp) key
       else Rest_value (QVariant_QString text)) /\
    (forall key,
       ~ In key ["uniqueid"%string; "sub"%string; "manufacturername"%string;
                 "modelid"%string; "swversion"%string] ->
       QMap_value (rsp_map rsp') key = QMap_value (rsp_map rsp) key).
Proof.
  intros Hp. unfold getDevice. rewrite Hp. cbv zeta.
  set (st0 := {| subDevices := []; modelid := EmptyString;
                 swversion := EmptyString; manufacturer := EmptyString |}).
  destruct (getDevice_nodes_result req uniqueid nodes st0) as (Hs1 & Hm1 & Hi1 & Hv1).
  cbv zeta in Hs1, Hm1, Hi1, Hv1.
  set (st1 := getDevice_nodes req uniqueid nodes st0) in *.
  destruct (getDevice_sensors_result req uniqueid sensors st1) as (Hs2 & Hm2 & Hi2 & Hv2).
  cbv zeta in Hs2, Hm2, Hi2, Hv2.
  set (st2 := getDevice_sensors req uniqueid sensors st1) in *.
  assert (Em : manufacturer st2 =
               first_nonempty (device_texts LightNode_manufacturer
                                 Sensor_manufacturer uniqueid)).
  { rewrite Hm2, Hm1. unfold st0; cbn [manufacturer].
    rewrite first_nonempty_app. apply first_nonempty_head. }
  assert (Ei : modelid st2 =
               first_nonempty (device_texts LightNode_modelId
                                 Sensor_modelId uniqueid)).
  { rewrite Hi2, Hi1. unfold st0; cbn [modelid].
    rewrite first_nonempty_app. apply first_nonempty_head. }
  assert (Ev : swversion st2 =
               first_nonempty (device_texts LightNode_swBuildId
                                 Sensor_swVersion uniqueid)).
  { rewrite Hv2, Hv1. unfold st0; cbn [swversion].
    rewrite first_nonempty_app. apply first_nonempty_head. }
  assert (Es : subDevices st2 =
               sub_of_nodes req uniqueid nodes ++
               sub_of_sensors req uniqueid sensors).
  { rewrite Hs2, Hs1. reflexivity. }
  rewrite Em, Ei, Ev, Es.
  eexists. split; [reflexivity|]. cbn [rsp_list rsp_str rsp_httpStatus rsp_map].
  split; [reflexivity|]. split; [reflexivity|]. split; [reflexivity|].
  split.
  { rewrite !insert_known_other by discriminate.
    rewrite QMap_value_insert_other by discriminate.
    apply QMap_value_insert. }
  split.
  { rewrite !insert_known_other by discriminate.
    apply QMap_value_insert. }
  split.
  { intros key text [E|[E|[E|[]]]]; inversion E; subst key text; clear E.
    - rewrite !insert_known_other by discriminate.
      rewrite insert_known_value.
      destruct (QString_isEmpty _); [|reflexivity].
      now rewrite !QMap_value_insert_other by discriminate.
    - rewrite insert_known_other by discriminate.
      rewrite insert_known_value.
      destruct (QString_isEmpty _); [|reflexivity].
      rewrite insert_known_other by discriminate.
      now rewrite !QMap_value_insert_other by discriminate.
    - rewrite insert_known_value.
      destruct (QString_isEmpty _); [|reflexivity].
      rewrite !insert_known_other by discriminate.
      now rewrite !QMap_value_insert_other by discriminate. }
  intros key Hk.
  assert (Hne : forall k, In k ["uniqueid"%string; "sub"%string;
                                "manufacturername"%string; "modelid"%string;
                                "swversion"%string] -> k <> key).
  { intros k Hin ->. exact (Hk Hin). }
  rewrite !insert_known_other by (apply Hne; cbn; tauto).
  now rewrite !QMap_value_insert_other by (apply Hne; cbn; tauto).
Qed.

Lemma respond_fields (rsp : ApiResponse) (entry : QVariantMap)
  (status : HttpStatus) :
  respond rsp entry status =
  {| rsp_list := rsp_list rsp ++ [Rest_map entry]; rsp_map := rsp_map rsp;
     rsp_str := rsp_str rsp; rsp_httpStatus := status |}.
Proof. reflexivity. Qed.

Lemma QString_isEmpty_iff (s : string) :
  QString_isEmpty s = true <-> s = EmptyString.
Proof. destruct s; split; intros H; try reflexivity; discriminate. Qed.

Lemma RestVariant_String_inv (v : RestVariant) :
  RestVariant_type v = QVariant_String ->
  exists s, v = Rest_value (QVariant_QString s).
Proof.
  destruct v as [v| |]; try discriminate.
  destruct v; try discriminate. intros _. now eexists.
Qed.

(** X21. [putDeviceInstallCode], for a path with the unique id at its
    fourth place: the request is always answered, and exactly one entry is
    appended to the list of the response, whose map and text stay as they
    were.  The status is Ok exactly when the body holds an install code,
    and Bad Request otherwise.  With status Ok the entry reports success
    with the code of the body without the whitespace around it; otherwise
    it is the map of an error: invalid JSON or a missing parameter, at the
    address of the install code of the device, or an invalid value, at the
    address [/groups]. *)
Theorem putDeviceInstallCode_answer
  (req : ApiRequest) (rsp : ApiResponse) (uniqueid : string) :
  nth_error (path req) 3 = Some uniqueid ->
  exists entry status,
    putDeviceInstallCode req rsp =
      Some (REQ_READY_SEND,
            {| rsp_list := rsp_list rsp ++ [Rest_map entry];
               rsp_map := rsp_map rsp;
               rsp_str := rsp_str rsp;
               rsp_httpStatus := status |}) /\
    (status = HttpStatusOk \/ status = HttpStatusBadRequest) /\
    (status = HttpStatusOk <-> installcode_given req) /\
    (status = HttpStatusOk ->
     exists code,
       QMap_value (RestVariant_toMap (fst (Json_parse (content req))))
         "installcode" = Rest_value (QVariant_QString code) /\
       entry = [("success"%string,
                 Rest_map [("installcode"%string,
                            Rest_value (QVariant_QString (trimmed code)))])]) /\
    (status = HttpStatusBadRequest ->
     entry = errorToMap ERR_INVALID_JSON
               ("/devices/" ++ uniqueid ++ "/installcode")
               "body contains invalid JSON" \/
     entry = errorToMap ERR_MISSING_PARAMETER
               ("/devices/" ++ uniqueid ++ "/installcode")
               "missing parameters in body" \/
     exists code,
       entry = errorToMap ERR_INVALID_VALUE "/groups"
                 ("invalid value, " ++ code ++ ", for parameter, installcode")).
Proof.
  intros Hp. unfold putDeviceInstallCode, installcode_given. rewrite Hp.
  destruct (Json_parse (content req)) as [var ok]. cbn [fst snd]. cbv zeta.
  set (map := RestVariant_toMap var).
  destruct ok; cbn [negb orb].
  2:{ do 2 eexists. rewrite respond_fields. split; [reflexivity|].
      split; [now right|]. split.
      - split; [discriminate|]. intros (H & _). discriminate.
      - split; [discriminate|]. intros _. now left. }
  destruct (QMap_isEmpty map) eqn:Hempty.
  { do 2 eexists. rewrite respond_fields. split; [reflexivity|].
    split; [now right|]. split.
    - split; [discriminate|]. intros (_ & H & _).
      destruct map; [discriminate H|discriminate Hempty].
    - split; [discriminate|]. intros _. now left. }
  destruct (QMap_contains map "installcode") eqn:Hc.
  2:{ do 2 eexists. rewrite respond_fields. split; [reflexivity|].
      split; [now right|]. split.
      - split; [discriminate|]. intros (_ & H & _). discriminate.
      - split; [discriminate|]. intros _. right. now left. }
  destruct (RestVariant_type (QMap_value map "installcode")) eqn:Ht;
    try (do 2 eexists; rewrite respond_fields; split; [reflexivity|];
         split; [now right|]; split;
         [ split; [discriminate|]; intros (_ & _ & code & Hv & _);
           rewrite Hv in Ht; discriminate
         | split; [discriminate|]; intros _; right; right; now eexists ]).
  destruct (RestVariant_String_inv _ Ht) as [code Hv]. rewrite Hv.
  cbn [RestVariant_toString QVariant_toString].
  destruct (QString_isEmpty (trimmed code)) eqn:He; cbn [negb].
  - do 2 eexists. rewrite respond_fields. split; [reflexivity|].
    split; [now right|]. split.
    + split; [discriminate|]. intros (_ & _ & code' & Hv' & Hn).
      inversion Hv'; subst code'. apply QString_isEmpty_iff in He. contradiction.
    + split; [discriminate|]. intros _. right. right. now eexists.
  - do 2 eexists. rewrite respond_fields. split; [reflexivity|].
    split; [now left|]. split.
    + split; [|reflexivity]. intros _. split; [reflexivity|].
      split; [reflexivity|]. exists code. split; [reflexivity|].
      intros E. rewrite E in He. discriminate.
    + split; [|discriminate]. intros _. exists code. split; reflexivity.
Qed.

Local Ltac no_entry :=
  exists []; rewrite app_nil_r; split; [reflexivity|cbn [length]; lia].

(** X22. [handleApi], for a path of at least three elements: the request
    is answered exactly when the third element is [devices] and it is a
    GET of the devices, a GET of one device or a PUT of the install code of
    a device; no other path length and no other method is.  A request that
    is not handled leaves the response as it was, and one that is handled
    keeps the entries of its list and appends at most one. *)
Theorem handleApi_routes (req : ApiRequest) (rsp : ApiResponse) :
  (3 <= length (path req))%nat ->
  exists ret rsp',
    handleApi req rsp = Some (ret, rsp') /\
    (ret = REQ_READY_SEND <-> devices_route req) /\
    (ret = REQ_NOT_HANDLED -> rsp' = rsp) /\
    exists l, rsp_list rsp' = rsp_list rsp ++ l /\ (length l <= 1)%nat.
Proof.
  intros Hlen. unfold handleApi, devices_route.
  destruct (nth_error (path req) 2) as [p2|] eqn:Hp2.
  2:{ apply nth_error_None in Hp2. lia. }
  destruct (String.eqb_spec p2 "devices") as [->|Hne]; cbn [negb].
  2:{ do 2 eexists. split; [reflexivity|]. split.
      - split; [discriminate|]. intros (E & _). congruence.
      - split; [reflexivity|]. no_entry. }
  destruct (Nat.eqb_spec (length (path req)) 3) as [E3|N3]; cbn [andb].
  { destruct (String.eqb_spec (hdr_method req) "GET") as [Eg|Ng].
    - unfold getAllDevices. do 2 eexists. split; [reflexivity|]. split.
      + split; [|reflexivity]. intros _. split; [reflexivity|]. now left.
      + split; [discriminate|].
        destruct (rsp_list rsp) eqn:El; cbn [rsp_list]; rewrite ?El; no_entry.
    - rewrite E3. cbn [Nat.eqb andb].
      do 2 eexists. split; [reflexivity|]. split.
      + split; [discriminate|]. intros (_ & [(_ & E)|[(E & _)|(E & _)]]);
          [contradiction|lia|lia].
      + split; [reflexivity|]. no_entry. }
  destruct (Nat.eqb_spec (length (path req)) 4) as [E4|N4]; cbn [andb].
  { destruct (nth_error (path req) 3) as [uniqueid|] eqn:Hp3.
    2:{ apply nth_error_None in Hp3. lia. }
    destruct (String.eqb_spec (hdr_method req) "GET") as [Eg|Ng].
    - destruct (getDevice_returns req rsp uniqueid Hp3)
        as (rsp' & Hg & Hl).
      rewrite Hg. do 2 eexists. split; [reflexivity|]. split.
      + split; [|reflexivity]. intros _. split; [reflexivity|]. right. now left.
      + split; [discriminate|]. rewrite Hl. no_entry.
    - rewrite E4. cbn [Nat.eqb andb].
      do 2 eexists. split; [reflexivity|]. split.
      + split; [discriminate|]. intros (_ & [(E & _)|[(_ & E)|(E & _)]]);
          [lia|contradiction|lia].
      + split; [reflexivity|]. no_entry. }
  destruct (Nat.eqb_spec (length (path req)) 5) as [E5|N5]; cbn [andb].
  2:{ do 2 eexists. split; [reflexivity|]. split.
      - split; [discriminate|]. intros (_ & [(E & _)|[(E & _)|(E & _)]]); lia.
      - split; [reflexivity|]. no_entry. }
  destruct (nth_error (path req) 3) as [uniqueid|] eqn:Hp3.
  2:{ apply nth_error_None in Hp3. lia. }
  destruct (nth_error (path req) 4) as [p4|] eqn:Hp4.
  2:{ apply nth_error_None in Hp4. lia. }
  rewrite (nth_error_nth _ _ EmptyString Hp4).
  destruct (String.eqb_spec (hdr_method req) "PUT") as [Eu|Nu]; cbn [andb].
  2:{ do 2 eexists. split; [reflexivity|]. split.
      - split; [discriminate|].
        intros (_ & [(E & _)|[(E & _)|(_ & E & _)]]); [lia|lia|contradiction].
      - split; [reflexivity|]. no_entry. }
  destruct (String.eqb_spec p4 "installcode") as [->|Ni].
  2:{ do 2 eexists. split; [reflexivity|]. split.
      - split; [discriminate|].
        intros (_ & [(E & _)|[(E & _)|(_ & _ & E)]]); [lia|lia|congruence].
      - split; [reflexivity|]. no_entry. }
  destruct (putDeviceInstallCode_returns req rsp uniqueid Hp3)
    as (entry & status & Hput).
  rewrite Hput. do 2 eexists. split; [reflexivity|]. split.
  - split; [|reflexivity]. intros _. split; [reflexivity|]. right. right.
    repeat split; assumption.
  - split; [discriminate|]. exists [Rest_map entry]. cbn [rsp_list length].
    split; [reflexivity|lia].
Qed.

End RestProperties.

(** ** The further properties at sample inputs *)

Lemma descriptor_in_table (d : ResourceItemDescriptor)
  (l : list ResourceItemDescriptor) :
  existsb (ResourceItemDescriptor_eqb d) l = true -> In d l.
Proof.
  intros H. apply existsb_exists in H. destruct H as (x & Hin & He).
  apply ResourceItemDescriptor_eqb_eq in He. now subst.
Qed.

Lemma sample_sensor_holds_catalog_items :
  holds_catalog_items catalog sample_sensor.
Proof.
  unfold holds_catalog_items, sample_sensor. cbn [m_rItems].
  repeat (apply Forall_cons;
          [apply descriptor_in_table; vm_compute; reflexivity|]).
  apply Forall_nil.
Qed.

(** 101 is outside the range of the battery level: the write is turned
    down and the item is as before. *)
Lemma rejected_write_changes_nothing_witness :
  fst (setValue_qint64 10 101 (ResourceItem_ctor true battery_descriptor)) = false /\
  snd (setValue_qint64 10 101 (ResourceItem_ctor true battery_descriptor))
    = ResourceItem_ctor true battery_descriptor.
Proof.
  split; [reflexivity|].
  apply (proj1 (proj2 (rejected_write_changes_nothing (host := plain_host 0) 10
                         (ResourceItem_ctor true battery_descriptor))) 101).
  reflexivity.
Defined.

(** The variant 50 written to the battery level. *)
Lemma setValue_QVariant_number_as_qint64_witness :
  is_number_type (type (descriptor (ResourceItem_ctor true battery_descriptor)))
    = true /\
  QVariant_isValid (QVariant_int 50) = true /\
  setValue_QVariant (host := plain_host 0) 10 (QVariant_int 50)
    (ResourceItem_ctor true battery_descriptor)
  = setValue_qint64 10 50 (ResourceItem_ctor true battery_descriptor).
Proof.
  split; [reflexivity|]. split; [reflexivity|].
  apply (proj1 (setValue_QVariant_number_as_qint64 (host := plain_host 0) 10
                  (QVariant_int 50) (ResourceItem_ctor true battery_descriptor)
                  eq_refl eq_refl) 50).
  reflexivity.
Defined.

(** A text written as a variant to the name. *)
Lemma setValue_QVariant_text_as_QString_witness :
  is_text_type (type (descriptor (ResourceItem_ctor true name_descriptor)))
    = true /\
  QVariant_isValid (QVariant_QString "lamp") = true /\
  setValue_QVariant (host := plain_host 0) 10 (QVariant_QString "lamp")
    (ResourceItem_ctor true name_descriptor)
  = setValue_QString 10
      (QVariant_toString (host := plain_host 0) (QVariant_QString "lamp"))
      (ResourceItem_ctor true name_descriptor).
Proof.
  split; [reflexivity|]. split; [reflexivity|].
  apply (setValue_QVariant_text_as_QString (host := plain_host 0) 10
           (QVariant_QString "lamp") (ResourceItem_ctor true name_descriptor));
    reflexivity.
Defined.

(** The variant [true] written to [state/on]. *)
Lemma setValue_QVariant_bool_read_back_witness :
  type (descriptor (ResourceItem_ctor true on_descriptor)) = DataTypeBool /\
  QVariant_isValid (QVariant_bool true) = true /\
  fst (setValue_QVariant (host := plain_host 0) 10 (QVariant_bool true)
         (ResourceItem_ctor true on_descriptor)) = true /\
  toBool (snd (setValue_QVariant (host := plain_host 0) 10 (QVariant_bool true)
                 (ResourceItem_ctor true on_descriptor)))
    = QVariant_toBool (host := plain_host 0) (QVariant_bool true).
Proof.
  split; [reflexivity|]. split; [reflexivity|].
  destruct (setValue_QVariant_bool_read_back (host := plain_host 0) catalog 10
              (QVariant_bool true) (ResourceItem_ctor true on_descriptor)
              eq_refl eq_refl) as (H1 & _ & _ & H4 & _).
  split; [exact H1|exact H4].
Defined.

(** 50 written to the battery level. *)
Lemma setValue_qint64_read_back_witness :
  setValue_qint64 10 50 (ResourceItem_ctor true battery_descriptor)
    = (true, snd (setValue_qint64 10 50 (ResourceItem_ctor true battery_descriptor))) /\
  toNumber (snd (setValue_qint64 10 50 (ResourceItem_ctor true battery_descriptor)))
    = 50 /\
  toNumberPrevious
    (snd (setValue_qint64 10 50 (ResourceItem_ctor true battery_descriptor))) = 0.
Proof.
  split; [reflexivity|].
  destruct (setValue_qint64_read_back 10 50
              (ResourceItem_ctor true battery_descriptor) _ eq_refl)
    as (H1 & H2 & _).
  split; [exact H1|exact H2].
Defined.

(** A text written to the name and read back. *)
Lemma setValue_QString_read_back_witness :
  is_text_type (type (descriptor (ResourceItem_ctor true name_descriptor)))
    = true /\
  buffer_matches_type (ResourceItem_ctor true name_descriptor) /\
  fst (toString (host := plain_host 0) catalog
         (snd (setValue_QString 10 "lamp" (ResourceItem_ctor true name_descriptor))))
    = "lamp"%string.
Proof.
  assert (H : buffer_matches_type (ResourceItem_ctor true name_descriptor))
    by (split; [reflexivity|discriminate]).
  split; [reflexivity|]. split; [exact H|].
  exact (proj1 (proj2 (setValue_QString_read_back (host := plain_host 0) catalog
                         10 "lamp" (ResourceItem_ctor true name_descriptor)
                         eq_refl H))).
Defined.

(** A text written to the local time is accepted and not shown. *)
Lemma setValue_QString_by_type_witness :
  buffer_matches_type (ResourceItem_ctor true localtime_descriptor) /\
  fst (setValue_QString 10 "noon" (ResourceItem_ctor true localtime_descriptor))
    = true /\
  fst (toString (host := plain_host 0) catalog
         (snd (setValue_QString 10 "noon"
                 (ResourceItem_ctor true localtime_descriptor))))
    = fst (toString (host := plain_host 0) catalog
             (ResourceItem_ctor true localtime_descriptor)).
Proof.
  assert (H : buffer_matches_type (ResourceItem_ctor true localtime_descriptor))
    by (split; [reflexivity|discriminate]).
  split; [exact H|].
  destruct (setValue_QString_by_type (host := plain_host 0) catalog 10 "noon"
              (ResourceItem_ctor true localtime_descriptor) H) as (Hiff & Ht).
  split; [apply (proj2 Hiff); reflexivity|].
  exact (proj1 (Ht eq_refl)).
Defined.

(** [toString] leaves an item that is no time item as it is. *)
Lemma toString_keeps_readings_witness :
  type (descriptor (ResourceItem_ctor true name_descriptor)) <> DataTypeTime /\
  snd (toString (host := plain_host 0) catalog
         (ResourceItem_ctor true name_descriptor))
    = ResourceItem_ctor true name_descriptor.
Proof.
  assert (H : type (descriptor (ResourceItem_ctor true name_descriptor))
              <> DataTypeTime) by discriminate.
  split; [exact H|].
  exact (proj2 (proj2 (toString_keeps_readings (host := plain_host 0) catalog
                         (ResourceItem_ctor true name_descriptor))) H).
Defined.

(** The rule 7 marked twice. *)
Lemma inRule_only_appends_witness :
  0 <= 7 < 65536 /\
  In 7 (rulesInvolved (inRule 7 (ResourceItem_ctor true on_descriptor))) /\
  inRule 7 (inRule 7 (ResourceItem_ctor true on_descriptor))
    = inRule 7 (ResourceItem_ctor true on_descriptor).
Proof.
  assert (H1 : 0 <= 7 < 65536) by lia.
  assert (H2 : In 7 (rulesInvolved (inRule 7 (ResourceItem_ctor true on_descriptor))))
    by (left; reflexivity).
  split; [exact H1|]. split; [exact H2|].
  destruct (inRule_only_appends 7 (inRule 7 (ResourceItem_ctor true on_descriptor)))
    as (_ & _ & _ & _ & _ & _ & _ & _ & H).
  exact (H H1 H2).
Defined.

(** [state/on] is the second item of the sample sensor. *)
Lemma item_points_to_first_witness :
  item sample_sensor RStateOn = Some 1%nat /\
  (1 < length (m_rItems sample_sensor))%nat /\
  itemForIndex sample_sensor 1 = Some 1%nat.
Proof.
  split; [reflexivity|].
  destruct (proj1 (item_points_to_first sample_sensor RStateOn) 1%nat eq_refl)
    as (H1 & H2 & _).
  split; [exact H1|exact H2].
Defined.

(** The sample sensor has no brightness. *)
Lemma Resource_readers_by_suffix_witness :
  ~ In (ptr RStateBri) (suffixes sample_sensor) /\
  Resource_toBool sample_sensor RStateBri = false /\
  Resource_toNumber sample_sensor RStateBri = 0 /\
  Resource_toString (host := plain_host 0) catalog sample_sensor RStateBri
    = (invalid_string catalog, sample_sensor).
Proof.
  assert (H : ~ In (ptr RStateBri) (suffixes sample_sensor))
    by (simpl; intuition discriminate).
  split; [exact H|].
  exact (proj1 (Resource_readers_by_suffix (host := plain_host 0) true catalog
                  sample_sensor RStateBri) H).
Defined.

(** The brightness added to the sample sensor. *)
Lemma addItem_appends_new_item_witness :
  ~ In (ptr RStateBri) (suffixes sample_sensor) /\
  (exists d : ResourceItemDescriptor,
     In d (rItemDescriptors catalog) /\ ptr (suffix d) = ptr RStateBri /\
     type d = DataTypeUInt8) /\
  added (addItem (host := plain_host 0) true catalog false sample_sensor
           DataTypeUInt8 RStateBri) = Some 3%nat /\
  itemCount (after_addItem (addItem (host := plain_host 0) true catalog false
                              sample_sensor DataTypeUInt8 RStateBri))
    = (itemCount sample_sensor + 1)%Z.
Proof.
  assert (H1 : ~ In (ptr RStateBri) (suffixes sample_sensor))
    by (simpl; intuition discriminate).
  assert (H2 : exists d : ResourceItemDescriptor,
             In d (rItemDescriptors catalog) /\ ptr (suffix d) = ptr RStateBri /\
             type d = DataTypeUInt8).
  { exists (ResourceItemDescriptor_ctor DataTypeUInt8 RStateBri 0 0).
    split; [|split; reflexivity].
    apply descriptor_in_table. vm_compute. reflexivity. }
  split; [exact H1|]. split; [exact H2|].
  destruct (addItem_appends_new_item (host := plain_host 0) true catalog false
              sample_sensor DataTypeUInt8 RStateBri H1 H2)
    as (_ & Ha & _ & Hc & _).
  split; [exact Ha|exact Hc].
Defined.

(** The battery level added to an empty resource, and asked for as a
    boolean. *)
Lemma addItem_by_table_entry_witness :
  NoDup (map (fun d => ptr (suffix d)) (rItemDescriptors catalog)) /\
  In battery_descriptor (rItemDescriptors catalog) /\
  ~ In (ptr (suffix battery_descriptor)) (suffixes (Resource_ctor RSensors)) /\
  added (addItem (host := plain_host 0) true catalog true (Resource_ctor RSensors)
           (type battery_descriptor) (suffix battery_descriptor)) = Some 0%nat /\
  addItem (host := plain_host 0) true catalog true (Resource_ctor RSensors)
    DataTypeBool (suffix battery_descriptor)
  = {| added := None; after_addItem := Resource_ctor RSensors;
       debug_out := [DBG_Assert_failed;
                     DBG_Printf_ERROR_unknown DataTypeBool
                       (suffix battery_descriptor)] |}.
Proof.
  assert (H1 : NoDup (map (fun d => ptr (suffix d)) (rItemDescriptors catalog)))
    by exact (proj1 catalog_suffixes_distinct).
  assert (H2 : In battery_descriptor (rItemDescriptors catalog))
    by (apply descriptor_in_table; vm_compute; reflexivity).
  assert (H3 : ~ In (ptr (suffix battery_descriptor))
                 (suffixes (Resource_ctor RSensors)))
    by (simpl; tauto).
  split; [exact H1|]. split; [exact H2|]. split; [exact H3|].
  destruct (addItem_by_table_entry (host := plain_host 0) true catalog true
              (Resource_ctor RSensors) battery_descriptor H1 H2 H3)
    as ((Ha & _) & Hother).
  split; [exact Ha|]. apply Hother. discriminate.
Defined.

(** Removing the name of the sample sensor, once and twice, and removing
    the brightness, which it has not. *)
Lemma removeItem_keeps_other_items_witness :
  one_item_per_suffix sample_sensor /\
  ~ In (ptr RStateBri) (suffixes sample_sensor) /\
  removeItem (host := plain_host 0) catalog sample_sensor RStateBri
    = sample_sensor /\
  removeItem (host := plain_host 0) catalog
      (removeItem (host := plain_host 0) catalog sample_sensor RAttrName) RAttrName
    = removeItem (host := plain_host 0) catalog sample_sensor RAttrName.
Proof.
  assert (H : ~ In (ptr RStateBri) (suffixes sample_sensor))
    by (simpl; intuition discriminate).
  split; [exact sample_sensor_one_item_per_suffix|]. split; [exact H|].
  split.
  - exact (proj1 (removeItem_keeps_other_items (host := plain_host 0) catalog
                    sample_sensor RStateBri sample_sensor_one_item_per_suffix) H).
  - exact (proj2 (proj2 (proj2 (proj2
             (removeItem_keeps_other_items (host := plain_host 0) catalog
                sample_sensor RAttrName sample_sensor_one_item_per_suffix))))).
Defined.

(** The sample sensor holds items of the catalog, also after the
    brightness is added, and fewer items than the catalog has entries. *)
Lemma itemCount_bounded_by_table_witness :
  holds_catalog_items catalog sample_sensor /\
  one_item_per_suffix sample_sensor /\
  holds_catalog_items catalog
    (after_addItem (addItem (host := plain_host 0) true catalog true
                      sample_sensor DataTypeUInt8 RStateBri)) /\
  (itemCount sample_sensor <= Z.of_nat (length (rItemDescriptors catalog)))%Z.
Proof.
  split; [exact sample_sensor_holds_catalog_items|].
  split; [exact sample_sensor_one_item_per_suffix|].
  destruct (itemCount_bounded_by_table (host := plain_host 0) true catalog true
              sample_sensor DataTypeUInt8 RStateBri
              sample_sensor_holds_catalog_items
              sample_sensor_one_item_per_suffix) as (_ & Ha & _ & Hc).
  split; [exact Ha|exact Hc].
Defined.

(** The first item of a copy of the sample sensor. *)
Lemma Resource_copy_same_readings_witness :
  nth_error (m_rItems sample_sensor) 0 = Some (ResourceItem_ctor true name_descriptor) /\
  exists x' x'' : ResourceItem,
    nth_error (m_rItems (fst (Resource_copy (host := plain_host 0) catalog
                                sample_sensor))) 0 = Some x' /\
    same_readings (host := plain_host 0) catalog
      (ResourceItem_ctor true name_descriptor) x' /\
    nth_error (m_rItems (snd (Resource_copy (host := plain_host 0) catalog
                                sample_sensor))) 0 = Some x'' /\
    same_readings (host := plain_host 0) catalog
      (ResourceItem_ctor true name_descriptor) x''.
Proof.
  split; [reflexivity|].
  exact (proj2 (proj2 (proj2 (Resource_copy_same_readings (host := plain_host 0)
                                catalog sample_sensor))) 0%nat _ eq_refl).
Defined.

(** A key that ends with [config/battery]. *)
Lemma getResourceItemDescriptor_unambiguous_witness :
  suffix_free (rItemDescriptors catalog) /\
  In battery_descriptor (rItemDescriptors catalog) /\
  ends_with "xyz/config/battery" (chars (suffix battery_descriptor)) /\
  getResourceItemDescriptor catalog "xyz/config/battery" = Some battery_descriptor.
Proof.
  assert (H1 : suffix_free (rItemDescriptors catalog))
    by exact (proj1 getResourceItemDescriptor_unambiguous).
  assert (H2 : In battery_descriptor (rItemDescriptors catalog))
    by (apply descriptor_in_table; vm_compute; reflexivity).
  assert (H3 : ends_with "xyz/config/battery" (chars (suffix battery_descriptor)))
    by (exists "xyz/"%string; reflexivity).
  split; [exact H1|]. split; [exact H2|]. split; [exact H3|].
  exact (proj2 getResourceItemDescriptor_unambiguous catalog
           "xyz/config/battery"%string battery_descriptor H1 H2 H3).
Defined.

(** The local time of a host one hour east of UTC, at a time with a
    fraction of a second, printed and written to [state/lastupdated]. *)
Lemma toString_text_accepted_back_witness :
  type (descriptor sample_time_item) = DataTypeTime /\
  buffer_matches_type sample_time_item /\
  four_digit_years
    (toNumber sample_time_item + 1000 * localOffset (QtHost := plain_host 3600)) /\
  fst (setValue_QVariant (host := plain_host 3600) 5
         (QVariant_QString
            (fst (toString (host := plain_host 3600) catalog sample_time_item)))
         (ResourceItem_ctor true lastupdated_descriptor)) = true /\
  toNumber
    (snd (setValue_QVariant (host := plain_host 3600) 5
            (QVariant_QString
               (fst (toString (host := plain_host 3600) catalog sample_time_item)))
            (ResourceItem_ctor true lastupdated_descriptor)))
    = 1000 * (toNumber sample_time_item / 1000).
Proof.
  assert (H1 : type (descriptor sample_time_item) = DataTypeTime) by reflexivity.
  assert (H2 : buffer_matches_type sample_time_item)
    by (split; [reflexivity|discriminate]).
  assert (H3 : four_digit_years
                 (toNumber sample_time_item +
                  1000 * localOffset (QtHost := plain_host 3600)))
    by (unfold four_digit_years; simpl; lia).
  split; [exact H1|]. split; [exact H2|]. split; [exact H3|].
  destruct (toString_text_accepted_back (host := plain_host 3600) catalog 5
              sample_time_item (ResourceItem_ctor true lastupdated_descriptor)
              H1 H2 eq_refl)
    as (Ha & Hn & _).
  - left. simpl. lia.
  - exact H3.
  - split; [exact Ha|exact Hn].
Defined.

(** The device of the sample plugin: its light and its sensor are listed,
    and the response keeps its list. *)
Lemma getDevice_merges_lights_and_sensors_witness :
  nth_error (path sample_get_device) 3 = Some "00:0b:57:01"%string /\
  exists rsp' : ApiResponse,
    getDevice (plugin := sample_plugin) sample_get_device sample_response
      = Some (REQ_READY_SEND, rsp') /\
    rsp_list rsp' = rsp_list sample_response /\
    QMap_value (rsp_map rsp') "sub" =
      Rest_list (sub_of_nodes (plugin := sample_plugin) sample_get_device
                   "00:0b:57:01" (nodes (DeRestPluginPrivate := sample_plugin)) ++
                 sub_of_sensors (plugin := sample_plugin) sample_get_device
                   "00:0b:57:01" (sensors (DeRestPluginPrivate := sample_plugin))).
Proof.
  split; [reflexivity|].
  destruct (getDevice_merges_lights_and_sensors (plugin := sample_plugin)
              sample_get_device sample_response "00:0b:57:01"%string eq_refl)
    as (rsp' & Hg & Hl & _ & _ & _ & Hs & _).
  exists rsp'. split; [exact Hg|]. split; [exact Hl|exact Hs].
Defined.

(** An install code with whitespace around it. *)
Lemma putDeviceInstallCode_answer_witness :
  nth_error (path sample_put_installcode) 3 = Some "00:0b:57:01"%string /\
  exists (entry : QVariantMap) (status : HttpStatus),
    putDeviceInstallCode (host := plain_host 0) (plugin := sample_plugin)
      sample_put_installcode sample_response
    = Some (REQ_READY_SEND,
            {| rsp_list := rsp_list sample_response ++ [Rest_map entry];
               rsp_map := rsp_map sample_response;
               rsp_str := rsp_str sample_response;
               rsp_httpStatus := status |}) /\
    (status = HttpStatusOk \/ status = HttpStatusBadRequest).
Proof.
  split; [reflexivity|].
  destruct (putDeviceInstallCode_answer (host := plain_host 0)
              (plugin := sample_plugin) sample_put_installcode sample_response
              "00:0b:57:01"%string eq_refl)
    as (entry & status & Hp & Hs & _).
  exists entry, status. split; [exact Hp|exact Hs].
Defined.

(** The request for one device is routed. *)
Lemma handleApi_routes_witness :
  (3 <= length (path sample_get_device))%nat /\
  exists (ret : ApiReturn) (rsp' : ApiResponse),
    handleApi (host := plain_host 0) (plugin := sample_plugin)
      sample_get_device sample_response = Some (ret, rsp') /\
    (ret = REQ_READY_SEND <-> devices_route sample_get_device).
Proof.
  assert (H : (3 <= length (path sample_get_device))%nat) by (simpl; lia).
  split; [exact H|].
  destruct (handleApi_routes (host := plain_host 0) (plugin := sample_plugin)
              sample_get_device sample_response H)
    as (ret & rsp' & Hh & Hr & _).
  exists ret, rsp'. split; [exact Hh|exact Hr].
Defined.
